(** * nova-ecs-render-three: the per-frame synchronisation system

    A shallow embedding of the TypeScript sources of the package
    (components, [ThreeRenderSystem], the geometry switch) and the
    properties its specification states about them.

    - JavaScript numbers are IEEE 754 binary64 values: Rocq's primitive
      [float], with the language's own arithmetic and truthiness.
    - Three.js objects live in an object store indexed by references, so
      that the mesh held by a component and the mesh held by the scene are
      one object.  What the wrapped library receives (constructor class and
      arguments, [scene.add], [dispose], [render]) is recorded as data.
    - A call into the wrapped library may throw.  Which calls do is given
      by a fault oracle, so that statements quantify over every pattern of
      failures. *)

From Stdlib Require Import PrimFloat Ascii String.
From stdpp Require Import base option list gmap strings.

(* Decimal literals denote the nearest binary64 value, as in JavaScript. *)
Set Warnings "-inexact-float".

(** ** JavaScript values *)

Abbreviation number := float.

(** [Math.PI], the binary64 value nearest to pi. *)
Definition Math_PI : number := 0x1.921fb54442d18p+1%float.

(** Truthiness of a number: [0], [-0] and [NaN] are falsy. *)
Definition truthy (x : number) : bool :=
  negb (PrimFloat.eqb x 0%float) && PrimFloat.eqb x x.

(** [x || d] where [x] is a possibly absent number. *)
Definition or_number (x : option number) (d : number) : number :=
  match x with
  | Some v => if truthy v then v else d
  | None => d
  end.

(** [x || d] where [x] is a possibly absent string: the empty string is
    falsy. *)
Definition or_string (x : option string) (d : string) : string :=
  match x with
  | Some v => if String.eqb v "" then d else v
  | None => d
  end.

(** [x || d] where [x] is a possibly absent boolean. *)
Definition or_boolean (x : option bool) (d : bool) : bool :=
  match x with
  | Some v => if v then v else d
  | None => d
  end.

(** [{ x: number; y: number; z: number }] *)
Record Vec3 := mkVec3 { vx : number; vy : number; vz : number }.

(** ** Components (src/components) *)

(** References to Three.js objects. *)
Abbreviation ref := nat.

(** TransformComponent.ts *)
Record TransformComponent := mkTransform {
  position : Vec3;
  rotation : Vec3;
  scale : Vec3
}.

Definition TransformComponent_new
    (p r s : option Vec3) : TransformComponent :=
  {| position := default (mkVec3 0 0 0) p;
     rotation := default (mkVec3 0 0 0) r;
     scale := default (mkVec3 1 1 1) s |}.

(** ThreeMeshComponent.ts *)
Record ThreeMeshComponent := mkMeshComp {
  mesh : option ref;
  mesh_needsUpdate : bool
}.

Definition ThreeMeshComponent_new (m : option ref) : ThreeMeshComponent :=
  {| mesh := m; mesh_needsUpdate := false |}.

(** ThreeMaterialComponent.ts *)
Record ThreeMaterialComponent := mkMaterialComp {
  materialType : string;
  color : string;
  metalness : number;
  roughness : number;
  emissive : string;
  emissiveIntensity : number;
  transparent : bool;
  opacity : number;
  wireframe : bool;
  texture : option string;
  material_needsUpdate : bool
}.

(** [Partial<ThreeMaterialComponent>]: every field may be absent. *)
Record MaterialConfig := mkMaterialConfig {
  cfg_materialType : option string;
  cfg_color : option string;
  cfg_metalness : option number;
  cfg_roughness : option number;
  cfg_emissive : option string;
  cfg_emissiveIntensity : option number;
  cfg_transparent : option bool;
  cfg_opacity : option number;
  cfg_wireframe : option bool;
  cfg_texture : option string
}.

Definition ThreeMaterialComponent_new
    (config : MaterialConfig) : ThreeMaterialComponent :=
  {| materialType := or_string (cfg_materialType config) "standard";
     color := or_string (cfg_color config) "#ffffff";
     metalness := or_number (cfg_metalness config) 0.0;
     roughness := or_number (cfg_roughness config) 1.0;
     emissive := or_string (cfg_emissive config) "#000000";
     emissiveIntensity := or_number (cfg_emissiveIntensity config) 0.0;
     transparent := or_boolean (cfg_transparent config) false;
     opacity := or_number (cfg_opacity config) 1.0;
     wireframe := or_boolean (cfg_wireframe config) false;
     texture := cfg_texture config;
     material_needsUpdate := false |}.

(** The empty configuration [{}]. *)
Definition MaterialConfig_empty : MaterialConfig :=
  mkMaterialConfig None None None None None None None None None None.

(** ThreeGeometryComponent.ts; [parameters] is a [Record<string, number>]. *)
Record ThreeGeometryComponent := mkGeometryComp {
  geometryType : string;
  parameters : gmap string number;
  geometry_needsUpdate : bool
}.

Definition ThreeGeometryComponent_new
    (geometryType : option string) (parameters : option (gmap string number))
    : ThreeGeometryComponent :=
  {| geometryType := default "box" geometryType;
     parameters := default ∅ parameters;
     geometry_needsUpdate := false |}.

(** ThreeLightComponent.ts *)
Record ThreeLightComponent := mkLightComp {
  lightType : string;
  light_color : string;
  intensity : number;
  castShadow : bool;
  light : option ref;
  light_needsUpdate : bool
}.

Record LightConfig := mkLightConfig {
  cfg_lightType : option string;
  cfg_light_color : option string;
  cfg_intensity : option number;
  cfg_castShadow : option bool
}.

Definition ThreeLightComponent_new (config : LightConfig) : ThreeLightComponent :=
  {| lightType := or_string (cfg_lightType config) "directional";
     light_color := or_string (cfg_light_color config) "#ffffff";
     intensity := or_number (cfg_intensity config) 1.0;
     castShadow := or_boolean (cfg_castShadow config) false;
     light := None;
     light_needsUpdate := false |}.

Definition LightConfig_empty : LightConfig := mkLightConfig None None None None.

(** ThreeCameraComponent.ts *)
Record ThreeCameraComponent := mkCameraComp {
  cameraType : string;
  fov : number;
  aspect : number;
  near : number;
  far : number;
  camera : option ref;
  camera_needsUpdate : bool
}.

Record CameraConfig := mkCameraConfig {
  cfg_cameraType : option string;
  cfg_fov : option number;
  cfg_aspect : option number;
  cfg_near : option number;
  cfg_far : option number
}.

Definition ThreeCameraComponent_new (config : CameraConfig) : ThreeCameraComponent :=
  {| cameraType := or_string (cfg_cameraType config) "perspective";
     fov := or_number (cfg_fov config) 75;
     aspect := or_number (cfg_aspect config) 1;
     near := or_number (cfg_near config) 0.1;
     far := or_number (cfg_far config) 1000;
     camera := None;
     camera_needsUpdate := false |}.

Definition CameraConfig_empty : CameraConfig :=
  mkCameraConfig None None None None None.

(** ** What the wrapped library receives *)

(** A constructor call [new THREE.<class>(args)] for a geometry. *)
Inductive GeometryClass :=
| BoxGeometry | SphereGeometry | PlaneGeometry
| CylinderGeometry | ConeGeometry | TorusGeometry.

Record BufferGeometry := mkGeometry {
  geometry_class : GeometryClass;
  geometry_args : list number
}.

(** [ThreeRenderSystem._createGeometry]: the constructor call it makes. *)
Definition _createGeometry_call
    (geometryComp : option ThreeGeometryComponent) : BufferGeometry :=
  match geometryComp with
  | None => mkGeometry BoxGeometry [1; 1; 1]%float
  | Some geometryComp =>
    let geometryType := geometryType geometryComp in
    let parameters := parameters geometryComp in
    if String.eqb geometryType "box" then
      mkGeometry BoxGeometry
        [ or_number (parameters !! "width") 1;
          or_number (parameters !! "height") 1;
          or_number (parameters !! "depth") 1 ]
    else if String.eqb geometryType "sphere" then
      mkGeometry SphereGeometry
        [ or_number (parameters !! "radius") 0.5;
          or_number (parameters !! "widthSegments") 16;
          or_number (parameters !! "heightSegments") 12 ]
    else if String.eqb geometryType "plane" then
      mkGeometry PlaneGeometry
        [ or_number (parameters !! "width") 1;
          or_number (parameters !! "height") 1 ]
    else if String.eqb geometryType "cylinder" then
      mkGeometry CylinderGeometry
        [ or_number (parameters !! "radiusTop") 0.5;
          or_number (parameters !! "radiusBottom") 0.5;
          or_number (parameters !! "height") 1;
          or_number (parameters !! "radialSegments") 8 ]
    else if String.eqb geometryType "cone" then
      mkGeometry ConeGeometry
        [ or_number (parameters !! "radius") 0.5;
          or_number (parameters !! "height") 1;
          or_number (parameters !! "radialSegments") 8 ]
    else if String.eqb geometryType "torus" then
      mkGeometry TorusGeometry
        [ or_number (parameters !! "radius") 0.4;
          or_number (parameters !! "tube") 0.2;
          or_number (parameters !! "radialSegments") 8;
          or_number (parameters !! "tubularSegments") 6 ]
    else mkGeometry BoxGeometry [1; 1; 1]%float
  end.

(** A colour handed to the library: a CSS string ([new THREE.Color(s)] or a
    string constructor argument), a numeric literal, or the number
    [parseInt(s)] given to [setHex]. *)
Inductive Color :=
| ColorString (s : string)
| ColorHex (n : number)
| ColorParseInt (s : string).

Inductive MaterialClass :=
| MeshStandardMaterial | MeshBasicMaterial
| MeshPhongMaterial | MeshPhysicalMaterial
| MeshLambertMaterial | MeshToonMaterial | MeshMatcapMaterial.

(** The parameter object of a material constructor; a key the object
    literal does not have is [None]. *)
Record MaterialParameters := mkMaterialParameters {
  p_color : option Color;
  p_transparent : option bool;
  p_opacity : option number;
  p_wireframe : option bool;
  p_metalness : option number;
  p_roughness : option number;
  p_emissive : option Color;
  p_emissiveIntensity : option number;
  p_shininess : option number
}.

Record Material := mkMaterial {
  material_class : MaterialClass;
  material_parameters : MaterialParameters
}.

(** [ThreeRenderSystem._createMaterial]: the constructor call it makes. *)
Definition _createMaterial_call
    (materialComp : option ThreeMaterialComponent) : Material :=
  match materialComp with
  | None =>
    mkMaterial MeshStandardMaterial
      (mkMaterialParameters (Some (ColorHex 0x4CAF50%float))
         None None None None None None None None)
  | Some materialComp =>
    let config extra_wireframe m r e ei sh :=
      mkMaterialParameters
        (Some (ColorString (color materialComp)))
        (Some (transparent materialComp))
        (Some (opacity materialComp))
        (Some (default (wireframe materialComp) extra_wireframe))
        m r e ei sh in
    let full :=
      config None
        (Some (metalness materialComp))
        (Some (roughness materialComp))
        (Some (ColorString (emissive materialComp)))
        (Some (emissiveIntensity materialComp))
        None in
    let materialType := materialType materialComp in
    if String.eqb materialType "standard" then
      mkMaterial MeshStandardMaterial full
    else if String.eqb materialType "basic" then
      mkMaterial MeshBasicMaterial (config None None None None None None)
    else if String.eqb materialType "phong" then
      mkMaterial MeshPhongMaterial
        (config None None None None None
           (Some ((1.0 - roughness materialComp) * 100)%float))
    else if String.eqb materialType "physical" then
      mkMaterial MeshPhysicalMaterial full
    else if String.eqb materialType "wireframe" then
      mkMaterial MeshBasicMaterial
        (config (Some true) None None None None None)
    else
      mkMaterial MeshStandardMaterial (config None None None None None None)
  end.

(** How an [Object3D] is oriented: by the Euler angles last given to
    [rotation.set], or by the target last given to [lookAt]. *)
Inductive Orientation :=
| Euler (angles : Vec3)
| LookAt (target : Vec3).

(** [mesh.material] is one material or an array of materials. *)
Inductive MaterialSlot :=
| NoMaterial
| OneMaterial (m : ref)
| MaterialArray (ms : list ref).

Record Mesh := mkMesh {
  mesh_geometry : ref;
  mesh_material : MaterialSlot;
  mesh_position : Vec3;
  mesh_rotation : Orientation;
  mesh_scale : Vec3;
  mesh_castShadow : bool;
  mesh_receiveShadow : bool;
  mesh_userData : option nat
}.

Inductive LightClass :=
| AmbientLight | DirectionalLight | PointLight | SpotLight | HemisphereLight.

(** A light: its constructor call and the properties the system writes.
    Every [Object3D] has a [castShadow] property, [false] when new. *)
Record Light := mkLight {
  light_class : LightClass;
  light_skyColor : Color;
  light_groundColor : option Color;
  light_intensity : number;
  light_castShadow : bool;
  light_position : Vec3
}.

Inductive CameraClass :=
| PerspectiveCamera (fov aspect near far : number)
| OrthographicCamera (left right top bottom near far : number).

Record Camera := mkCamera {
  camera_class : CameraClass;
  camera_position : Vec3;
  camera_rotation : Orientation
}.

Inductive ThreeObject :=
| OGeometry (g : BufferGeometry)
| OMaterial (m : Material)
| OMesh (m : Mesh)
| OLight (l : Light)
| OCamera (c : Camera).

(** ** Entities and the world (the host ECS) *)

(** An entity with the components the system reads;
    [entity.getComponent(T)] is the matching field, [None] for
    [undefined]. *)
Record Entity := mkEntity {
  id : nat;
  active : bool;
  transformComp : option TransformComponent;
  meshComp : option ThreeMeshComponent;
  materialComp : option ThreeMaterialComponent;
  geometryComp : option ThreeGeometryComponent;
  lightComp : option ThreeLightComponent;
  cameraComp : option ThreeCameraComponent
}.

(** [world.entities]; an entity object is referred to by its position. *)
Record World := mkWorld { entities : list Entity }.

(** ** Failures of the wrapped library *)

(** The calls into Three.js made while entities are processed and the
    scene rendered. *)
Inductive Site :=
| NewGeometry | NewMaterial | NewMesh | SceneAdd
| PositionSet | RotationSet | ScaleSet
| Dispose (r : ref)
| NewLight | ColorSetHex | NewCamera
| RendererRender | RendererDispose.

(** [entity_fault i c]: call [c] throws while the entity at position [i]
    is processed.  [render_fault]: [renderer.render] throws. *)
Record Faults := mkFaults {
  entity_fault : nat -> Site -> bool;
  render_fault : bool
}.

Definition no_faults : Faults := mkFaults (fun _ _ => false) false.

Inductive LogEntry :=
| ErrorProcessingMesh (entityId : nat) (error : Site)
| ErrorProcessingLight (entityId : nat) (error : Site)
| ErrorProcessingCamera (entityId : nat) (error : Site)
| ErrorInUpdate (error : Site)
| WarnMissingRenderer
| LogAddedToWorld
| LogRemovedFromWorld.

(** ** State: the system, its world and the library's objects *)

Record State := mkState {
  (** [this.scene.children]: the objects given to [scene.add], in call
      order, since the scene was last cleared *)
  scene : list ref;
  (** [this.camera] *)
  sys_camera : option ref;
  (** [this._options.enableShadows] *)
  enableShadows : bool;
  _isInitialized : bool;
  _frameCount : number;
  (** [this.world], set by the base class when the system is attached *)
  world : option World;
  (** the Three.js objects that exist *)
  objects : gmap ref ThreeObject;
  next_ref : ref;
  (** the objects [dispose()] was called on, in call order *)
  disposed : list ref;
  (** the [renderer.render(scene, camera)] calls *)
  rendered : list (list ref * ref);
  (** [console.error], [console.warn] and [console.log] output *)
  console : list LogEntry
}.

Definition set_scene (f : list ref -> list ref) (s : State) : State :=
  mkState (f (scene s)) (sys_camera s) (enableShadows s) (_isInitialized s)
    (_frameCount s) (world s) (objects s) (next_ref s) (disposed s)
    (rendered s) (console s).

Definition set_sys_camera (c : option ref) (s : State) : State :=
  mkState (scene s) c (enableShadows s) (_isInitialized s)
    (_frameCount s) (world s) (objects s) (next_ref s) (disposed s)
    (rendered s) (console s).

Definition set_isInitialized (b : bool) (s : State) : State :=
  mkState (scene s) (sys_camera s) (enableShadows s) b
    (_frameCount s) (world s) (objects s) (next_ref s) (disposed s)
    (rendered s) (console s).

Definition set_frameCount (n : number) (s : State) : State :=
  mkState (scene s) (sys_camera s) (enableShadows s) (_isInitialized s)
    n (world s) (objects s) (next_ref s) (disposed s)
    (rendered s) (console s).

Definition set_world (w : option World) (s : State) : State :=
  mkState (scene s) (sys_camera s) (enableShadows s) (_isInitialized s)
    (_frameCount s) w (objects s) (next_ref s) (disposed s)
    (rendered s) (console s).

Definition set_objects
    (f : gmap ref ThreeObject -> gmap ref ThreeObject) (s : State) : State :=
  mkState (scene s) (sys_camera s) (enableShadows s) (_isInitialized s)
    (_frameCount s) (world s) (f (objects s)) (next_ref s) (disposed s)
    (rendered s) (console s).

(** A new object gets the next reference. *)
Definition alloc (o : ThreeObject) (s : State) : State :=
  mkState (scene s) (sys_camera s) (enableShadows s) (_isInitialized s)
    (_frameCount s) (world s) (<[next_ref s := o]> (objects s))
    (S (next_ref s)) (disposed s) (rendered s) (console s).

Definition set_disposed (f : list ref -> list ref) (s : State) : State :=
  mkState (scene s) (sys_camera s) (enableShadows s) (_isInitialized s)
    (_frameCount s) (world s) (objects s) (next_ref s) (f (disposed s))
    (rendered s) (console s).

Definition set_rendered
    (f : list (list ref * ref) -> list (list ref * ref)) (s : State) : State :=
  mkState (scene s) (sys_camera s) (enableShadows s) (_isInitialized s)
    (_frameCount s) (world s) (objects s) (next_ref s) (disposed s)
    (f (rendered s)) (console s).

Definition set_console (f : list LogEntry -> list LogEntry) (s : State) : State :=
  mkState (scene s) (sys_camera s) (enableShadows s) (_isInitialized s)
    (_frameCount s) (world s) (objects s) (next_ref s) (disposed s)
    (rendered s) (f (console s)).

(** The entity object at position [i] of [this.world.entities]. *)
Definition lookup_entity (i : nat) (s : State) : option Entity :=
  match world s with
  | Some w => entities w !! i
  | None => None
  end.

(** A write to the entity object at position [i]. *)
Definition modify_entity (i : nat) (f : Entity -> Entity) (s : State) : State :=
  match world s with
  | Some w => set_world (Some (mkWorld (alter f i (entities w)))) s
  | None => s
  end.

(** Writes to component fields. *)
Definition with_mesh (m : option ref) (e : Entity) : Entity :=
  mkEntity (id e) (active e) (transformComp e)
    ((fun c => mkMeshComp m (mesh_needsUpdate c)) <$> meshComp e)
    (materialComp e) (geometryComp e) (lightComp e) (cameraComp e).

Definition with_material_needsUpdate (b : bool) (e : Entity) : Entity :=
  mkEntity (id e) (active e) (transformComp e) (meshComp e)
    ((fun c => mkMaterialComp (materialType c) (color c) (metalness c)
                 (roughness c) (emissive c) (emissiveIntensity c)
                 (transparent c) (opacity c) (wireframe c) (texture c) b)
       <$> materialComp e)
    (geometryComp e) (lightComp e) (cameraComp e).

Definition with_geometry_needsUpdate (b : bool) (e : Entity) : Entity :=
  mkEntity (id e) (active e) (transformComp e) (meshComp e) (materialComp e)
    ((fun c => mkGeometryComp (geometryType c) (parameters c) b)
       <$> geometryComp e)
    (lightComp e) (cameraComp e).

Definition with_light (l : option ref) (e : Entity) : Entity :=
  mkEntity (id e) (active e) (transformComp e) (meshComp e) (materialComp e)
    (geometryComp e)
    ((fun c => mkLightComp (lightType c) (light_color c) (intensity c)
                 (castShadow c) l (light_needsUpdate c)) <$> lightComp e)
    (cameraComp e).

Definition with_light_needsUpdate (b : bool) (e : Entity) : Entity :=
  mkEntity (id e) (active e) (transformComp e) (meshComp e) (materialComp e)
    (geometryComp e)
    ((fun c => mkLightComp (lightType c) (light_color c) (intensity c)
                 (castShadow c) (light c) b) <$> lightComp e)
    (cameraComp e).

Definition with_camera (r : option ref) (e : Entity) : Entity :=
  mkEntity (id e) (active e) (transformComp e) (meshComp e) (materialComp e)
    (geometryComp e) (lightComp e)
    ((fun c => mkCameraComp (cameraType c) (fov c) (aspect c) (near c)
                 (far c) r (camera_needsUpdate c)) <$> cameraComp e).

(** Writes to the properties of library objects; a reference to an object
    of another class is left alone. *)
Definition on_mesh (f : Mesh -> Mesh) (o : ThreeObject) : ThreeObject :=
  match o with OMesh m => OMesh (f m) | _ => o end.

Definition on_light (f : Light -> Light) (o : ThreeObject) : ThreeObject :=
  match o with OLight l => OLight (f l) | _ => o end.

Definition on_camera (f : Camera -> Camera) (o : ThreeObject) : ThreeObject :=
  match o with OCamera c => OCamera (f c) | _ => o end.

Definition as_mesh (o : option ThreeObject) : option Mesh :=
  match o with Some (OMesh m) => Some m | _ => None end.

Definition as_light (o : option ThreeObject) : option Light :=
  match o with Some (OLight l) => Some l | _ => None end.

Definition as_camera (o : option ThreeObject) : option Camera :=
  match o with Some (OCamera c) => Some c | _ => None end.

(** The mesh (light, camera) a reference points to. *)
Definition lookup_mesh (r : ref) (s : State) : option Mesh :=
  as_mesh (objects s !! r).

Definition lookup_light (r : ref) (s : State) : option Light :=
  as_light (objects s !! r).

Definition lookup_camera (r : ref) (s : State) : option Camera :=
  as_camera (objects s !! r).

(** ** Computations that may throw *)

Inductive Completion (A : Type) :=
| Normal (a : A)
| Throw (error : Site).
Arguments Normal {A} a.
Arguments Throw {A} error.

Definition JS (A : Type) : Type := State -> Completion A * State.

Definition ret {A} (a : A) : JS A := fun s => (Normal a, s).

Definition bind {A B} (m : JS A) (f : A -> JS B) : JS B :=
  fun s =>
    match m s with
    | (Normal a, s') => f a s'
    | (Throw e, s') => (Throw e, s')
    end.

Notation "'let*' x := m 'in' k" := (bind m (fun x => k))
  (at level 10, x name, m at level 100, k at level 200).
Notation "m ;; k" := (bind m (fun _ => k))
  (at level 100, k at level 200, right associativity).

Definition throw {A} (e : Site) : JS A := fun s => (Throw e, s).

(** [try { body } catch (error) { handler }] *)
Definition try_catch (body : JS unit) (handler : Site -> JS unit) : JS unit :=
  fun s =>
    match body s with
    | (Normal a, s') => (Normal a, s')
    | (Throw e, s') => handler e s'
    end.

Definition read {A} (f : State -> A) : JS A := fun s => (Normal (f s), s).

Definition write (f : State -> State) : JS unit := fun s => (Normal tt, f s).

(** A call into the library that throws when the oracle says so, before
    it has any effect. *)
Definition three (faulty : Site -> bool) (c : Site) (effect : State -> State)
    : JS unit :=
  fun s => if faulty c then (Throw c, s) else (Normal tt, effect s).

(** [new THREE.<class>(...)] *)
Definition three_new (faulty : Site -> bool) (c : Site) (o : ThreeObject)
    : JS ref :=
  fun s => if faulty c then (Throw c, s) else (Normal (next_ref s), alloc o s).

(** [for (const x of l) body(x)] *)
Fixpoint for_of {A} (l : list A) (body : A -> JS unit) : JS unit :=
  match l with
  | [] => ret tt
  | x :: l' => body x ;; for_of l' body
  end.

(** [world.entities.filter(p)], as positions in [world.entities]. *)
Fixpoint filter_from (p : Entity -> bool) (i : nat) (l : list Entity) : list nat :=
  match l with
  | [] => []
  | e :: l' =>
    if p e then i :: filter_from p (S i) l' else filter_from p (S i) l'
  end.

Definition entities_filter (p : Entity -> bool) (w : World) : list nat :=
  filter_from p 0 (entities w).

(** ** ThreeRenderSystem (src/systems/ThreeRenderSystem.ts) *)

(** [x * Math.PI / 180], evaluated left to right in binary64. *)
Definition degrees_to_radians (x : number) : number :=
  (x * Math_PI / 180)%float.

(** [s.replace('#', '0x')]: the first ['#'] only. *)
Fixpoint replace_hash (s : string) : string :=
  match s with
  | EmptyString => EmptyString
  | String c s' =>
    if Ascii.eqb c "#"%char then String "0" (String "x" s')
    else String c (replace_hash s')
  end.

(** A [new THREE.Mesh(geometry, material)] as the library makes it. *)
Definition Mesh_new (geometry material : ref) : Mesh :=
  {| mesh_geometry := geometry;
     mesh_material := OneMaterial material;
     mesh_position := mkVec3 0 0 0;
     mesh_rotation := Euler (mkVec3 0 0 0);
     mesh_scale := mkVec3 1 1 1;
     mesh_castShadow := false;
     mesh_receiveShadow := false;
     mesh_userData := None |}.

(** A new light; directional, spot and hemisphere lights start at the
    default up vector. *)
Definition Light_new (c : LightClass) (sky : Color) (ground : option Color)
    (intensity : number) : Light :=
  {| light_class := c;
     light_skyColor := sky;
     light_groundColor := ground;
     light_intensity := intensity;
     light_castShadow := false;
     light_position :=
       match c with
       | AmbientLight | PointLight => mkVec3 0 0 0
       | DirectionalLight | SpotLight | HemisphereLight => mkVec3 0 1 0
       end |}.

Definition Camera_new (c : CameraClass) : Camera :=
  {| camera_class := c;
     camera_position := mkVec3 0 0 0;
     camera_rotation := Euler (mkVec3 0 0 0) |}.

Section Entity.

(** The entity being processed, and which library calls throw for it. *)
Variable entity : nat.
Variable faulty : Site -> bool.

Definition getComponent {C} (component : Entity -> option C) : JS (option C) :=
  read (fun s => lookup_entity entity s ≫= component).

Definition _createGeometry
    (geometryComp : option ThreeGeometryComponent) : JS ref :=
  three_new faulty NewGeometry (OGeometry (_createGeometry_call geometryComp)).

Definition _createMaterial
    (materialComp : option ThreeMaterialComponent) : JS ref :=
  three_new faulty NewMaterial (OMaterial (_createMaterial_call materialComp)).

Definition _createMesh (entityId : nat)
    (materialComp : option ThreeMaterialComponent)
    (geometryComp : option ThreeGeometryComponent) : JS unit :=
  let* geometry := _createGeometry geometryComp in
  let* material := _createMaterial materialComp in
  let* m := three_new faulty NewMesh (OMesh (Mesh_new geometry material)) in
  write (modify_entity entity (with_mesh (Some m))) ;;
  write (set_objects (alter (on_mesh (fun o =>
    mkMesh (mesh_geometry o) (mesh_material o) (mesh_position o)
      (mesh_rotation o) (mesh_scale o) true true (Some entityId))) m)) ;;
  three faulty SceneAdd (set_scene (fun children => children ++ [m])).

Definition _updateMeshTransform (m : ref) (transform : TransformComponent)
    : JS unit :=
  three faulty PositionSet (set_objects (alter (on_mesh (fun o =>
    mkMesh (mesh_geometry o) (mesh_material o) (position transform)
      (mesh_rotation o) (mesh_scale o) (mesh_castShadow o)
      (mesh_receiveShadow o) (mesh_userData o))) m)) ;;
  three faulty RotationSet (set_objects (alter (on_mesh (fun o =>
    mkMesh (mesh_geometry o) (mesh_material o) (mesh_position o)
      (Euler (mkVec3 (degrees_to_radians (vx (rotation transform)))
                     (degrees_to_radians (vy (rotation transform)))
                     (degrees_to_radians (vz (rotation transform)))))
      (mesh_scale o) (mesh_castShadow o)
      (mesh_receiveShadow o) (mesh_userData o))) m)) ;;
  three faulty ScaleSet (set_objects (alter (on_mesh (fun o =>
    mkMesh (mesh_geometry o) (mesh_material o) (mesh_position o)
      (mesh_rotation o) (scale transform) (mesh_castShadow o)
      (mesh_receiveShadow o) (mesh_userData o))) m)).

Definition dispose (r : ref) : JS unit :=
  three faulty (Dispose r) (set_disposed (fun d => d ++ [r])).

Definition _updateMeshMaterial (m : ref)
    (materialComp : ThreeMaterialComponent) : JS unit :=
  let* newMaterial := _createMaterial (Some materialComp) in
  let* o := read (lookup_mesh m) in
  match mesh_material <$> o with
  | Some (OneMaterial old) => dispose old
  | Some (MaterialArray olds) => for_of olds dispose
  | Some NoMaterial | None => ret tt
  end ;;
  write (set_objects (alter (on_mesh (fun o =>
    mkMesh (mesh_geometry o) (OneMaterial newMaterial) (mesh_position o)
      (mesh_rotation o) (mesh_scale o) (mesh_castShadow o)
      (mesh_receiveShadow o) (mesh_userData o))) m)).

Definition _updateMeshGeometry (m : ref)
    (geometryComp : ThreeGeometryComponent) : JS unit :=
  let* newGeometry := _createGeometry (Some geometryComp) in
  let* o := read (lookup_mesh m) in
  match mesh_geometry <$> o with
  | Some old => dispose old
  | None => ret tt
  end ;;
  write (set_objects (alter (on_mesh (fun o =>
    mkMesh newGeometry (mesh_material o) (mesh_position o)
      (mesh_rotation o) (mesh_scale o) (mesh_castShadow o)
      (mesh_receiveShadow o) (mesh_userData o))) m)).

(** The [try] block of [_processMeshEntity]. *)
Definition _processMeshEntity_try (transform : TransformComponent)
    (entityId : nat) : JS unit :=
  let* m := getComponent (fun e => meshComp e ≫= mesh) in
  match m with
  | None =>
    let* materialComp := getComponent materialComp in
    let* geometryComp := getComponent geometryComp in
    _createMesh entityId materialComp geometryComp
  | Some _ => ret tt
  end ;;
  let* m := getComponent (fun e => meshComp e ≫= mesh) in
  match m with
  | Some m =>
    _updateMeshTransform m transform ;;
    let* materialComp := getComponent materialComp in
    match materialComp with
    | Some materialComp =>
      if material_needsUpdate materialComp then
        _updateMeshMaterial m materialComp ;;
        write (modify_entity entity (with_material_needsUpdate false))
      else ret tt
    | None => ret tt
    end ;;
    let* geometryComp := getComponent geometryComp in
    match geometryComp with
    | Some geometryComp =>
      if geometry_needsUpdate geometryComp then
        _updateMeshGeometry m geometryComp ;;
        write (modify_entity entity (with_geometry_needsUpdate false))
      else ret tt
    | None => ret tt
    end
  | None => ret tt
  end.

Definition _processMeshEntity : JS unit :=
  let* transform := getComponent transformComp in
  let* meshComp0 := getComponent meshComp in
  let* entityId := read (fun s => id <$> lookup_entity entity s) in
  match entityId with None => ret tt | Some entityId =>
  match transform with None => ret tt | Some transform =>
  match meshComp0 with None => ret tt | Some _ =>
    try_catch (_processMeshEntity_try transform entityId)
      (fun error =>
         write (set_console (fun c => c ++ [ErrorProcessingMesh entityId error])))
  end end end.

(** One [case] of the switch of [_createLight]: the constructor call,
    the assignment to [lightComp.light], and for the classes that cast
    shadows the [castShadow] assignment when shadows are enabled. *)
Definition _createLight_case (c : LightClass) (ground : option Color)
    (castsShadow : bool) (lightComp : ThreeLightComponent) : JS unit :=
  let* l := three_new faulty NewLight
    (OLight (Light_new c (ColorString (light_color lightComp)) ground
               (intensity lightComp))) in
  write (modify_entity entity (with_light (Some l))) ;;
  let* shadows := read enableShadows in
  if castsShadow && shadows then
    write (set_objects (alter (on_light (fun o =>
      mkLight (light_class o) (light_skyColor o) (light_groundColor o)
        (light_intensity o) (castShadow lightComp) (light_position o))) l))
  else ret tt.

Definition _createLight (lightComp0 : ThreeLightComponent) : JS unit :=
  (let lightType := lightType lightComp0 in
   if String.eqb lightType "ambient" then
     _createLight_case AmbientLight None false lightComp0
   else if String.eqb lightType "directional" then
     _createLight_case DirectionalLight None true lightComp0
   else if String.eqb lightType "point" then
     _createLight_case PointLight None true lightComp0
   else if String.eqb lightType "spot" then
     _createLight_case SpotLight None true lightComp0
   else if String.eqb lightType "hemisphere" then
     _createLight_case HemisphereLight (Some (ColorString "#404040")) false
       lightComp0
   else
     _createLight_case DirectionalLight None false lightComp0) ;;
  let* l := getComponent (fun e => lightComp e ≫= light) in
  match l with
  | Some l => three faulty SceneAdd (set_scene (fun children => children ++ [l]))
  | None => ret tt
  end.

Definition _updateLightTransform (l : ref) (transform : TransformComponent)
    : JS unit :=
  three faulty PositionSet (set_objects (alter (on_light (fun o =>
    mkLight (light_class o) (light_skyColor o) (light_groundColor o)
      (light_intensity o) (light_castShadow o) (position transform))) l)).

Definition _updateLightProperties (lightComp : ThreeLightComponent) : JS unit :=
  match light lightComp with
  | None => ret tt
  | Some l =>
    three faulty ColorSetHex (set_objects (alter (on_light (fun o =>
      mkLight (light_class o)
        (ColorParseInt (replace_hash (light_color lightComp)))
        (light_groundColor o) (light_intensity o) (light_castShadow o)
        (light_position o))) l)) ;;
    write (set_objects (alter (on_light (fun o =>
      mkLight (light_class o) (light_skyColor o) (light_groundColor o)
        (intensity lightComp) (castShadow lightComp) (light_position o))) l))
  end.

(** The [try] block of [_processLightEntity]. *)
Definition _processLightEntity_try (transform : TransformComponent)
    (lightComp0 : ThreeLightComponent) : JS unit :=
  match light lightComp0 with
  | None => _createLight lightComp0
  | Some _ => ret tt
  end ;;
  let* lightComp1 := getComponent lightComp in
  match lightComp1 with
  | Some lightComp1 =>
    match light lightComp1 with
    | Some l =>
      _updateLightTransform l transform ;;
      if light_needsUpdate lightComp1 then
        _updateLightProperties lightComp1 ;;
        write (modify_entity entity (with_light_needsUpdate false))
      else ret tt
    | None => ret tt
    end
  | None => ret tt
  end.

Definition _processLightEntity : JS unit :=
  let* transform := getComponent transformComp in
  let* lightComp0 := getComponent lightComp in
  let* entityId := read (fun s => id <$> lookup_entity entity s) in
  match entityId with None => ret tt | Some entityId =>
  match transform with None => ret tt | Some transform =>
  match lightComp0 with None => ret tt | Some lightComp0 =>
    try_catch (_processLightEntity_try transform lightComp0)
      (fun error =>
         write (set_console (fun c => c ++ [ErrorProcessingLight entityId error])))
  end end end.

Definition _createCamera (cameraComp : ThreeCameraComponent) : JS unit :=
  let* c := three_new faulty NewCamera (OCamera (Camera_new
    (if String.eqb (cameraType cameraComp) "perspective" then
       PerspectiveCamera (fov cameraComp) (aspect cameraComp)
         (near cameraComp) (far cameraComp)
     else
       let size := 10%float in
       OrthographicCamera (- size * aspect cameraComp)%float
         (size * aspect cameraComp)%float size (- size)%float
         (near cameraComp) (far cameraComp)))) in
  write (modify_entity entity (with_camera (Some c))).

Definition _updateCameraTransform (c : ref) (transform : TransformComponent)
    : JS unit :=
  three faulty PositionSet (set_objects (alter (on_camera (fun o =>
    mkCamera (camera_class o) (position transform) (camera_rotation o))) c)) ;;
  three faulty RotationSet (set_objects (alter (on_camera (fun o =>
    mkCamera (camera_class o) (camera_position o)
      (Euler (mkVec3 (degrees_to_radians (vx (rotation transform)))
                     (degrees_to_radians (vy (rotation transform)))
                     (degrees_to_radians (vz (rotation transform))))))) c)).

(** The [try] block of [_processCameraEntity]. *)
Definition _processCameraEntity_try (transform : TransformComponent)
    (cameraComp0 : ThreeCameraComponent) : JS unit :=
  match camera cameraComp0 with
  | None => _createCamera cameraComp0
  | Some _ => ret tt
  end ;;
  let* c := getComponent (fun e => cameraComp e ≫= camera) in
  match c with
  | Some c =>
    _updateCameraTransform c transform ;;
    write (set_sys_camera (Some c))
  | None => ret tt
  end.

Definition _processCameraEntity : JS unit :=
  let* transform := getComponent transformComp in
  let* cameraComp0 := getComponent cameraComp in
  let* entityId := read (fun s => id <$> lookup_entity entity s) in
  match entityId with None => ret tt | Some entityId =>
  match transform with None => ret tt | Some transform =>
  match cameraComp0 with None => ret tt | Some cameraComp0 =>
    try_catch (_processCameraEntity_try transform cameraComp0)
      (fun error =>
         write (set_console (fun c => c ++ [ErrorProcessingCamera entityId error])))
  end end end.

End Entity.

(** [entity.hasComponent(T)] *)
Definition hasComponent {C} (component : option C) : bool :=
  match component with Some _ => true | None => false end.

Definition is_mesh_entity (e : Entity) : bool :=
  active e && hasComponent (transformComp e) && hasComponent (meshComp e).

Definition is_light_entity (e : Entity) : bool :=
  active e && hasComponent (transformComp e) && hasComponent (lightComp e).

Definition is_camera_entity (e : Entity) : bool :=
  active e && hasComponent (transformComp e) && hasComponent (cameraComp e).

Section Frame.

(** The failures of one frame. *)
Variable F : Faults.

Definition _processMeshEntities : JS unit :=
  let* w := read world in
  match w with
  | None => ret tt
  | Some w =>
    let meshEntities := entities_filter is_mesh_entity w in
    for_of meshEntities (fun entity =>
      _processMeshEntity entity (entity_fault F entity))
  end.

Definition _processLightEntities : JS unit :=
  let* w := read world in
  match w with
  | None => ret tt
  | Some w =>
    let lightEntities := entities_filter is_light_entity w in
    for_of lightEntities (fun entity =>
      _processLightEntity entity (entity_fault F entity))
  end.

Definition _processCameraEntities : JS unit :=
  let* w := read world in
  match w with
  | None => ret tt
  | Some w =>
    let cameraEntities := entities_filter is_camera_entity w in
    match cameraEntities with
    | entity :: _ => _processCameraEntity entity (entity_fault F entity)
    | [] => ret tt
    end
  end.

(** The renderer and the scene always exist; the camera is checked. *)
Definition _render : JS unit :=
  let* c := read sys_camera in
  match c with
  | None => write (set_console (fun c => c ++ [WarnMissingRenderer]))
  | Some c =>
    let* children := read scene in
    three (fun _ => render_fault F) RendererRender
      (set_rendered (fun r => r ++ [(children, c)]))
  end.

Definition update : JS unit :=
  let* initialized := read _isInitialized in
  let* w := read world in
  if negb initialized || negb (hasComponent w) then ret tt
  else
    try_catch
      (write (fun s => set_frameCount (_frameCount s + 1)%float s) ;;
       _processMeshEntities ;;
       _processLightEntities ;;
       _processCameraEntities ;;
       _render)
      (fun error =>
         write (set_console (fun c => c ++ [ErrorInUpdate error])) ;;
         throw error).

End Frame.

(** The state after [new ThreeRenderSystem(options)], in a page with no
    other Three.js object: an empty scene and the default camera.  The
    renderer's settings are not part of the model. *)
Definition ThreeRenderSystem_new (enableShadows : option bool) : State :=
  {| scene := [];
     sys_camera := Some 0;
     enableShadows := default true enableShadows;
     _isInitialized := false;
     _frameCount := 0;
     world := None;
     objects :=
       {[ 0 := OCamera
            {| camera_class := PerspectiveCamera 75 (800 / 600) 0.1 1000;
               camera_position := mkVec3 5 5 5;
               camera_rotation := LookAt (mkVec3 0 0 0) |} ]};
     next_ref := 1;
     disposed := [];
     rendered := [];
     console := [] |}.

Definition onAddedToWorld (w : World) : JS unit :=
  write (set_world (Some w)) ;;
  write (set_isInitialized true) ;;
  write (set_console (fun c => c ++ [LogAddedToWorld])).

(** [_cleanup]: every mesh of the scene has its geometry and materials
    disposed of, then the scene is emptied and the renderer disposed of.
    The renderer's own state is not part of the model; its [dispose] is a
    library call like the others and may throw. *)
Definition _cleanup (faulty : Site -> bool) : JS unit :=
  let* children := read scene in
  for_of children (fun r =>
    let* o := read (lookup_mesh r) in
    match o with
    | Some o =>
      dispose faulty (mesh_geometry o) ;;
      match mesh_material o with
      | OneMaterial m => dispose faulty m
      | MaterialArray ms => for_of ms (dispose faulty)
      | NoMaterial => ret tt
      end
    | None => ret tt
    end) ;;
  write (set_scene (fun _ => [])) ;;
  three faulty RendererDispose (fun s => s).

Definition onRemovedFromWorld (faulty : Site -> bool) : JS unit :=
  _cleanup faulty ;;
  write (set_isInitialized false) ;;
  write (set_world None) ;;
  write (set_console (fun c => c ++ [LogRemovedFromWorld])).

(** The public [render()] and [dispose()]. *)
Definition render (F : Faults) : JS unit := _render F.

Definition ThreeRenderSystem_dispose (faulty : Site -> bool) : JS unit :=
  _cleanup faulty.

(** [getStatistics]: the frame counter and the numbers of meshes and of
    lights met by [scene.traverse]. *)
Record Statistics := mkStatistics {
  frameCount : number;
  meshCount : nat;
  lightCount : nat
}.

Definition getStatistics (s : State) : Statistics :=
  {| frameCount := _frameCount s;
     meshCount :=
       length (filter (fun r => is_Some (lookup_mesh r s)) (scene s));
     lightCount :=
       length (filter (fun r => is_Some (lookup_light r s)) (scene s)) |}.

(** [ThreeMeshComponent.dispose], called on the mesh component of the
    entity at position [entity]: the geometry and the materials of its
    mesh are disposed of and the reference is set to [null]. *)
Definition ThreeMeshComponent_dispose (entity : nat) (faulty : Site -> bool)
    : JS unit :=
  let* m := getComponent entity (fun e => meshComp e ≫= mesh) in
  match m with
  | Some m =>
    let* o := read (lookup_mesh m) in
    match o with
    | Some o =>
      dispose faulty (mesh_geometry o) ;;
      match mesh_material o with
      | OneMaterial r => dispose faulty r
      | MaterialArray rs => for_of rs (dispose faulty)
      | NoMaterial => ret tt
      end
    | None => ret tt
    end ;;
    write (modify_entity entity (with_mesh None))
  | None => ret tt
  end.

(** [n] frames driven by the host, with the failures of each; a frame
    whose [update] throws leaves the state it reached. *)
Fixpoint frames (Fs : list Faults) (s : State) : State :=
  match Fs with
  | [] => s
  | F :: Fs' => frames Fs' (update F s).2
  end.

(** ** The declared members of the component classes *)

Inductive ComponentName :=
| Transform | ThreeMesh | ThreeMaterial | ThreeGeometry | ThreeLight | ThreeCamera.

Inductive MemberType :=
| TNumber | TString | TBoolean | TVec3
| TOptionalString            (* [texture?: string] *)
| TNumberRecord              (* [Record<string, number>] *)
| TThreeObject               (* [THREE.Mesh | null] and the like *)
| TMethod.

(** The members each class declares besides its constructor, in source
    order. *)
Definition members (c : ComponentName) : list (string * MemberType) :=
  match c with
  | Transform =>
    [("position", TVec3); ("rotation", TVec3); ("scale", TVec3)]
  | ThreeMesh =>
    [("mesh", TThreeObject); ("needsUpdate", TBoolean); ("dispose", TMethod)]
  | ThreeMaterial =>
    [("materialType", TString); ("color", TString); ("metalness", TNumber);
     ("roughness", TNumber); ("emissive", TString);
     ("emissiveIntensity", TNumber); ("transparent", TBoolean);
     ("opacity", TNumber); ("wireframe", TBoolean);
     ("texture", TOptionalString); ("needsUpdate", TBoolean)]
  | ThreeGeometry =>
    [("geometryType", TString); ("parameters", TNumberRecord);
     ("needsUpdate", TBoolean)]
  | ThreeLight =>
    [("lightType", TString); ("color", TString); ("intensity", TNumber);
     ("castShadow", TBoolean); ("light", TThreeObject);
     ("needsUpdate", TBoolean)]
  | ThreeCamera =>
    [("cameraType", TString); ("fov", TNumber); ("aspect", TNumber);
     ("near", TNumber); ("far", TNumber); ("camera", TThreeObject);
     ("needsUpdate", TBoolean)]
  end.

Definition member_eqb (a b : string * MemberType) : bool :=
  String.eqb a.1 b.1 &&
  match a.2, b.2 with
  | TNumber, TNumber | TString, TString | TBoolean, TBoolean
  | TVec3, TVec3 | TOptionalString, TOptionalString
  | TNumberRecord, TNumberRecord | TThreeObject, TThreeObject
  | TMethod, TMethod => true
  | _, _ => false
  end.

(** The class has a boolean field [needsUpdate]. *)
Definition has_dirty_flag (c : ComponentName) : bool :=
  existsb (member_eqb ("needsUpdate", TBoolean)) (members c).

(** The class declares fields only. *)
Definition only_data_fields (c : ComponentName) : bool :=
  forallb (fun m => negb (member_eqb (m.1, TMethod) m)) (members c).

(** ** The specification's reading of a constructor argument *)

(** "Called with the configuration's parameters, substituting the
    documented per-parameter default for every absent parameter". *)
Definition spec_argument (parameters : gmap string number) (name : string)
    (d : number) : number :=
  match parameters !! name with
  | Some v => v
  | None => d
  end.

(** What [_createGeometry_call] does with one parameter: absent or falsy
    gives the default, any other value is passed on. *)
Definition passes (parameters : gmap string number) (name : string)
    (d : number) (a : number) : Prop :=
  match parameters !! name with
  | None => a = d
  | Some v => (truthy v = true -> a = v) /\ (truthy v = false -> a = d)
  end.

(** ** Relations between the states before and after processing *)

Definition mesh_of (e : Entity) : option ref := meshComp e ≫= mesh.
Definition light_of (e : Entity) : option ref := lightComp e ≫= light.
Definition camera_of (e : Entity) : option ref := cameraComp e ≫= camera.

(** A reference that was set is still the same reference. *)
Definition keeps (before after : option ref) : Prop :=
  match before with
  | Some r => after = Some r
  | None => True
  end.

(** What processing may do to an entity: its identity, activity,
    transform and set of components stay, and no object reference that
    was set is replaced. *)
Record entity_evolves (e e' : Entity) : Prop := {
  ev_id : id e' = id e;
  ev_active : active e' = active e;
  ev_transform : transformComp e' = transformComp e;
  ev_has_mesh : hasComponent (meshComp e') = hasComponent (meshComp e);
  ev_has_material : hasComponent (materialComp e') = hasComponent (materialComp e);
  ev_has_geometry : hasComponent (geometryComp e') = hasComponent (geometryComp e);
  ev_has_light : hasComponent (lightComp e') = hasComponent (lightComp e);
  ev_has_camera : hasComponent (cameraComp e') = hasComponent (cameraComp e);
  ev_mesh : keeps (mesh_of e) (mesh_of e');
  ev_light : keeps (light_of e) (light_of e');
  ev_camera : keeps (camera_of e) (camera_of e')
}.

(** Two slots of the object store hold objects of one class, or both
    hold nothing. *)
Definition same_class (o o' : option ThreeObject) : Prop :=
  match o, o' with
  | None, None => True
  | Some (OGeometry _), Some (OGeometry _)
  | Some (OMaterial _), Some (OMaterial _)
  | Some (OMesh _), Some (OMesh _)
  | Some (OLight _), Some (OLight _)
  | Some (OCamera _), Some (OCamera _) => True
  | _, _ => False
  end.

(** The entity [e'] that owns a created object, [e] being the same
    entity before: the matching reference was unset and now is [r]. *)
Definition owns (e e' : Entity) (r : ref) (o : ThreeObject) : Prop :=
  match o with
  | OMesh _ => mesh_of e = None /\ mesh_of e' = Some r
  | OLight _ => light_of e = None /\ light_of e' = Some r
  | OCamera _ => camera_of e = None /\ camera_of e' = Some r
  | OGeometry _ | OMaterial _ => True
  end.

(** From [s] to [s'] entities evolved, objects kept their class, every
    object created in between is owned by an entity whose reference was
    unset, and the scene and the console only grew; the scene grew by
    objects created in between, each added once. *)
Record evolves (s s' : State) : Prop := {
  evolves_entities : forall j e, lookup_entity j s = Some e ->
    exists e', lookup_entity j s' = Some e' /\ entity_evolves e e';
  evolves_entities_back : forall j e', lookup_entity j s' = Some e' ->
    exists e, lookup_entity j s = Some e;
  evolves_next_ref : next_ref s <= next_ref s';
  evolves_objects : forall r, r < next_ref s ->
    same_class (objects s !! r) (objects s' !! r);
  evolves_created : forall r o, next_ref s <= r < next_ref s' ->
    objects s' !! r = Some o ->
    exists j e e', lookup_entity j s = Some e /\
      lookup_entity j s' = Some e' /\ owns e e' r o;
  evolves_scene : exists added, scene s' = scene s ++ added /\
    NoDup added /\ Forall (fun r => next_ref s <= r < next_ref s') added;
  evolves_console : exists log, console s' = console s ++ log;
  evolves_disposed : exists more, disposed s' = disposed s ++ more;
  evolves_enableShadows : enableShadows s' = enableShadows s;
  evolves_isInitialized : _isInitialized s' = _isInitialized s;
  evolves_world : hasComponent (world s') = hasComponent (world s)
}.

(** Every object of the scene exists and is in the scene once. *)
Definition scene_ok (s : State) : Prop :=
  NoDup (scene s) /\ Forall (fun r => r < next_ref s) (scene s).

(** The entity at position [i] was processed: it has its object, or a
    failure of one of its library calls was logged under its id during
    the frame. *)
Definition processed (entry : nat -> Site -> LogEntry)
    (object : Entity -> option ref) (faulty : Site -> bool) (i : nat)
    (s s' : State) : Prop :=
  exists e', lookup_entity i s' = Some e' /\
    (is_Some (object e') \/
     exists error, faulty error = true /\
       entry (id e') error ∈ drop (length (console s)) (console s')).

Definition mesh_processed := processed ErrorProcessingMesh mesh_of.
Definition light_processed := processed ErrorProcessingLight light_of.
Definition camera_processed := processed ErrorProcessingCamera camera_of.

(** A part of every entity is as it was. *)
Definition kept {X} (part : Entity -> X) (s s' : State) : Prop :=
  forall j e, lookup_entity j s = Some e ->
    exists e', lookup_entity j s' = Some e' /\ part e' = part e.

(** The first entity of [world.entities] that satisfies [p]. *)
Definition first_entity (p : Entity -> bool) (s : State) : option nat :=
  match world s with
  | Some w => head (entities_filter p w)
  | None => None
  end.

(** Objects below [n] kept their class from store [O] to store [O']. *)
Definition store_le (n : nat) (O O' : gmap ref ThreeObject) : Prop :=
  forall r, r < n -> same_class (O !! r) (O' !! r).

(** Every object of [O'] with a reference in [n, n') satisfies [P]. *)
Definition created (n n' : nat) (P : ref -> ThreeObject -> Prop)
    (O' : gmap ref ThreeObject) : Prop :=
  forall r o, n <= r < n' -> O' !! r = Some o -> P r o.

(** The outcome and final state of a computation satisfy [Q].  The
    definition is sealed: proofs use its rules, never its unfolding. *)
Definition post_def {A} (m : JS A) (s : State)
    (Q : Completion A -> State -> Prop) : Prop :=
  Q (m s).1 (m s).2.
Definition post_aux : seal (@post_def).
Proof. by eexists. Qed.
Definition post {A} := post_aux.(unseal) A.

(** What processing the entity at position [i] (which was [e], and is
    [e'] afterwards) does to the state; [entry] is the log entry of the
    entity's [catch] block. *)
Record step_facts (faulty : Site -> bool) (entry : Site -> LogEntry)
    (i : nat) (e : Entity) (s : State) (e' : Entity) (s' : State) : Prop := {
  sf_lookup : lookup_entity i s' = Some e';
  sf_entity : entity_evolves e e';
  sf_others : forall j, i <> j -> lookup_entity j s' = lookup_entity j s;
  sf_next_ref : next_ref s <= next_ref s';
  sf_objects : store_le (next_ref s) (objects s) (objects s');
  sf_created : created (next_ref s) (next_ref s') (owns e e') (objects s');
  sf_scene : scene s' = scene s \/
    exists r, scene s' = scene s ++ [r] /\ next_ref s <= r < next_ref s';
  sf_console : console s' = console s \/
    exists error, faulty error = true /\ console s' = console s ++ [entry error];
  sf_disposed : exists more, disposed s' = disposed s ++ more;
  sf_enableShadows : enableShadows s' = enableShadows s;
  sf_isInitialized : _isInitialized s' = _isInitialized s;
  sf_frameCount : _frameCount s' = _frameCount s;
  sf_rendered : rendered s' = rendered s;
  sf_world : hasComponent (world s') = hasComponent (world s)
}.

(** The entity [e'] has its object, or a failure was logged. *)
Definition object_or_logged (faulty : Site -> bool) (entry : Site -> LogEntry)
    (object : option ref) (s s' : State) : Prop :=
  is_Some object \/
  exists error, faulty error = true /\ console s' = console s ++ [entry error].

(** Objects that existed and are not [own] are as they were. *)
Definition others_kept {O} (lookup : ref -> State -> option O)
    (own : option ref) (s s' : State) : Prop :=
  forall r, r < next_ref s -> own <> Some r -> lookup r s' = lookup r s.

(** Processing a mesh entity. *)
Record mesh_step (faulty : Site -> bool) (i : nat) (e : Entity) (s : State)
    (e' : Entity) (s' : State) : Prop := {
  ms_facts : step_facts faulty (ErrorProcessingMesh (id e)) i e s e' s';
  ms_sys_camera : sys_camera s' = sys_camera s;
  ms_processed : is_mesh_entity e = true ->
    object_or_logged faulty (ErrorProcessingMesh (id e)) (mesh_of e') s s';
  ms_meshes : others_kept lookup_mesh (mesh_of e) s s';
  ms_lights : others_kept lookup_light None s s';
  ms_cameras : others_kept lookup_camera None s s';
  ms_lightComp : lightComp e' = lightComp e;
  ms_cameraComp : cameraComp e' = cameraComp e
}.

Definition mesh_step_post (faulty : Site -> bool) (i : nat) (e : Entity)
    (s : State) (c : Completion unit) (s' : State) : Prop :=
  c = Normal tt /\ exists e', mesh_step faulty i e s e' s'.

(** Processing a light entity. *)
Record light_step (faulty : Site -> bool) (i : nat) (e : Entity) (s : State)
    (e' : Entity) (s' : State) : Prop := {
  ls_facts : step_facts faulty (ErrorProcessingLight (id e)) i e s e' s';
  ls_sys_camera : sys_camera s' = sys_camera s;
  ls_processed : is_light_entity e = true ->
    object_or_logged faulty (ErrorProcessingLight (id e)) (light_of e') s s';
  ls_meshes : others_kept lookup_mesh None s s';
  ls_lights : others_kept lookup_light (light_of e) s s';
  ls_cameras : others_kept lookup_camera None s s';
  ls_meshComp : meshComp e' = meshComp e;
  ls_materialComp : materialComp e' = materialComp e;
  ls_geometryComp : geometryComp e' = geometryComp e;
  ls_cameraComp : cameraComp e' = cameraComp e
}.

Definition light_step_post (faulty : Site -> bool) (i : nat) (e : Entity)
    (s : State) (c : Completion unit) (s' : State) : Prop :=
  c = Normal tt /\ exists e', light_step faulty i e s e' s'.

(** Processing a camera entity. *)
Record camera_step (faulty : Site -> bool) (i : nat) (e : Entity) (s : State)
    (e' : Entity) (s' : State) : Prop := {
  cs_facts : step_facts faulty (ErrorProcessingCamera (id e)) i e s e' s';
  cs_sys_camera :
    sys_camera s' = sys_camera s /\
      (is_camera_entity e = true -> exists error, faulty error = true) \/
    is_Some (camera_of e') /\ sys_camera s' = camera_of e';
  cs_processed : is_camera_entity e = true ->
    object_or_logged faulty (ErrorProcessingCamera (id e)) (camera_of e') s s';
  cs_meshes : others_kept lookup_mesh None s s';
  cs_lights : others_kept lookup_light None s s';
  cs_cameras : others_kept lookup_camera (camera_of e) s s';
  cs_meshComp : meshComp e' = meshComp e;
  cs_materialComp : materialComp e' = materialComp e;
  cs_geometryComp : geometryComp e' = geometryComp e;
  cs_lightComp : lightComp e' = lightComp e
}.

Definition camera_step_post (faulty : Site -> bool) (i : nat) (e : Entity)
    (s : State) (c : Completion unit) (s' : State) : Prop :=
  c = Normal tt /\ exists e', camera_step faulty i e s e' s'.

(** The objects of one class that no entity of the pass [L] refers to
    through [own] are as they were. *)
Definition unowned_kept {O} (lookup : ref -> State -> option O)
    (own : Entity -> option ref) (L : list nat) (s s' : State) : Prop :=
  forall r, r < next_ref s ->
    (forall j e, j ∈ L -> lookup_entity j s = Some e -> own e <> Some r) ->
    lookup r s' = lookup r s.

(** What a pass over the entities [L] does: every entity of [L] was
    processed, in the sense of [processed], and every other entity is as
    it was. *)
Record pass_facts (entry : nat -> Site -> LogEntry)
    (object : Entity -> option ref)
    (own_mesh own_light own_camera : Entity -> option ref)
    (T : State -> State -> Prop) (F : Faults) (L : list nat)
    (s s' : State) : Prop := {
  pf_evolves : evolves s s';
  pf_T : T s s';
  pf_others : forall j, j ∉ L -> lookup_entity j s' = lookup_entity j s;
  pf_processed : forall i, i ∈ L ->
    processed entry object (entity_fault F i) i s s';
  pf_meshes : unowned_kept lookup_mesh own_mesh L s s';
  pf_lights : unowned_kept lookup_light own_light L s s';
  pf_cameras : unowned_kept lookup_camera own_camera L s s';
  pf_sys_camera : sys_camera s' = sys_camera s;
  pf_frameCount : _frameCount s' = _frameCount s;
  pf_rendered : rendered s' = rendered s
}.

(** No other component of an entity changes in the mesh pass. *)
Definition mesh_pass_kept (s s' : State) : Prop :=
  kept lightComp s s' /\ kept cameraComp s s'.

Definition light_pass_kept (s s' : State) : Prop :=
  kept meshComp s s' /\ kept materialComp s s' /\ kept geometryComp s s' /\
  kept cameraComp s s'.

Definition camera_pass_kept (s s' : State) : Prop :=
  kept meshComp s s' /\ kept materialComp s s' /\ kept geometryComp s s' /\
  kept lightComp s s'.

Definition mesh_pass_facts :=
  pass_facts ErrorProcessingMesh mesh_of mesh_of (fun _ => None) (fun _ => None)
    mesh_pass_kept.

Definition light_pass_facts :=
  pass_facts ErrorProcessingLight light_of (fun _ => None) light_of (fun _ => None)
    light_pass_kept.

(** What the camera pass does: only the first camera entity is
    processed. *)
Record camera_pass_facts (F : Faults) (s s' : State) : Prop := {
  cp_evolves : evolves s s';
  cp_kept : camera_pass_kept s s';
  cp_others : forall j, first_entity is_camera_entity s <> Some j ->
    lookup_entity j s' = lookup_entity j s;
  cp_processed : forall i, first_entity is_camera_entity s = Some i ->
    camera_processed (entity_fault F i) i s s';
  cp_sys_camera :
    sys_camera s' = sys_camera s /\
      (forall i, first_entity is_camera_entity s = Some i ->
         exists error, entity_fault F i error = true) \/
    exists i e', first_entity is_camera_entity s = Some i /\
      lookup_entity i s' = Some e' /\ is_Some (camera_of e') /\
      sys_camera s' = camera_of e';
  cp_meshes : forall r, r < next_ref s -> lookup_mesh r s' = lookup_mesh r s;
  cp_lights : forall r, r < next_ref s -> lookup_light r s' = lookup_light r s;
  cp_cameras : forall r, r < next_ref s ->
    (forall i e, first_entity is_camera_entity s = Some i ->
       lookup_entity i s = Some e -> camera_of e <> Some r) ->
    lookup_camera r s' = lookup_camera r s;
  cp_frameCount : _frameCount s' = _frameCount s;
  cp_rendered : rendered s' = rendered s
}.

(** What one frame does when the system is initialised and attached. *)
Record update_facts (F : Faults) (s : State) (c : Completion unit)
    (s' : State) : Prop := {
  uf_completion : c = Normal tt \/
    c = Throw RendererRender /\ render_fault F = true;
  uf_evolves : evolves s s';
  uf_mesh : forall i e, lookup_entity i s = Some e -> is_mesh_entity e = true ->
    mesh_processed (entity_fault F i) i s s';
  uf_light : forall i e, lookup_entity i s = Some e -> is_light_entity e = true ->
    light_processed (entity_fault F i) i s s';
  uf_camera : forall i, first_entity is_camera_entity s = Some i ->
    camera_processed (entity_fault F i) i s s';
  uf_others : forall j e, lookup_entity j s = Some e ->
    is_mesh_entity e = false -> is_light_entity e = false ->
    first_entity is_camera_entity s <> Some j ->
    lookup_entity j s' = Some e;
  uf_cameraComp : forall j e, lookup_entity j s = Some e ->
    first_entity is_camera_entity s <> Some j ->
    exists e', lookup_entity j s' = Some e' /\ cameraComp e' = cameraComp e;
  uf_meshComp : forall j e, lookup_entity j s = Some e ->
    is_mesh_entity e = false ->
    exists e', lookup_entity j s' = Some e' /\ meshComp e' = meshComp e /\
      materialComp e' = materialComp e /\ geometryComp e' = geometryComp e;
  uf_lightComp : forall j e, lookup_entity j s = Some e ->
    is_light_entity e = false ->
    exists e', lookup_entity j s' = Some e' /\ lightComp e' = lightComp e;
  uf_sys_camera :
    sys_camera s' = sys_camera s /\
      (forall i, first_entity is_camera_entity s = Some i ->
         exists error, entity_fault F i error = true) \/
    exists i e', first_entity is_camera_entity s = Some i /\
      lookup_entity i s' = Some e' /\ is_Some (camera_of e') /\
      sys_camera s' = camera_of e';
  uf_meshes : forall r, r < next_ref s ->
    (forall j e, lookup_entity j s = Some e -> is_mesh_entity e = true ->
       mesh_of e <> Some r) ->
    lookup_mesh r s' = lookup_mesh r s;
  uf_lights : forall r, r < next_ref s ->
    (forall j e, lookup_entity j s = Some e -> is_light_entity e = true ->
       light_of e <> Some r) ->
    lookup_light r s' = lookup_light r s;
  uf_cameras : forall r, r < next_ref s ->
    (forall i e, first_entity is_camera_entity s = Some i ->
       lookup_entity i s = Some e -> camera_of e <> Some r) ->
    lookup_camera r s' = lookup_camera r s
}.

(** Rendering changes no entity and no object. *)
Record render_facts (F : Faults) (s : State) (c : Completion unit)
    (s' : State) : Prop := {
  rf_completion : c = Normal tt \/
    c = Throw RendererRender /\ render_fault F = true /\ s' = s;
  rf_evolves : evolves s s';
  rf_entities : forall j, lookup_entity j s' = lookup_entity j s;
  rf_sys_camera : sys_camera s' = sys_camera s;
  rf_objects : objects s' = objects s;
  rf_rendered : forall cam, c = Normal tt -> sys_camera s = Some cam ->
    rendered s' = rendered s ++ [(scene s, cam)];
  rf_warned : sys_camera s = None ->
    c = Normal tt /\ rendered s' = rendered s /\
    console s' = console s ++ [WarnMissingRenderer];
  rf_console : is_Some (sys_camera s) -> console s' = console s;
  rf_no_fault : c = Normal tt -> is_Some (sys_camera s) ->
    render_fault F = false;
  rf_scene : scene s' = scene s;
  rf_frameCount : _frameCount s' = _frameCount s
}.

(** ** Vocabulary of the statements *)

(** The Euler angles, in radians, of a rotation given in degrees. *)
Definition radians (v : Vec3) : Vec3 :=
  mkVec3 (degrees_to_radians (vx v)) (degrees_to_radians (vy v))
    (degrees_to_radians (vz v)).





(** The materials of [mesh.material], in the order in which
    [_updateMeshMaterial] disposes of them. *)
Definition materials_of (m : MaterialSlot) : list ref :=
  match m with
  | NoMaterial => []
  | OneMaterial r => [r]
  | MaterialArray rs => rs
  end.






(** ** Sample worlds *)

Definition cube : Entity :=
  mkEntity 7 true
    (Some (mkTransform (mkVec3 1 2 3) (mkVec3 90 0 180) (mkVec3 2 2 2)))
    (Some (ThreeMeshComponent_new None))
    (Some (ThreeMaterialComponent_new MaterialConfig_empty))
    (Some (ThreeGeometryComponent_new None None))
    None None.

Definition lamp : Entity :=
  mkEntity 8 true
    (Some (TransformComponent_new (Some (mkVec3 0 10 0)) None None))
    None None None
    (Some (ThreeLightComponent_new LightConfig_empty))
    None.

Definition main_camera : Entity :=
  mkEntity 9 true
    (Some (TransformComponent_new (Some (mkVec3 0 0 5)) None None))
    None None None None
    (Some (ThreeCameraComponent_new CameraConfig_empty)).

Definition spare_camera : Entity :=
  mkEntity 10 true
    (Some (TransformComponent_new (Some (mkVec3 9 9 9)) None None))
    None None None None
    (Some (ThreeCameraComponent_new CameraConfig_empty)).

Definition sample_world : World :=
  mkWorld [cube; lamp; main_camera; spare_camera].

(** A new system attached to the sample world. *)
Definition sample : State :=
  (onAddedToWorld sample_world (ThreeRenderSystem_new None)).2.

(** The sample after one frame, the cube's material then marked dirty. *)
Definition repainted : State :=
  modify_entity 0 (with_material_needsUpdate true) (update no_faults sample).2.

(** The sample after one frame, the lamp's light then marked dirty. *)
Definition relit : State :=
  modify_entity 1 (with_light_needsUpdate true) (update no_faults sample).2.

(** Disposing of the object 2, the cube's first material, throws. *)
Definition sticky_material (c : Site) : bool :=
  match c with
  | Dispose 2 => true
  | _ => false
  end.

(** [new THREE.Mesh] throws for the entity at position 0. *)
Definition broken_cube : Faults :=
  mkFaults
    (fun i c =>
       Nat.eqb i 0 && match c with NewMesh => true | _ => false end)
    false.

(** A box geometry component whose [width] parameter is [0]. *)
Definition flat_box : ThreeGeometryComponent :=
  mkGeometryComp "box" {[ "width" := 0%float ]} false.

(** The types with a [case] in the switch of [_createGeometry]. *)
Definition six_types : list string :=
  ["box"; "sphere"; "plane"; "cylinder"; "cone"; "torus"].

(** [new THREE.BoxGeometry(1, 1, 1)] *)
Definition unit_box : BufferGeometry := mkGeometry BoxGeometry [1; 1; 1]%float.





(** The types with a [case] in the switch of [_createMaterial]. *)
Definition five_material_types : list string :=
  ["standard"; "basic"; "phong"; "physical"; "wireframe"].

(** The geometry and the materials of a mesh, in the order in which
    [_cleanup] and [ThreeMeshComponent.dispose] dispose of them. *)
Definition mesh_resources (o : Mesh) : list ref :=
  mesh_geometry o :: materials_of (mesh_material o).

(** The resources of the meshes among the objects [l]. *)
Definition resources_of (s : State) (l : list ref) : list ref :=
  flat_map (fun r => from_option mesh_resources [] (lookup_mesh r s)) l.

(** The outcome of disposing of the objects [l] one after the other from
    [s]: all were disposed of, or a call that the oracle fails threw and
    the ones before it were. *)
Definition disposed_of (faulty : Site -> bool) (l : list ref) (s : State)
    (c : Completion unit) (s' : State) : Prop :=
  match c with
  | Normal _ => s' = set_disposed (fun d => d ++ l) s
  | Throw error =>
    faulty error = true /\
    exists done, done `prefix_of` l /\
      s' = set_disposed (fun d => d ++ done) s
  end.

(** ** ThreeEditorBridge (src/adapters/index.ts) *)

(** The property names every object inherits from [Object.prototype]. *)
Definition Object_prototype_names : list string :=
  ["constructor"; "toString"; "toLocaleString"; "valueOf"; "hasOwnProperty";
   "isPrototypeOf"; "propertyIsEnumerable"; "__proto__"; "__defineGetter__";
   "__defineSetter__"; "__lookupGetter__"; "__lookupSetter__"].

(** [table[key]] for an object literal [table]: an own property, a
    property inherited from [Object.prototype] (a function, or for
    [__proto__] the prototype itself: truthy, and without any of the
    fields of a configuration), or [undefined]. *)
Inductive Property (A : Type) :=
| Own (a : A)
| Inherited
| Absent.
Arguments Own {A} a.
Arguments Inherited {A}.
Arguments Absent {A}.

Definition get_property {A} (table : list (string * A)) (key : string)
    : Property A :=
  match (list_to_map table : gmap string A) !! key with
  | Some a => Own a
  | None =>
    if bool_decide (key ∈ Object_prototype_names) then Inherited else Absent
  end.

(** The table of [createMaterialFromName]. *)
Definition materialConfigs : list (string * MaterialConfig) :=
  [ ("DefaultMaterial",
     mkMaterialConfig (Some "standard") (Some "#4CAF50") (Some 0.2)
       (Some 0.8) None None None None None None);
    ("MetalMaterial",
     mkMaterialConfig (Some "standard") (Some "#9E9E9E") (Some 0.9)
       (Some 0.1) None None None None None None);
    ("PlasticMaterial",
     mkMaterialConfig (Some "standard") (Some "#2196F3") (Some 0.0)
       (Some 0.9) None None None None None None);
    ("GlassMaterial",
     mkMaterialConfig (Some "physical") (Some "#E3F2FD") (Some 0.0)
       (Some 0.0) None None (Some true) (Some 0.3) None None);
    ("EnemyMaterial",
     mkMaterialConfig (Some "standard") (Some "#F44336") (Some 0.3)
       (Some 0.7) None None None None None None);
    ("GroundMaterial",
     mkMaterialConfig (Some "standard") (Some "#795548") (Some 0.1)
       (Some 0.9) None None None None None None);
    ("WireframeMaterial",
     mkMaterialConfig (Some "wireframe") (Some "#FFC107") None None None None
       None None (Some true) None);
    ("EmissiveMaterial",
     mkMaterialConfig (Some "standard") (Some "#000000") (Some 0.0)
       (Some 1.0) (Some "#FF5722") (Some 0.5) None None None None) ]%float.

(** [materialConfigs[materialName] || materialConfigs['DefaultMaterial']] *)
Definition createMaterialFromName (materialName : string)
    : ThreeMaterialComponent :=
  ThreeMaterialComponent_new
    match get_property materialConfigs materialName with
    | Own config => config
    | Inherited => MaterialConfig_empty
    | Absent =>
      mkMaterialConfig (Some "standard") (Some "#4CAF50") (Some 0.2)
        (Some 0.8) None None None None None None
    end%float.

(** The table of [createGeometryFromType]: a type and its parameters. *)
Definition geometryConfigs : list (string * (string * gmap string number)) :=
  [ ("box",
     ("box", {[ "width" := 1; "height" := 1; "depth" := 1 ]}));
    ("sphere",
     ("sphere",
      {[ "radius" := 0.5; "widthSegments" := 16; "heightSegments" := 12 ]}));
    ("plane",
     ("plane", {[ "width" := 1; "height" := 1 ]}));
    ("cylinder",
     ("cylinder",
      {[ "radiusTop" := 0.5; "radiusBottom" := 0.5; "height" := 1;
         "radialSegments" := 8 ]}));
    ("cone",
     ("cone", {[ "radius" := 0.5; "height" := 1; "radialSegments" := 8 ]}));
    ("torus",
     ("torus",
      {[ "radius" := 0.4; "tube" := 0.2; "radialSegments" := 8;
         "tubularSegments" := 6 ]})) ]%float.

(** [geometryConfigs[geometryType] || geometryConfigs['box']]; an inherited
    property has neither [type] nor [parameters], and the constructor's
    default arguments apply. *)
Definition createGeometryFromType (geometryType : string)
    : ThreeGeometryComponent :=
  match get_property geometryConfigs geometryType with
  | Own config => ThreeGeometryComponent_new (Some config.1) (Some config.2)
  | Inherited => ThreeGeometryComponent_new None None
  | Absent =>
    ThreeGeometryComponent_new (Some "box")
      (Some {[ "width" := 1; "height" := 1; "depth" := 1 ]}%float)
  end.

(** ** Configuration objects of the factories *)

Inductive Side := FrontSide | DoubleSide.

(** The values found in the object literals of the factories. *)
Inductive Value :=
| VString (s : string)
| VNumber (n : number)
| VBoolean (b : bool)
| VColor (c : Color)
| VColorUndefined          (* [new THREE.Color(undefined)] *)
| VTexture (t : ref)
| VSide (s : Side)
| VVec3 (v : Vec3)
| VPoints (points : list (number * number))   (* [THREE.Vector2[]] *)
| VShape (shape : ref)                        (* a [THREE.Shape] *)
| VUndefined.

(** An object literal: its own properties in the order they were
    written. *)
Definition JSObject : Type := list (string * Value).

(** [o.key], [None] when [o] has no such property. *)
Fixpoint get (o : JSObject) (key : string) : option Value :=
  match o with
  | [] => None
  | (k, v) :: o' => if String.eqb k key then Some v else get o' key
  end.

(** [o.key = v]: an existing property keeps its place. *)
Fixpoint set (key : string) (v : Value) (o : JSObject) : JSObject :=
  match o with
  | [] => [(key, v)]
  | (k, v') :: o' =>
    if String.eqb k key then (k, v) :: o' else (k, v') :: set key v o'
  end.

(** A field read at the type its interface declares. *)
Definition get_number (o : JSObject) (key : string) : option number :=
  match get o key with Some (VNumber n) => Some n | _ => None end.

Definition get_string (o : JSObject) (key : string) : option string :=
  match get o key with Some (VString s) => Some s | _ => None end.

Definition get_boolean (o : JSObject) (key : string) : option bool :=
  match get o key with Some (VBoolean b) => Some b | _ => None end.

(** A string that is present and truthy (not empty). *)
Definition truthy_string (x : option string) : option string :=
  match x with
  | Some v => if String.eqb v "" then None else Some v
  | None => None
  end.

(** ** MaterialFactory (src/materials/index.ts) *)

(** The static state of [MaterialFactory]: the texture cache, a [Map]
    (its entries in insertion order), with what the texture loader and
    the textures were asked to do. *)
Record Textures := mkTextures {
  textureCache : list (string * ref);
  (** the URLs given to [textureLoader.load], in call order *)
  texture_loads : list string;
  (** the textures [dispose()] was called on, in call order *)
  texture_disposals : list ref;
  next_texture : ref
}.

Definition Textures_new : Textures := mkTextures [] [] [] 0.

(** [Map.get] *)
Fixpoint Map_get {A} (m : list (string * A)) (key : string) : option A :=
  match m with
  | [] => None
  | (k, v) :: m' => if String.eqb k key then Some v else Map_get m' key
  end.

(** [MaterialFactory.loadTexture] *)
Definition loadTexture (url : string) (t : Textures) : ref * Textures :=
  match Map_get (textureCache t) url with
  | Some texture => (texture, t)
  | None =>
    let texture := next_texture t in
    (texture,
     mkTextures (textureCache t ++ [(url, texture)]) (texture_loads t ++ [url])
       (texture_disposals t) (S texture))
  end.

(** [MaterialFactory.disposeCachedTextures] *)
Definition disposeCachedTextures (t : Textures) : Textures :=
  mkTextures [] (texture_loads t)
    (texture_disposals t ++ (textureCache t).*2) (next_texture t).

(** [loadTexture] called for each of [urls] in turn: the textures it
    returned and the state it left. *)
Fixpoint loadTextures (urls : list string) (t : Textures)
    : list ref * Textures :=
  match urls with
  | [] => ([], t)
  | url :: urls' =>
    let (x, t1) := loadTexture url t in
    let (xs, t2) := loadTextures urls' t1 in
    (x :: xs, t2)
  end.

(** [config.key ? this.loadTexture(config.key) : undefined] *)
Definition load_if (url : option string) (t : Textures) : Value * Textures :=
  match truthy_string url with
  | Some u => let (x, t') := loadTexture u t in (VTexture x, t')
  | None => (VUndefined, t)
  end.

(** [config.emissive ? new THREE.Color(config.emissive)
                     : new THREE.Color(0x000000)] and the like. *)
Definition color_or (c : option string) (d : number) : Value :=
  match truthy_string c with
  | Some s => VColor (ColorString s)
  | None => VColor (ColorHex d)
  end.

(** A [new THREE.<class>(parameters)] made by the factory. *)
Record FactoryMaterial := mkFactoryMaterial {
  fm_class : MaterialClass;
  fm_parameters : JSObject
}.

(** [MaterialFactory.createMaterial] *)
Definition MaterialFactory_createMaterial (config : JSObject) (t : Textures)
    : FactoryMaterial * Textures :=
  let num key d := VNumber (or_number (get_number config key) d) in
  let baseProps : JSObject :=
    [ ("color",
       match get_string config "color" with
       | Some c => VColor (ColorString c)
       | None => VColorUndefined
       end);
      ("transparent",
       VBoolean (or_boolean (get_boolean config "transparent") false));
      ("opacity", VNumber (default 1.0%float (get_number config "opacity")));
      ("wireframe",
       VBoolean (or_boolean (get_boolean config "wireframe") false));
      ("side",
       VSide (if or_boolean (get_boolean config "doubleSided") false
              then DoubleSide else FrontSide)) ] in
  let (baseProps, t) :=
    match truthy_string (get_string config "texture") with
    | Some url =>
      let (texture, t) := loadTexture url t in
      (set "map" (VTexture texture) baseProps, t)
    | None => (baseProps, t)
    end in
  let emissive :=
    [ ("emissive", color_or (get_string config "emissive") 0);
      ("emissiveIntensity", num "emissiveIntensity" 0.0%float) ] in
  let type := default "" (get_string config "type") in
  if String.eqb type "standard" then
    let (normalMap, t) := load_if (get_string config "normalMap") t in
    let (roughnessMap, t) := load_if (get_string config "roughnessMap") t in
    let (metalnessMap, t) := load_if (get_string config "metalnessMap") t in
    (mkFactoryMaterial MeshStandardMaterial
       (baseProps ++
        [ ("metalness", num "metalness" 0.0%float);
          ("roughness", num "roughness" 1.0%float) ] ++ emissive ++
        [ ("normalMap", normalMap); ("roughnessMap", roughnessMap);
          ("metalnessMap", metalnessMap);
          ("envMapIntensity", num "envMapIntensity" 1.0%float) ]), t)
  else if String.eqb type "phong" then
    (mkFactoryMaterial MeshPhongMaterial
       (baseProps ++
        [ ("shininess",
           VNumber
             (or_number (get_number config "shininess")
                ((1.0 - or_number (get_number config "roughness") 1.0) * 100)));
          ("specular", color_or (get_string config "specular") 0x111111) ]
        ++ emissive)%float, t)
  else if String.eqb type "lambert" then
    (mkFactoryMaterial MeshLambertMaterial (baseProps ++ emissive), t)
  else if String.eqb type "basic" then
    (mkFactoryMaterial MeshBasicMaterial baseProps, t)
  else if String.eqb type "physical" then
    (mkFactoryMaterial MeshPhysicalMaterial
       (baseProps ++
        [ ("metalness", num "metalness" 0.0%float);
          ("roughness", num "roughness" 1.0%float) ] ++ emissive ++
        [ ("clearcoat", num "clearcoat" 0.0%float);
          ("clearcoatRoughness", num "clearcoatRoughness" 0.0%float);
          ("transmission", num "transmission" 0.0%float);
          ("thickness", num "thickness" 0.0%float);
          ("ior", num "ior" 1.5%float) ]), t)
  else if String.eqb type "toon" then
    let (gradientMap, t) := load_if (get_string config "gradientMap") t in
    (mkFactoryMaterial MeshToonMaterial
       (baseProps ++ [("gradientMap", gradientMap)]), t)
  else if String.eqb type "matcap" then
    let (matcap, t) := load_if (get_string config "matcap") t in
    (mkFactoryMaterial MeshMatcapMaterial
       (baseProps ++ [("matcap", matcap)]), t)
  else if String.eqb type "wireframe" then
    (mkFactoryMaterial MeshBasicMaterial
       (set "wireframe" (VBoolean true) baseProps), t)
  else
    (mkFactoryMaterial MeshStandardMaterial baseProps, t).

(** [MaterialPresets] *)
Definition MaterialPresets : list (string * JSObject) :=
  [
    ("Default",
     [ ("type", VString "standard"); ("color", VString "#4CAF50");
       ("metalness", VNumber 0.2); ("roughness", VNumber 0.8) ]);
    ("White",
     [ ("type", VString "standard"); ("color", VString "#FFFFFF");
       ("metalness", VNumber 0.1); ("roughness", VNumber 0.9) ]);
    ("Black",
     [ ("type", VString "standard"); ("color", VString "#000000");
       ("metalness", VNumber 0.1); ("roughness", VNumber 0.9) ]);
    ("Steel",
     [ ("type", VString "standard"); ("color", VString "#B0B0B0");
       ("metalness", VNumber 0.9); ("roughness", VNumber 0.1) ]);
    ("Gold",
     [ ("type", VString "standard"); ("color", VString "#FFD700");
       ("metalness", VNumber 1.0); ("roughness", VNumber 0.2) ]);
    ("Copper",
     [ ("type", VString "standard"); ("color", VString "#B87333");
       ("metalness", VNumber 1.0); ("roughness", VNumber 0.3) ]);
    ("RedPlastic",
     [ ("type", VString "standard"); ("color", VString "#F44336");
       ("metalness", VNumber 0.0); ("roughness", VNumber 0.9) ]);
    ("BluePlastic",
     [ ("type", VString "standard"); ("color", VString "#2196F3");
       ("metalness", VNumber 0.0); ("roughness", VNumber 0.8) ]);
    ("GreenPlastic",
     [ ("type", VString "standard"); ("color", VString "#4CAF50");
       ("metalness", VNumber 0.0); ("roughness", VNumber 0.9) ]);
    ("Glass",
     [ ("type", VString "physical"); ("color", VString "#FFFFFF");
       ("metalness", VNumber 0.0); ("roughness", VNumber 0.0);
       ("transparent", VBoolean true); ("opacity", VNumber 0.1);
       ("transmission", VNumber 0.9); ("thickness", VNumber 0.5);
       ("ior", VNumber 1.5) ]);
    ("TintedGlass",
     [ ("type", VString "physical"); ("color", VString "#4080FF");
       ("metalness", VNumber 0.0); ("roughness", VNumber 0.0);
       ("transparent", VBoolean true); ("opacity", VNumber 0.3);
       ("transmission", VNumber 0.7); ("thickness", VNumber 0.5);
       ("ior", VNumber 1.5) ]);
    ("Neon",
     [ ("type", VString "standard"); ("color", VString "#000000");
       ("emissive", VString "#00FF00"); ("emissiveIntensity", VNumber
       1.0); ("metalness", VNumber 0.0); ("roughness", VNumber 1.0) ]);
    ("Fire",
     [ ("type", VString "standard"); ("color", VString "#000000");
       ("emissive", VString "#FF4500"); ("emissiveIntensity", VNumber
       0.8); ("metalness", VNumber 0.0); ("roughness", VNumber 1.0) ]);
    ("Wireframe",
     [ ("type", VString "wireframe"); ("color", VString "#00FF00");
       ("wireframe", VBoolean true) ]);
    ("Invisible",
     [ ("type", VString "basic"); ("color", VString "#FFFFFF");
       ("transparent", VBoolean true); ("opacity", VNumber 0.0) ]);
    ("ToonRed",
     [ ("type", VString "toon"); ("color", VString "#FF6B6B") ]);
    ("ToonBlue",
     [ ("type", VString "toon"); ("color", VString "#4ECDC4") ]);
    ("ToonYellow",
     [ ("type", VString "toon"); ("color", VString "#FFE066") ]) ]%float.

(** The fields of a [MaterialConfig] that name a texture. *)
Definition texture_fields : list string :=
  ["texture"; "normalMap"; "roughnessMap"; "metalnessMap"; "gradientMap";
   "matcap"].

(** What the texture cache keeps: its URLs are distinct, so are its
    textures, and every texture was made by the loader. *)
Record cache_ok (t : Textures) : Prop := {
  ok_urls : NoDup (textureCache t).*1;
  ok_textures : NoDup (textureCache t).*2;
  ok_made : Forall (fun x => x < next_texture t) (textureCache t).*2;
}.

(** [t'] still caches every texture [t] caches, under the same URL. *)
Definition cache_grows (t t' : Textures) : Prop :=
  forall url x,
    Map_get (textureCache t) url = Some x ->
    Map_get (textureCache t') url = Some x.

(** ** GeometryFactory (unnamed/part_002) *)

(** An argument of a geometry constructor. *)
Inductive Argument :=
| ANumber (n : number)
| ABoolean (b : bool)
| APoints (points : list (number * number))   (* [THREE.Vector2[]] *)
| AShape (shape : ref)                        (* a [THREE.Shape] *)
| ASettings (settings : JSObject).            (* an object literal *)

(** A constructor call [new THREE.<class>(args)] of the factory. *)
Record FactoryGeometry := mkFactoryGeometry {
  fg_class : string;
  fg_args : list Argument
}.

(** [config.points] and [config.shape]. *)
Definition get_points (o : JSObject) (key : string)
    : option (list (number * number)) :=
  match get o key with Some (VPoints l) => Some l | _ => None end.

Definition get_shape (o : JSObject) (key : string) : option ref :=
  match get o key with Some (VShape x) => Some x | _ => None end.

(** The [switch (config.type)] of [GeometryFactory.createGeometry]: the
    constructor call it makes. *)
Definition createGeometry_switch (config : JSObject) : FactoryGeometry :=
  let type := default "" (get_string config "type") in
  (
  if String.eqb type "box" then
    mkFactoryGeometry "BoxGeometry"
      [ ANumber (or_number (get_number config "width") 1);
        ANumber (or_number (get_number config "height") 1);
        ANumber (or_number (get_number config "depth") 1);
        ANumber (or_number (get_number config "widthSegments") 1);
        ANumber (or_number (get_number config "heightSegments") 1);
        ANumber (or_number (get_number config "depthSegments") 1) ]
  else if String.eqb type "sphere" then
    mkFactoryGeometry "SphereGeometry"
      [ ANumber (or_number (get_number config "radius") 0.5);
        ANumber (or_number (get_number config "widthSegments") 16);
        ANumber (or_number (get_number config "heightSegments") 12);
        ANumber (or_number (get_number config "phiStart") 0);
        ANumber (or_number (get_number config "phiLength") (Math_PI * 2));
        ANumber (or_number (get_number config "thetaStart") 0);
        ANumber (or_number (get_number config "thetaLength") Math_PI) ]
  else if String.eqb type "plane" then
    mkFactoryGeometry "PlaneGeometry"
      [ ANumber (or_number (get_number config "width") 1);
        ANumber (or_number (get_number config "height") 1);
        ANumber (or_number (get_number config "widthSegments") 1);
        ANumber (or_number (get_number config "heightSegments") 1) ]
  else if String.eqb type "cylinder" then
    mkFactoryGeometry "CylinderGeometry"
      [ ANumber (or_number (get_number config "radiusTop") 0.5);
        ANumber (or_number (get_number config "radiusBottom") 0.5);
        ANumber (or_number (get_number config "height") 1);
        ANumber (or_number (get_number config "radialSegments") 8);
        ANumber (or_number (get_number config "heightSegments") 1);
        ABoolean (or_boolean (get_boolean config "openEnded") false);
        ANumber (or_number (get_number config "thetaStart") 0);
        ANumber (or_number (get_number config "thetaLength") (Math_PI * 2)) ]
  else if String.eqb type "cone" then
    mkFactoryGeometry "ConeGeometry"
      [ ANumber (or_number (get_number config "radius") 0.5);
        ANumber (or_number (get_number config "height") 1);
        ANumber (or_number (get_number config "radialSegments") 8);
        ANumber (or_number (get_number config "heightSegments") 1);
        ABoolean (or_boolean (get_boolean config "openEnded") false);
        ANumber (or_number (get_number config "thetaStart") 0);
        ANumber (or_number (get_number config "thetaLength") (Math_PI * 2)) ]
  else if String.eqb type "torus" then
    mkFactoryGeometry "TorusGeometry"
      [ ANumber (or_number (get_number config "radius") 0.4);
        ANumber (or_number (get_number config "tube") 0.2);
        ANumber (or_number (get_number config "radialSegments") 8);
        ANumber (or_number (get_number config "tubularSegments") 6);
        ANumber (or_number (get_number config "arc") (Math_PI * 2)) ]
  else if String.eqb type "torusKnot" then
    mkFactoryGeometry "TorusKnotGeometry"
      [ ANumber (or_number (get_number config "radius") 0.4);
        ANumber (or_number (get_number config "tube") 0.1);
        ANumber (or_number (get_number config "tubularSegments") 64);
        ANumber (or_number (get_number config "radialSegments") 8);
        ANumber (or_number (get_number config "p") 2);
        ANumber (or_number (get_number config "q") 3) ]
  else if String.eqb type "dodecahedron" then
    mkFactoryGeometry "DodecahedronGeometry"
      [ ANumber (or_number (get_number config "radius") 0.5);
        ANumber (or_number (get_number config "detail") 0) ]
  else if String.eqb type "icosahedron" then
    mkFactoryGeometry "IcosahedronGeometry"
      [ ANumber (or_number (get_number config "radius") 0.5);
        ANumber (or_number (get_number config "detail") 0) ]
  else if String.eqb type "octahedron" then
    mkFactoryGeometry "OctahedronGeometry"
      [ ANumber (or_number (get_number config "radius") 0.5);
        ANumber (or_number (get_number config "detail") 0) ]
  else if String.eqb type "tetrahedron" then
    mkFactoryGeometry "TetrahedronGeometry"
      [ ANumber (or_number (get_number config "radius") 0.5);
        ANumber (or_number (get_number config "detail") 0) ]
  else if String.eqb type "capsule" then
    mkFactoryGeometry "CapsuleGeometry"
      [ ANumber (or_number (get_number config "radius") 0.3);
        ANumber (or_number (get_number config "length") 0.8);
        ANumber (or_number (get_number config "capSegments") 4);
        ANumber (or_number (get_number config "radialSegments") 8) ]
  else if String.eqb type "ring" then
    mkFactoryGeometry "RingGeometry"
      [ ANumber (or_number (get_number config "innerRadius") 0.2);
        ANumber (or_number (get_number config "outerRadius") 0.5);
        ANumber (or_number (get_number config "thetaSegments") 8);
        ANumber (or_number (get_number config "phiSegments") 1);
        ANumber (or_number (get_number config "thetaStart") 0);
        ANumber (or_number (get_number config "thetaLength") (Math_PI * 2)) ]
  else if String.eqb type "lathe" then
    let points :=
      match get_points config "points" with
      | Some points => points
      | None => [(0, -0.5); (0.5, 0); (0, 0.5)]
      end in
    mkFactoryGeometry "LatheGeometry"
      [ APoints points;
        ANumber (or_number (get_number config "segments") 12);
        ANumber (or_number (get_number config "phiStart") 0);
        ANumber (or_number (get_number config "phiLength") (Math_PI * 2)) ]
  else if String.eqb type "extrude" then
    match get_shape config "shape" with
    | Some shape =>
      let extrudeSettings :=
        [ ("depth", VNumber (or_number (get_number config "depth") 0.2));
          ("bevelEnabled",
           VBoolean (or_boolean (get_boolean config "bevelEnabled") false));
          ("bevelSegments",
           VNumber (or_number (get_number config "bevelSegments") 2));
          ("steps", VNumber (or_number (get_number config "steps") 1));
          ("bevelSize", VNumber (or_number (get_number config "bevelSize") 0.1));
          ("bevelThickness",
           VNumber (or_number (get_number config "bevelThickness") 0.1)) ] in
      mkFactoryGeometry "ExtrudeGeometry"
        [ AShape shape; ASettings extrudeSettings ]
    | None =>
      mkFactoryGeometry "BoxGeometry" [ANumber 1; ANumber 1; ANumber 1]
    end
  else
    mkFactoryGeometry "BoxGeometry" [ANumber 1; ANumber 1; ANumber 1])%float.

(** The static state of [GeometryFactory]: the geometry cache, a [Map]
    (its entries in insertion order), the geometry objects there are,
    each with the constructor call that describes it, and what the
    library was asked to do. *)
Record Geometries := mkGeometries {
  geometryCache : list (string * ref);
  geometries : gmap ref FactoryGeometry;
  (** the constructor calls, in call order *)
  geometry_constructions : list FactoryGeometry;
  (** the calls of [clone()]: the geometry cloned and its clone *)
  geometry_clones : list (ref * ref);
  (** the geometries [dispose()] was called on, in call order *)
  geometry_disposals : list ref;
  next_geometry : ref
}.

Definition Geometries_new : Geometries := mkGeometries [] ∅ [] [] [] 0.

(** [Map.set]: an existing key keeps its place. *)
Fixpoint Map_set {A} (key : string) (v : A) (m : list (string * A))
    : list (string * A) :=
  match m with
  | [] => [(key, v)]
  | (k, v') :: m' =>
    if String.eqb k key then (k, v) :: m' else (k, v') :: Map_set key v m'
  end.

(** [new THREE.<class>(args)] *)
Definition new_geometry (g : FactoryGeometry) (s : Geometries)
    : ref * Geometries :=
  let r := next_geometry s in
  (r, mkGeometries (geometryCache s) (<[r := g]> (geometries s))
        (geometry_constructions s ++ [g]) (geometry_clones s)
        (geometry_disposals s) (S r)).

(** [geometry.clone()]: a new object described as [geometry] is. *)
Definition clone (geometry : ref) (s : Geometries) : ref * Geometries :=
  let r := next_geometry s in
  (r, mkGeometries (geometryCache s)
        (partial_alter (fun _ => geometries s !! geometry) r (geometries s))
        (geometry_constructions s) (geometry_clones s ++ [(geometry, r)])
        (geometry_disposals s) (S r)).

Section GeometryFactory.

(** [GeometryFactory.getCacheKey] is [JSON.stringify]; the factory is
    modelled for any key function. *)
Variable getCacheKey : JSObject -> string.

(** [GeometryFactory.createGeometry] *)
Definition GeometryFactory_createGeometry (config : JSObject) (s : Geometries)
    : ref * Geometries :=
  let cacheKey := getCacheKey config in
  match Map_get (geometryCache s) cacheKey with
  | Some cached => clone cached s
  | None =>
    let (geometry, s) := new_geometry (createGeometry_switch config) s in
    let (copy, s) := clone geometry s in
    (geometry,
     mkGeometries (Map_set cacheKey copy (geometryCache s)) (geometries s)
       (geometry_constructions s) (geometry_clones s) (geometry_disposals s)
       (next_geometry s))
  end.

(** [createGeometry] called for each of [configs] in turn: the geometries
    it returned and the state it left. *)
Fixpoint createGeometries (configs : list JSObject) (s : Geometries)
    : list ref * Geometries :=
  match configs with
  | [] => ([], s)
  | config :: configs' =>
    let (x, s1) := GeometryFactory_createGeometry config s in
    let (xs, s2) := createGeometries configs' s1 in
    (x :: xs, s2)
  end.

End GeometryFactory.

(** [GeometryFactory.clearCache] *)
Definition clearCache (s : Geometries) : Geometries :=
  mkGeometries [] (geometries s) (geometry_constructions s)
    (geometry_clones s) (geometry_disposals s ++ (geometryCache s).*2)
    (next_geometry s).

(** What the geometry cache keeps: its keys are distinct, so are its
    geometries, and each of them is an object that was made. *)
Record geometries_ok (s : Geometries) : Prop := {
  gok_keys : NoDup (geometryCache s).*1;
  gok_cached : NoDup (geometryCache s).*2;
  gok_made : Forall (fun x => x < next_geometry s) (geometryCache s).*2;
  gok_objects : forall x, is_Some (geometries s !! x) -> x < next_geometry s;
}.

(** Every cached geometry is described by the constructor call that the
    switch makes for some configuration with the key it is cached
    under. *)
Definition cache_describes (getCacheKey : JSObject -> string)
    (s : Geometries) : Prop :=
  forall key x,
    Map_get (geometryCache s) key = Some x ->
    exists config,
      getCacheKey config = key /\
      geometries s !! x = Some (createGeometry_switch config).

(** * Proofs *)

(** ** The state setters *)

Section Setters.
Context (i : nat) (f : Entity -> Entity) (s : State).

Lemma scene_modify_entity : scene (modify_entity i f s) = scene s.
Proof. unfold modify_entity. by destruct (world s). Qed.

Lemma sys_camera_modify_entity :
  sys_camera (modify_entity i f s) = sys_camera s.
Proof. unfold modify_entity. by destruct (world s). Qed.

Lemma enableShadows_modify_entity :
  enableShadows (modify_entity i f s) = enableShadows s.
Proof. unfold modify_entity. by destruct (world s). Qed.

Lemma isInitialized_modify_entity :
  _isInitialized (modify_entity i f s) = _isInitialized s.
Proof. unfold modify_entity. by destruct (world s). Qed.

Lemma frameCount_modify_entity :
  _frameCount (modify_entity i f s) = _frameCount s.
Proof. unfold modify_entity. by destruct (world s). Qed.

Lemma objects_modify_entity : objects (modify_entity i f s) = objects s.
Proof. unfold modify_entity. by destruct (world s). Qed.

Lemma next_ref_modify_entity : next_ref (modify_entity i f s) = next_ref s.
Proof. unfold modify_entity. by destruct (world s). Qed.

Lemma disposed_modify_entity : disposed (modify_entity i f s) = disposed s.
Proof. unfold modify_entity. by destruct (world s). Qed.

Lemma rendered_modify_entity : rendered (modify_entity i f s) = rendered s.
Proof. unfold modify_entity. by destruct (world s). Qed.

Lemma console_modify_entity : console (modify_entity i f s) = console s.
Proof. unfold modify_entity. by destruct (world s). Qed.

Lemma lookup_entity_modify_eq :
  lookup_entity i (modify_entity i f s) = f <$> lookup_entity i s.
Proof.
  unfold lookup_entity, modify_entity.
  destruct (world s) as [w|] eqn:Hw; cbn; rewrite ?Hw; [|done].
  apply list_lookup_alter_eq.
Qed.

Lemma lookup_entity_modify_ne j :
  i <> j -> lookup_entity j (modify_entity i f s) = lookup_entity j s.
Proof.
  intros Hij. unfold lookup_entity, modify_entity.
  destruct (world s) as [w|] eqn:Hw; cbn; rewrite ?Hw; [|done].
  by apply list_lookup_alter_ne.
Qed.

Lemma lookup_mesh_modify_entity r :
  lookup_mesh r (modify_entity i f s) = lookup_mesh r s.
Proof. unfold lookup_mesh. by rewrite objects_modify_entity. Qed.

Lemma lookup_light_modify_entity r :
  lookup_light r (modify_entity i f s) = lookup_light r s.
Proof. unfold lookup_light. by rewrite objects_modify_entity. Qed.

Lemma lookup_camera_modify_entity r :
  lookup_camera r (modify_entity i f s) = lookup_camera r s.
Proof. unfold lookup_camera. by rewrite objects_modify_entity. Qed.
End Setters.

Section LookupEntity.
Context (i : nat) (s : State).

Lemma lookup_entity_alloc o : lookup_entity i (alloc o s) = lookup_entity i s.
Proof. done. Qed.

Lemma lookup_entity_set_objects f :
  lookup_entity i (set_objects f s) = lookup_entity i s.
Proof. done. Qed.

Lemma lookup_entity_set_scene f :
  lookup_entity i (set_scene f s) = lookup_entity i s.
Proof. done. Qed.

Lemma lookup_entity_set_disposed f :
  lookup_entity i (set_disposed f s) = lookup_entity i s.
Proof. done. Qed.

Lemma lookup_entity_set_console f :
  lookup_entity i (set_console f s) = lookup_entity i s.
Proof. done. Qed.

Lemma lookup_entity_set_sys_camera c :
  lookup_entity i (set_sys_camera c s) = lookup_entity i s.
Proof. done. Qed.

Lemma lookup_entity_set_rendered f :
  lookup_entity i (set_rendered f s) = lookup_entity i s.
Proof. done. Qed.

Lemma lookup_entity_set_frameCount n :
  lookup_entity i (set_frameCount n s) = lookup_entity i s.
Proof. done. Qed.
End LookupEntity.

Lemma option_bind_Some {A B} (f : A -> option B) (x : A) : Some x ≫= f = f x.
Proof. done. Qed.

Lemma option_fmap_Some {A B} (f : A -> B) (x : A) : f <$> Some x = Some (f x).
Proof. done. Qed.

Lemma hasComponent_fmap {A B} (f : A -> B) (x : option A) :
  hasComponent (f <$> x) = hasComponent x.
Proof. by destruct x. Qed.

Create Rewrite HintDb state.
#[export] Hint Rewrite scene_modify_entity sys_camera_modify_entity
  enableShadows_modify_entity isInitialized_modify_entity
  frameCount_modify_entity objects_modify_entity next_ref_modify_entity
  disposed_modify_entity rendered_modify_entity console_modify_entity
  lookup_entity_modify_eq lookup_mesh_modify_entity
  lookup_light_modify_entity lookup_camera_modify_entity
  lookup_entity_alloc lookup_entity_set_objects
  lookup_entity_set_scene lookup_entity_set_disposed lookup_entity_set_console
  lookup_entity_set_sys_camera lookup_entity_set_rendered
  lookup_entity_set_frameCount
  @option_bind_Some @option_fmap_Some : state.

Lemma set_disposed_nil s : set_disposed (fun d => d ++ []) s = s.
Proof. destruct s. unfold set_disposed. cbn. by rewrite app_nil_r. Qed.

Lemma set_disposed_app l1 l2 s :
  set_disposed (fun d => d ++ l2) (set_disposed (fun d => d ++ l1) s)
  = set_disposed (fun d => d ++ l1 ++ l2) s.
Proof. unfold set_disposed. cbn. by rewrite app_assoc. Qed.

(** ** Rules for [post] *)

Lemma post_unseal {A} (m : JS A) s Q : post m s Q <-> Q (m s).1 (m s).2.
Proof. unfold post. by rewrite (seal_eq post_aux). Qed.

Section Post.
Context {A B : Type}.

Lemma post_ret (a : A) s Q : Q (Normal a) s -> post (ret a) s Q.
Proof. by rewrite post_unseal. Qed.

Lemma post_bind (m : JS A) (f : A -> JS B) s Q :
  post m s (fun c s' =>
    match c with
    | Normal a => post (f a) s' Q
    | Throw e => Q (Throw e) s'
    end) ->
  post (bind m f) s Q.
Proof.
  rewrite !post_unseal. unfold bind.
  destruct (m s) as [[a|e] s']; cbn; [|done]. by rewrite post_unseal.
Qed.

Lemma post_read (f : State -> A) s Q : Q (Normal (f s)) s -> post (read f) s Q.
Proof. by rewrite post_unseal. Qed.

Lemma post_throw e s (Q : Completion A -> State -> Prop) :
  Q (Throw e) s -> post (throw e) s Q.
Proof. by rewrite post_unseal. Qed.

Lemma post_mono (m : JS A) s (Q Q' : Completion A -> State -> Prop) :
  post m s Q -> (forall c s', Q c s' -> Q' c s') -> post m s Q'.
Proof. rewrite !post_unseal. auto. Qed.
End Post.

Lemma post_write f s Q : Q (Normal tt) (f s) -> post (write f) s Q.
Proof. by rewrite post_unseal. Qed.

Lemma post_three faulty c effect s Q :
  (faulty c = true -> Q (Throw c) s) ->
  (faulty c = false -> Q (Normal tt) (effect s)) ->
  post (three faulty c effect) s Q.
Proof. rewrite post_unseal. unfold three. destruct (faulty c); auto. Qed.

Lemma post_three_new faulty c o s Q :
  (faulty c = true -> Q (Throw c) s) ->
  (faulty c = false -> Q (Normal (next_ref s)) (alloc o s)) ->
  post (three_new faulty c o) s Q.
Proof. rewrite post_unseal. unfold three_new. destruct (faulty c); auto. Qed.

Lemma post_try_catch body handler s Q :
  post body s (fun c s' =>
    match c with
    | Normal a => Q (Normal a) s'
    | Throw e => post (handler e) s' Q
    end) ->
  post (try_catch body handler) s Q.
Proof.
  rewrite !post_unseal. unfold try_catch.
  destruct (body s) as [[a|e] s']; cbn; [done|]. by rewrite post_unseal.
Qed.

(** Disposing of a list of objects stops at the first call that throws. *)
Lemma post_dispose_all faulty l s Q :
  (forall k r, l !! k = Some r -> faulty (Dispose r) = true ->
     Q (Throw (Dispose r)) (set_disposed (fun d => d ++ take k l) s)) ->
  Q (Normal tt) (set_disposed (fun d => d ++ l) s) ->
  post (for_of l (dispose faulty)) s Q.
Proof.
  revert s. induction l as [|r l IH]; intros s Hthrow Hnormal.
  - cbn. apply post_ret. by rewrite set_disposed_nil in Hnormal.
  - cbn [for_of]. apply post_bind, post_three; intros Hr; cbn beta iota.
    + specialize (Hthrow 0 r eq_refl Hr). cbn in Hthrow.
      by rewrite set_disposed_nil in Hthrow.
    + apply IH.
      * intros k r' Hk Hr'. rewrite set_disposed_app.
        apply (Hthrow (S k) r' Hk Hr').
      * by rewrite set_disposed_app.
Qed.

(** A loop whose body never throws and keeps an invariant indexed by the
    elements done so far. *)
Lemma post_for_of {A} (l : list A) (body : A -> JS unit)
    (I : list A -> State -> Prop) s :
  I [] s ->
  (forall done x rest s, l = done ++ x :: rest -> I done s ->
     post (body x) s (fun c s' => c = Normal tt /\ I (done ++ [x]) s')) ->
  post (for_of l body) s (fun c s' => c = Normal tt /\ I l s').
Proof.
  intros H0 Hbody.
  assert (Hgen : forall rest done s, l = done ++ rest -> I done s ->
    post (for_of rest body) s (fun c s' => c = Normal tt /\ I l s')).
  { induction rest as [|x rest IH]; intros done s1 Hl Hdone.
    - rewrite app_nil_r in Hl. subst. by apply post_ret.
    - cbn [for_of]. apply post_bind.
      eapply post_mono; [by apply (Hbody done x rest)|].
      intros c s' [-> Hx]. apply (IH (done ++ [x])); [|done].
      by rewrite <- app_assoc. }
  by apply (Hgen l []).
Qed.

(** ** Object stores *)

Lemma same_class_refl o : same_class o o.
Proof. by destruct o as [[]|]. Qed.

Lemma same_class_trans o1 o2 o3 :
  same_class o1 o2 -> same_class o2 o3 -> same_class o1 o3.
Proof. by destruct o1 as [[]|], o2 as [[]|], o3 as [[]|]. Qed.

Lemma same_class_on_mesh f o : same_class (Some o) (Some (on_mesh f o)).
Proof. by destruct o. Qed.

Lemma same_class_on_light f o : same_class (Some o) (Some (on_light f o)).
Proof. by destruct o. Qed.

Lemma same_class_on_camera f o : same_class (Some o) (Some (on_camera f o)).
Proof. by destruct o. Qed.

Lemma same_class_alter (g : ThreeObject -> ThreeObject) (m r : ref)
    (O : gmap ref ThreeObject) :
  (forall o, same_class (Some o) (Some (g o))) ->
  same_class (O !! r) (alter g m O !! r).
Proof.
  intros Hg. destruct (decide (m = r)) as [->|Hne].
  - rewrite lookup_alter_eq. destruct (O !! r); cbn; [apply Hg|done].
  - rewrite lookup_alter_ne by done. apply same_class_refl.
Qed.

Lemma store_le_refl n O : store_le n O O.
Proof. intros r _. apply same_class_refl. Qed.

Lemma store_le_insert n O O' k o :
  n <= k -> store_le n O O' -> store_le n O (<[k:=o]> O').
Proof. intros Hk H r Hr. rewrite lookup_insert_ne by lia. by apply H. Qed.

Lemma store_le_alter n O O' (g : ThreeObject -> ThreeObject) (m : ref) :
  (forall o, same_class (Some o) (Some (g o))) ->
  store_le n O O' -> store_le n O (alter g m O').
Proof.
  intros Hg H r Hr. eapply same_class_trans; [by apply H|].
  by apply same_class_alter.
Qed.

Lemma created_nil n P O : created n n P O.
Proof. intros r o Hr. lia. Qed.

Lemma created_insert n k P O' o :
  created n k P O' -> P k o -> created n (S k) P (<[k:=o]> O').
Proof.
  intros H Ho r o' Hr Hl. destruct (decide (k = r)) as [->|Hne].
  - rewrite lookup_insert_eq in Hl. by simplify_eq.
  - rewrite lookup_insert_ne in Hl by done. apply (H r o'); [lia|done].
Qed.

Lemma created_alter n n' P O' (g : ThreeObject -> ThreeObject) (m : ref) :
  (forall r o, P r o -> P r (g o)) ->
  created n n' P O' -> created n n' P (alter g m O').
Proof.
  intros Hg H r o Hr Hl. destruct (decide (m = r)) as [->|Hne].
  - rewrite lookup_alter_eq in Hl. destruct (O' !! r) as [o0|] eqn:Ho; [|done].
    cbn in Hl. simplify_eq. apply Hg. by apply (H r o0).
  - rewrite lookup_alter_ne in Hl by done. by apply (H r o).
Qed.

Lemma owns_on_mesh e e' f r o : owns e e' r o -> owns e e' r (on_mesh f o).
Proof. by destruct o. Qed.

Lemma owns_on_light e e' f r o : owns e e' r o -> owns e e' r (on_light f o).
Proof. by destruct o. Qed.

Lemma owns_on_camera e e' f r o : owns e e' r o -> owns e e' r (on_camera f o).
Proof. by destruct o. Qed.

(** Reading an object of one class through writes to other objects. *)
Section Reads.
Context (O : gmap ref ThreeObject) (r k : ref).

Lemma as_mesh_insert_ne o : k <> r -> as_mesh (<[k:=o]> O !! r) = as_mesh (O !! r).
Proof. intros. by rewrite lookup_insert_ne. Qed.

Lemma as_light_insert_ne o : k <> r -> as_light (<[k:=o]> O !! r) = as_light (O !! r).
Proof. intros. by rewrite lookup_insert_ne. Qed.

Lemma as_camera_insert_ne o :
  k <> r -> as_camera (<[k:=o]> O !! r) = as_camera (O !! r).
Proof. intros. by rewrite lookup_insert_ne. Qed.

Lemma as_mesh_alter_ne g : k <> r -> as_mesh (alter g k O !! r) = as_mesh (O !! r).
Proof. intros. by rewrite lookup_alter_ne. Qed.

Lemma as_light_alter_ne g : k <> r -> as_light (alter g k O !! r) = as_light (O !! r).
Proof. intros. by rewrite lookup_alter_ne. Qed.

Lemma as_camera_alter_ne g :
  k <> r -> as_camera (alter g k O !! r) = as_camera (O !! r).
Proof. intros. by rewrite lookup_alter_ne. Qed.

Lemma as_mesh_alter_on_light f :
  as_mesh (alter (on_light f) k O !! r) = as_mesh (O !! r).
Proof.
  destruct (decide (k = r)) as [->|]; [|by rewrite lookup_alter_ne].
  rewrite lookup_alter_eq. by destruct (O !! r) as [[]|].
Qed.

Lemma as_mesh_alter_on_camera f :
  as_mesh (alter (on_camera f) k O !! r) = as_mesh (O !! r).
Proof.
  destruct (decide (k = r)) as [->|]; [|by rewrite lookup_alter_ne].
  rewrite lookup_alter_eq. by destruct (O !! r) as [[]|].
Qed.

Lemma as_light_alter_on_mesh f :
  as_light (alter (on_mesh f) k O !! r) = as_light (O !! r).
Proof.
  destruct (decide (k = r)) as [->|]; [|by rewrite lookup_alter_ne].
  rewrite lookup_alter_eq. by destruct (O !! r) as [[]|].
Qed.

Lemma as_light_alter_on_camera f :
  as_light (alter (on_camera f) k O !! r) = as_light (O !! r).
Proof.
  destruct (decide (k = r)) as [->|]; [|by rewrite lookup_alter_ne].
  rewrite lookup_alter_eq. by destruct (O !! r) as [[]|].
Qed.

Lemma as_camera_alter_on_mesh f :
  as_camera (alter (on_mesh f) k O !! r) = as_camera (O !! r).
Proof.
  destruct (decide (k = r)) as [->|]; [|by rewrite lookup_alter_ne].
  rewrite lookup_alter_eq. by destruct (O !! r) as [[]|].
Qed.

Lemma as_camera_alter_on_light f :
  as_camera (alter (on_light f) k O !! r) = as_camera (O !! r).
Proof.
  destruct (decide (k = r)) as [->|]; [|by rewrite lookup_alter_ne].
  rewrite lookup_alter_eq. by destruct (O !! r) as [[]|].
Qed.
End Reads.

Lemma keeps_refl r : keeps r r.
Proof. by destruct r. Qed.

(** ** Symbolic execution

    The state is kept as a record of explicit fields, so that every
    projection of the state reached is immediate. *)

#[export] Hint Rewrite @list_lookup_alter_eq : state.

Ltac red_state :=
  cbn [scene sys_camera enableShadows _isInitialized _frameCount world objects
       next_ref disposed rendered console set_scene set_sys_camera
       set_isInitialized set_frameCount set_world set_objects alloc
       set_disposed set_rendered set_console
       lookup_entity modify_entity entities].

Ltac red_entity :=
  cbn [id active transformComp meshComp materialComp geometryComp lightComp
       cameraComp mesh mesh_needsUpdate material_needsUpdate
       geometry_needsUpdate light light_needsUpdate camera camera_needsUpdate
       with_mesh with_material_needsUpdate with_geometry_needsUpdate
       with_light with_light_needsUpdate with_camera
       mbind option_bind fmap option_fmap option_map
       mesh_of light_of camera_of hasComponent keeps].

Ltac red_entity_in H :=
  cbn [id active transformComp meshComp materialComp geometryComp lightComp
       cameraComp mesh mesh_needsUpdate material_needsUpdate
       geometry_needsUpdate light light_needsUpdate camera camera_needsUpdate
       with_mesh with_material_needsUpdate with_geometry_needsUpdate
       with_light with_light_needsUpdate with_camera
       mbind option_bind fmap option_fmap option_map
       mesh_of light_of camera_of hasComponent keeps] in H.

(** The state reached, as a record of explicit fields. *)
Ltac norm_state :=
  lazymatch goal with
  | |- post ?m ?s ?Q =>
    let s' := eval cbv beta iota delta
      [scene sys_camera enableShadows _isInitialized _frameCount world objects
       next_ref disposed rendered console set_scene set_sys_camera
       set_isInitialized set_frameCount set_world set_objects alloc
       set_disposed set_rendered set_console modify_entity entities] in s in
    change (post m s' Q)
  | |- _ => idtac
  end.

(** [H] is the entity before: [entities !! i = Some e]. *)
Ltac wp_simpl H :=
  cbv beta iota; norm_state; red_state; autorewrite with state; rewrite ?H;
  autorewrite with state; red_entity.

Ltac wp_unfold :=
  lazymatch goal with
  | |- post ?m ?s ?Q =>
    let m' := eval cbv beta delta
      [_processMeshEntity_try _processLightEntity_try _processCameraEntity_try
       _createMesh _createGeometry _createMaterial _updateMeshTransform
       _updateMeshMaterial _updateMeshGeometry _createLight _createLight_case
       _updateLightTransform _updateLightProperties _createCamera
       _updateCameraTransform] in m in
    progress change (post m' s Q)
  end.

Ltac wp_step H :=
  lazymatch goal with
  | |- post (bind _ _) _ _ => apply post_bind
  | |- post (ret _) _ _ => apply post_ret
  | |- post (read _) _ _ => apply post_read; wp_simpl H
  | |- post (write _) _ _ => apply post_write; wp_simpl H
  | |- post (getComponent _ _) _ _ => apply post_read; wp_simpl H
  | |- post (three _ _ _) _ _ => apply post_three; intros ?; wp_simpl H
  | |- post (three_new _ _ _) _ _ =>
    apply post_three_new; intros ?; wp_simpl H
  | |- post (try_catch _ _) _ _ => apply post_try_catch
  | |- post (dispose _ _) _ _ => apply post_three; intros ?; wp_simpl H
  | |- post (for_of _ (dispose _)) _ _ =>
    apply post_dispose_all; [intros ? ? ? ?|]; wp_simpl H
  | |- post (match ?x with _ => _ end) _ _ => destruct x eqn:?; red_entity
  | |- post (if ?x then _ else _) _ _ => destruct x eqn:?
  | |- post _ _ _ => wp_unfold
  end.

Ltac solve_store :=
  repeat first
    [ apply store_le_refl
    | apply store_le_insert; [lia|]
    | apply store_le_alter;
      [ first [ apply same_class_on_mesh | apply same_class_on_light
              | apply same_class_on_camera ] |] ].

Ltac solve_created :=
  repeat first
    [ apply created_nil
    | apply created_insert; [|by red_entity]
    | apply created_alter;
      [ intros ? ?;
        first [ apply owns_on_mesh | apply owns_on_light
              | apply owns_on_camera ] |] ].

Ltac solve_app :=
  rewrite <- ?app_assoc;
  first [ by exists []; rewrite app_nil_r | eexists; reflexivity ].

Ltac solve_logged :=
  first [ by left | right; eexists; split; [eassumption | reflexivity] ].

Ltac solve_step_facts H :=
  constructor; red_state;
  [ by autorewrite with state; rewrite ?H
  | constructor; red_entity; rewrite ?hasComponent_fmap;
    first [done | apply keeps_refl]
  | by intros j Hj; rewrite ?list_lookup_alter_ne by done
  | lia
  | solve_store
  | solve_created
  | first [ by left | right; eexists; split; [reflexivity | lia] ]
  | solve_logged
  | solve_app
  | done
  | done
  | done
  | done
  | done ].

Ltac solve_side := first [ lia | congruence | (intros ->; done) ].

Ltac solve_others_kept :=
  unfold others_kept, lookup_mesh, lookup_light, lookup_camera;
  intros ? ? ?; red_state;
  repeat match goal with
  | Hown : _ <> Some _ |- _ => progress red_entity_in Hown
  | Hlt : _ < next_ref _ |- _ => progress cbn [next_ref] in Hlt
  end;
  repeat first
    [ rewrite as_mesh_alter_on_light | rewrite as_mesh_alter_on_camera
    | rewrite as_light_alter_on_mesh | rewrite as_light_alter_on_camera
    | rewrite as_camera_alter_on_mesh | rewrite as_camera_alter_on_light
    | rewrite as_mesh_alter_ne by solve_side
    | rewrite as_light_alter_ne by solve_side
    | rewrite as_camera_alter_ne by solve_side
    | rewrite as_mesh_insert_ne by solve_side
    | rewrite as_light_insert_ne by solve_side
    | rewrite as_camera_insert_ne by solve_side ];
  reflexivity.

Ltac solve_object_or_logged :=
  intros Hkind; unfold object_or_logged; red_state; red_entity;
  first [ left; by eexists
        | right; eexists; split; [eassumption | reflexivity]
        | exfalso; cbn in Hkind;
          repeat match goal with b : bool |- _ => destruct b end; done ].

(** ** One entity *)

Lemma processMeshEntity_post i faulty s e :
  lookup_entity i s = Some e ->
  post (_processMeshEntity i faulty) s (mesh_step_post faulty i e s).
Proof.
  intros H.
  destruct s as [sc cam sh ini fc [[ents]|] objs n disp rend cons]; [|done].
  cbn [lookup_entity world entities] in H.
  destruct e as [eid act [t|] [[[m0|] nu]|] matc geoc lc cc].
  all: unfold _processMeshEntity; repeat wp_step H.
  all: split; [done|]; eexists; constructor;
    [ solve_step_facts H | done | solve_object_or_logged
    | solve_others_kept | solve_others_kept | solve_others_kept
    | done | done ].
Qed.

Lemma processLightEntity_post i faulty s e :
  lookup_entity i s = Some e ->
  post (_processLightEntity i faulty) s (light_step_post faulty i e s).
Proof.
  intros H.
  destruct s as [sc cam sh ini fc [[ents]|] objs n disp rend cons]; [|done].
  cbn [lookup_entity world entities] in H.
  destruct e as [eid act [t|] mc matc geoc [[lt lcol lint lcs [l0|] lnu]|] cc].
  all: unfold _processLightEntity; repeat wp_step H.
  all: split; [done|]; eexists; constructor;
    [ solve_step_facts H | done | solve_object_or_logged
    | solve_others_kept | solve_others_kept | solve_others_kept
    | done | done | done | done ].
Qed.

Lemma processCameraEntity_post i faulty s e :
  lookup_entity i s = Some e ->
  post (_processCameraEntity i faulty) s (camera_step_post faulty i e s).
Proof.
  intros H.
  destruct s as [sc cam sh ini fc [[ents]|] objs n disp rend cons]; [|done].
  cbn [lookup_entity world entities] in H.
  destruct e as
    [eid act [t|] mc matc geoc lc [[ct cfov casp cnear cfar [c0|] cnu]|]].
  all: unfold _processCameraEntity; repeat wp_step H.
  all: split; [done|]; eexists; constructor;
    [ solve_step_facts H
    | red_state; red_entity;
      first
        [ right; split; [by eexists | done]
        | left; split; [done|]; intros Hkind;
          first [ eexists; eassumption
                | exfalso; cbn in Hkind;
                  repeat match goal with b : bool |- _ => destruct b end;
                  done ] ]
    | solve_object_or_logged
    | solve_others_kept | solve_others_kept | solve_others_kept
    | done | done | done | done ].
Qed.

(** ** Evolution of the state *)

Lemma keeps_trans a b c : keeps a b -> keeps b c -> keeps a c.
Proof. destruct a; cbn; [by intros ->|done]. Qed.

Lemma entity_evolves_refl e : entity_evolves e e.
Proof. constructor; auto using keeps_refl. Qed.

Lemma entity_evolves_trans e1 e2 e3 :
  entity_evolves e1 e2 -> entity_evolves e2 e3 -> entity_evolves e1 e3.
Proof. intros [] []. constructor; try congruence; eauto using keeps_trans. Qed.

Lemma is_mesh_entity_evolves e e' :
  entity_evolves e e' -> is_mesh_entity e' = is_mesh_entity e.
Proof. intros []. unfold is_mesh_entity. congruence. Qed.

Lemma is_light_entity_evolves e e' :
  entity_evolves e e' -> is_light_entity e' = is_light_entity e.
Proof. intros []. unfold is_light_entity. congruence. Qed.

Lemma is_camera_entity_evolves e e' :
  entity_evolves e e' -> is_camera_entity e' = is_camera_entity e.
Proof. intros []. unfold is_camera_entity. congruence. Qed.

Lemma owns_same_class e e' r o o' :
  same_class (Some o) (Some o') -> owns e e' r o -> owns e e' r o'.
Proof. by destruct o, o'. Qed.

Lemma owns_later e e1 e2 r o :
  owns e e1 r o -> entity_evolves e1 e2 -> owns e e2 r o.
Proof.
  intros Ho [_ _ _ _ _ _ _ _ Hm Hl Hc].
  destruct o; cbn in *; try done; destruct Ho as [? Hr]; split; try done.
  - by rewrite Hr in Hm.
  - by rewrite Hr in Hl.
  - by rewrite Hr in Hc.
Qed.

Lemma keeps_None a b : keeps a b -> b = None -> a = None.
Proof. destruct a; cbn; [congruence|done]. Qed.

Lemma owns_earlier e0 e1 e2 r o :
  entity_evolves e0 e1 -> owns e1 e2 r o -> owns e0 e2 r o.
Proof.
  intros [_ _ _ _ _ _ _ _ Hm Hl Hc] Ho.
  destruct o; cbn in *; try done; destruct Ho as [Hn Hr]; split; try done;
    eauto using keeps_None.
Qed.

Lemma evolves_refl s : evolves s s.
Proof.
  constructor; try done.
  - intros j e Hj. eauto using entity_evolves_refl.
  - eauto.
  - intros r _. apply same_class_refl.
  - intros r o Hr. lia.
  - exists []. by rewrite app_nil_r; split_and!; constructor.
  - exists []. by rewrite app_nil_r.
  - exists []. by rewrite app_nil_r.
Qed.

Lemma evolves_trans s1 s2 s3 : evolves s1 s2 -> evolves s2 s3 -> evolves s1 s3.
Proof.
  intros [He1 Hb1 Hn1 Ho1 Hc1 (a1 & Hs1 & Hd1 & Hr1) (l1 & Hl1) (d1 & Hdi1) ? ? ?]
         [He2 Hb2 Hn2 Ho2 Hc2 (a2 & Hs2 & Hd2 & Hr2) (l2 & Hl2) (d2 & Hdi2) ? ? ?].
  constructor; try congruence.
  - intros j e Hj. destruct (He1 j e Hj) as (e' & Hj' & Hee').
    destruct (He2 j e' Hj') as (e'' & Hj'' & Hee''). 
    eauto using entity_evolves_trans.
  - intros j e'' Hj. destruct (Hb2 j e'' Hj) as (e' & Hj'). eauto.
  - lia.
  - intros r Hr. eapply same_class_trans; [by apply Ho1|apply Ho2; lia].
  - intros r o Hr Ho. destruct (decide (r < next_ref s2)) as [Hlt|Hge].
    + assert (Hsc : same_class (objects s2 !! r) (Some o)).
      { rewrite <- Ho. by apply Ho2. }
      destruct (objects s2 !! r) as [o2|] eqn:Ho2r; [|done].
      destruct (Hc1 r o2) as (j & e & e' & Hj & Hj' & Hown); [lia|done|].
      destruct (He2 j e' Hj') as (e'' & Hj'' & Hee'').
      exists j, e, e''. split_and!; try done.
      eapply owns_same_class; [done|]. by eapply owns_later.
    + destruct (Hc2 r o) as (j & e' & e'' & Hj' & Hj'' & Hown); [lia|done|].
      destruct (Hb1 j e' Hj') as (e & Hj).
      destruct (He1 j e Hj) as (e1 & Hj1 & Hee1). simplify_eq.
      exists j, e, e''. split_and!; try done. by eapply owns_earlier.
  - exists (a1 ++ a2). rewrite Hs2, Hs1, app_assoc. split_and!; [done| |].
    + apply NoDup_app. split_and!; [done| |done].
      intros r Hr1' Hr2'.
      rewrite Forall_forall in Hr1, Hr2.
      specialize (Hr1 r Hr1'). specialize (Hr2 r Hr2'). lia.
    + apply Forall_app. split.
      * eapply Forall_impl; [done|]. cbn. intros; lia.
      * eapply Forall_impl; [done|]. cbn. intros; lia.
  - exists (l1 ++ l2). by rewrite Hl2, Hl1, app_assoc.
  - exists (d1 ++ d2). by rewrite Hdi2, Hdi1, app_assoc.
Qed.

Lemma step_facts_evolves faulty entry i e s e' s' :
  lookup_entity i s = Some e ->
  step_facts faulty entry i e s e' s' -> evolves s s'.
Proof.
  intros Hi [Hl He Hoth Hn Ho Hc Hsc Hco Hd ? ? ? ? ?]. constructor; try done.
  - intros j ej Hj. destruct (decide (i = j)) as [<-|Hne].
    + simplify_eq. eauto.
    + exists ej. rewrite Hoth by done. eauto using entity_evolves_refl.
  - intros j ej' Hj. destruct (decide (i = j)) as [<-|Hne]; [eauto|].
    rewrite Hoth in Hj by done. eauto.
  - intros r o Hr Hro. exists i, e, e'. split_and!; try done. by apply Hc.
  - destruct Hsc as [Hsc|(r & Hsc & Hr)]; rewrite Hsc.
    + exists []. by rewrite app_nil_r; split_and!; constructor.
    + exists [r]. split_and!; [done|apply NoDup_singleton|by constructor].
  - destruct Hco as [Hco|(err & _ & Hco)]; rewrite Hco; [|eauto].
    exists []. by rewrite app_nil_r.
Qed.


Lemma kept_refl {X} (part : Entity -> X) s : kept part s s.
Proof. intros j e Hj. eauto. Qed.

Lemma kept_trans {X} (part : Entity -> X) s1 s2 s3 :
  kept part s1 s2 -> kept part s2 s3 -> kept part s1 s3.
Proof.
  intros H1 H2 j e Hj. destruct (H1 j e Hj) as (e' & Hj' & He').
  destruct (H2 j e' Hj') as (e'' & Hj'' & He''). exists e''. split; congruence.
Qed.

Lemma kept_step {X} (part : Entity -> X) faulty entry i e s e' s' :
  lookup_entity i s = Some e ->
  step_facts faulty entry i e s e' s' -> part e' = part e -> kept part s s'.
Proof.
  intros Hi [Hl _ Hoth _ _ _ _ _ _ _ _ _ _ _] Hp j ej Hj.
  destruct (decide (i = j)) as [<-|Hne].
  - simplify_eq. eauto.
  - exists ej. by rewrite Hoth.
Qed.

(** ** The entities a pass selects *)

Lemma elem_of_filter_from p k l j :
  j ∈ filter_from p k l <->
  exists e, k <= j /\ l !! (j - k) = Some e /\ p e = true.
Proof.
  revert k. induction l as [|e l IH]; intros k; cbn.
  - split; [by intros ?%elem_of_nil|by intros (? & ? & ? & ?)].
  - assert (Hcons : j ∈ filter_from p (S k) l <->
      exists e', S k <= j /\ (e :: l) !! (j - k) = Some e' /\ p e' = true).
    { rewrite IH. split; intros (e' & Hk & Hl & Hp); exists e';
        (split_and!; [lia| |done]).
      - by replace (j - k) with (S (j - S k)) by lia.
      - by replace (j - k) with (S (j - S k)) in Hl by lia. }
    destruct (p e) eqn:Hpe.
    + rewrite elem_of_cons, Hcons. split.
      * intros [->|(e' & Hk & Hl & Hp)].
        -- exists e. by rewrite Nat.sub_diag.
        -- exists e'. split_and!; [lia|done|done].
      * intros (e' & Hk & Hl & Hp). destruct (decide (j = k)) as [->|Hne];
          [by left|]. right. exists e'. split_and!; [lia|done|done].
    + rewrite Hcons. split.
      * intros (e' & Hk & Hl & Hp). exists e'. split_and!; [lia|done|done].
      * intros (e' & Hk & Hl & Hp). exists e'. split_and!; [|done|done].
        destruct (decide (j = k)) as [->|Hne]; [|lia].
        rewrite Nat.sub_diag in Hl. cbn in Hl. congruence.
Qed.

Lemma NoDup_filter_from p k l : NoDup (filter_from p k l).
Proof.
  revert k. induction l as [|e l IH]; intros k; cbn; [constructor|].
  destruct (p e); [|done]. constructor; [|done].
  rewrite elem_of_filter_from. intros (? & ? & _). lia.
Qed.

Lemma elem_of_entities_filter p w j :
  j ∈ entities_filter p w <-> exists e, entities w !! j = Some e /\ p e = true.
Proof.
  unfold entities_filter. rewrite elem_of_filter_from, Nat.sub_0_r.
  split; intros (e & ?); exists e; [tauto|]. split_and!; [lia|tauto|tauto].
Qed.

Lemma filter_from_head p k l j rest :
  filter_from p k l = j :: rest ->
  forall j' e', k <= j' -> l !! (j' - k) = Some e' -> p e' = true -> j <= j'.
Proof.
  revert k. induction l as [|e l IH]; intros k; cbn; [done|].
  destruct (p e) eqn:Hpe.
  - intros [= <- _] j' e' Hk _ _. done.
  - intros Hf j' e' Hk Hl Hp. destruct (decide (j' = k)) as [->|Hne].
    + rewrite Nat.sub_diag in Hl. cbn in Hl. congruence.
    + apply (IH (S k) Hf j' e'); [lia| |done].
      by replace (j' - k) with (S (j' - S k)) in Hl by lia.
Qed.

Lemma first_entity_Some p s i :
  first_entity p s = Some i ->
  (exists e, lookup_entity i s = Some e /\ p e = true) /\
  forall j e, lookup_entity j s = Some e -> p e = true -> i <= j.
Proof.
  unfold first_entity, lookup_entity. destruct (world s) as [w|]; [|done].
  destruct (entities_filter p w) as [|i' rest] eqn:Hf; [done|].
  intros [= ->]. split.
  - apply elem_of_entities_filter. rewrite Hf. by left.
  - intros j e Hj Hp. unfold entities_filter in Hf.
    apply (filter_from_head _ _ _ _ _ Hf j e); [lia| |done].
    by rewrite Nat.sub_0_r.
Qed.

Lemma first_entity_None p s i e :
  first_entity p s = None -> lookup_entity i s = Some e -> p e = false.
Proof.
  unfold first_entity, lookup_entity. destruct (world s) as [w|]; [|done].
  intros Hh Hi. destruct (p e) eqn:Hp; [|done].
  assert (Hin : i ∈ entities_filter p w).
  { apply elem_of_entities_filter. eauto. }
  destruct (entities_filter p w); [by apply elem_of_nil in Hin|done].
Qed.

(** ** A pass over the selected entities *)

Lemma processed_later entry object faulty i s0 s s' :
  evolves s0 s -> 
  processed entry object faulty i s0 s ->
  lookup_entity i s' = lookup_entity i s ->
  (exists log, console s' = console s ++ log) ->
  processed entry object faulty i s0 s'.
Proof.
  intros Hev (e1 & Hi & Hp) Hi' (log & Hlog). exists e1. split; [congruence|].
  destruct Hp as [?|(err & Herr & Hin)]; [by left|right].
  exists err. split; [done|].
  destruct (evolves_console _ _ Hev) as (log0 & Hlog0).
  rewrite Hlog, Hlog0, <- app_assoc, drop_app_length.
  rewrite Hlog0, drop_app_length in Hin. apply elem_of_app. by left.
Qed.

Section Pass.
Context (F : Faults) (body : nat -> JS unit)
  (entry : nat -> Site -> LogEntry) (object : Entity -> option ref)
  (own_mesh own_light own_camera : Entity -> option ref)
  (p : Entity -> bool) (T : State -> State -> Prop).
Hypothesis T_refl : forall s, T s s.
Hypothesis T_trans : forall s1 s2 s3, T s1 s2 -> T s2 s3 -> T s1 s3.
Hypothesis body_post : forall i s e, lookup_entity i s = Some e ->
  post (body i) s (fun c s' => c = Normal tt /\ exists e',
    step_facts (entity_fault F i) (entry (id e)) i e s e' s' /\
    sys_camera s' = sys_camera s /\
    (p e = true ->
     object_or_logged (entity_fault F i) (entry (id e)) (object e') s s') /\
    others_kept lookup_mesh (own_mesh e) s s' /\
    others_kept lookup_light (own_light e) s s' /\
    others_kept lookup_camera (own_camera e) s s' /\
    T s s').

Let facts := pass_facts entry object own_mesh own_light own_camera T F.

Lemma pass_facts_nil s : facts [] s s.
Proof.
  constructor; try done.
  - apply evolves_refl.
  - intros i Hi. by apply elem_of_nil in Hi.
Qed.

Lemma unowned_kept_step {O} (lookup : ref -> State -> option O) own
    done x s0 s s' e :
  evolves s0 s ->
  lookup_entity x s = Some e -> lookup_entity x s0 = Some e ->
  unowned_kept lookup own done s0 s ->
  others_kept lookup (own e) s s' ->
  unowned_kept lookup own (done ++ [x]) s0 s'.
Proof.
  intros Hev Hx Hx0 Hdone Hstep r Hr Hown.
  rewrite Hstep.
  - apply Hdone; [done|]. intros j ej Hj. apply Hown, elem_of_app. by left.
  - pose proof (evolves_next_ref _ _ Hev). lia.
  - apply (Hown x e); [|done]. apply elem_of_app. right. by left.
Qed.

Lemma pass_facts_step done x s0 s e :
  x ∉ done -> lookup_entity x s0 = Some e -> p e = true ->
  facts done s0 s ->
  post (body x) s (fun c s' => c = Normal tt /\ facts (done ++ [x]) s0 s').
Proof.
  intros Hx Hx0 Hp [Hev HT Hoth Hproc Hm Hl Hc Hcam Hfc Hre].
  assert (Hxs : lookup_entity x s = Some e) by (by rewrite Hoth).
  eapply post_mono; [by apply body_post|].
  intros c s' (-> & e' & Hsf & Hcam' & Hlog & Hm' & Hl' & Hc' & HT').
  split; [done|].
  pose proof (step_facts_evolves _ _ _ _ _ _ _ Hxs Hsf) as Hev'.
  destruct Hsf as [Hl1 He1 Hoth1 Hn1 Ho1 Hc1 Hsc1 Hco1 Hd1 ? ? ? ? ?].
  constructor; try congruence.
  - by eapply evolves_trans.
  - by eapply T_trans.
  - intros j Hj. rewrite not_elem_of_app, not_elem_of_cons in Hj.
    destruct Hj as (Hj & Hne & _). rewrite Hoth1 by done. by apply Hoth.
  - intros i [Hi|Hi%list_elem_of_singleton]%elem_of_app.
    + eapply processed_later; [done|by apply Hproc| |].
      * apply Hoth1. intros ->. done.
      * apply (evolves_console _ _ Hev').
    + subst i. exists e'. split; [done|].
      destruct (Hlog Hp) as [?|(err & Herr & Hcons)]; [by left|right].
      exists err. split; [done|].
      destruct (evolves_console _ _ Hev) as (log0 & Hlog0).
      rewrite Hcons, Hlog0, <- app_assoc, drop_app_length.
      rewrite (ev_id _ _ He1). apply elem_of_app. right. by left.
  - by eapply unowned_kept_step.
  - by eapply unowned_kept_step.
  - by eapply unowned_kept_step.
Qed.

Lemma pass_post s w :
  world s = Some w ->
  post (for_of (entities_filter p w) body) s
    (fun c s' => c = Normal tt /\ facts (entities_filter p w) s s').
Proof.
  intros Hw. apply (post_for_of _ _ (fun done s' => facts done s s')).
  - apply pass_facts_nil.
  - intros done x rest s1 Hl Hdone.
    assert (Hin : x ∈ entities_filter p w).
    { rewrite Hl. apply elem_of_app. right. by left. }
    apply elem_of_entities_filter in Hin as (e & He & Hp).
    apply (pass_facts_step done x s s1 e); [|by unfold lookup_entity; rewrite Hw|done|done].
    pose proof (NoDup_filter_from p 0 (entities w)) as Hnd.
    fold (entities_filter p w) in Hnd. rewrite Hl in Hnd.
    apply NoDup_app in Hnd as (_ & Hnd & _). intros Hx.
    apply (Hnd x Hx). by left.
Qed.
End Pass.

(** ** The three passes *)

Lemma mesh_pass_kept_refl s : mesh_pass_kept s s.
Proof. split; apply kept_refl. Qed.

Lemma mesh_pass_kept_trans s1 s2 s3 :
  mesh_pass_kept s1 s2 -> mesh_pass_kept s2 s3 -> mesh_pass_kept s1 s3.
Proof. intros [] []. split; by eapply kept_trans. Qed.

Lemma light_pass_kept_refl s : light_pass_kept s s.
Proof. repeat split; apply kept_refl. Qed.

Lemma light_pass_kept_trans s1 s2 s3 :
  light_pass_kept s1 s2 -> light_pass_kept s2 s3 -> light_pass_kept s1 s3.
Proof. intros (? & ? & ? & ?) (? & ? & ? & ?). repeat split; by eapply kept_trans. Qed.

Lemma camera_pass_kept_refl s : camera_pass_kept s s.
Proof. repeat split; apply kept_refl. Qed.

Lemma processMeshEntities_post F s w :
  world s = Some w ->
  post (_processMeshEntities F) s (fun c s' =>
    c = Normal tt /\
    mesh_pass_facts F (entities_filter is_mesh_entity w) s s').
Proof.
  intros Hw. unfold _processMeshEntities.
  apply post_bind, post_read. rewrite Hw.
  apply pass_post;
    [apply mesh_pass_kept_refl|apply mesh_pass_kept_trans| |done].
  intros i s1 e Hi. eapply post_mono; [by apply processMeshEntity_post|].
  intros c s' (-> & e' & []). split; [done|]. exists e'.
  split_and!; try done. split; by eapply kept_step.
Qed.

Lemma processLightEntities_post F s w :
  world s = Some w ->
  post (_processLightEntities F) s (fun c s' =>
    c = Normal tt /\
    light_pass_facts F (entities_filter is_light_entity w) s s').
Proof.
  intros Hw. unfold _processLightEntities.
  apply post_bind, post_read. rewrite Hw.
  apply pass_post;
    [apply light_pass_kept_refl|apply light_pass_kept_trans| |done].
  intros i s1 e Hi. eapply post_mono; [by apply processLightEntity_post|].
  intros c s' (-> & e' & []). split; [done|]. exists e'.
  split_and!; try done. repeat split; by eapply kept_step.
Qed.

Lemma camera_pass_facts_refl F s :
  first_entity is_camera_entity s = None -> camera_pass_facts F s s.
Proof.
  intros Hnone. constructor; try done.
  - apply evolves_refl.
  - apply camera_pass_kept_refl.
  - intros i Hi. congruence.
  - left. split; [done|]. intros i Hi. congruence.
Qed.

Lemma processCameraEntities_post F s w :
  world s = Some w ->
  post (_processCameraEntities F) s (fun c s' =>
    c = Normal tt /\ camera_pass_facts F s s').
Proof.
  intros Hw. unfold _processCameraEntities.
  apply post_bind, post_read. rewrite Hw.
  destruct (entities_filter is_camera_entity w) as [|i rest] eqn:Hf.
  { apply post_ret. split; [done|]. apply camera_pass_facts_refl.
    unfold first_entity. by rewrite Hw, Hf. }
  assert (Hfirst : first_entity is_camera_entity s = Some i).
  { unfold first_entity. by rewrite Hw, Hf. }
  destruct (first_entity_Some _ _ _ Hfirst) as ((e & Hi & Hp) & _).
  eapply post_mono; [by apply processCameraEntity_post|].
  intros c s' (-> & e' & [Hsf Hcam Hproc Hm Hl Hc ? ? ? ?]). split; [done|].
  pose proof (step_facts_evolves _ _ _ _ _ _ _ Hi Hsf) as Hev.
  constructor.
  - done.
  - repeat split; by eapply kept_step.
  - intros j Hj. apply (sf_others _ _ _ _ _ _ _ Hsf). congruence.
  - intros i' Hi'. rewrite Hfirst in Hi'. simplify_eq.
    exists e'. split; [apply (sf_lookup _ _ _ _ _ _ _ Hsf)|].
    destruct (Hproc Hp) as [?|(err & Herr & Hcons)]; [by left|right].
    exists err. split; [done|].
    rewrite Hcons, drop_app_length, (ev_id _ _ (sf_entity _ _ _ _ _ _ _ Hsf)).
    by left.
  - destruct Hcam as [[? Herr]|[? ?]]; [left|right].
    + split; [done|]. intros i' Hi'. rewrite Hfirst in Hi'. simplify_eq.
      by apply Herr.
    + exists i, e'. split_and!; try done. apply (sf_lookup _ _ _ _ _ _ _ Hsf).
  - intros r Hr. by apply Hm.
  - intros r Hr. by apply Hl.
  - intros r Hr Hown. apply Hc; [done|]. by apply (Hown i e).
  - apply (sf_frameCount _ _ _ _ _ _ _ Hsf).
  - apply (sf_rendered _ _ _ _ _ _ _ Hsf).
Qed.

(** ** Selection does not depend on what processing changes *)

Lemma filter_from_evolves p k l l' :
  (forall e e', entity_evolves e e' -> p e' = p e) ->
  Forall2 entity_evolves l l' ->
  filter_from p k l' = filter_from p k l.
Proof.
  intros Hp H. revert k. induction H as [|e e' l l' He _ IH]; intros k; [done|].
  cbn. rewrite (Hp e e' He). destruct (p e); by rewrite IH.
Qed.

Lemma evolves_Forall2 s s' w :
  evolves s s' -> world s = Some w ->
  exists w', world s' = Some w' /\
    Forall2 entity_evolves (entities w) (entities w').
Proof.
  intros Hev Hw.
  pose proof (evolves_entities _ _ Hev) as Hf.
  pose proof (evolves_entities_back _ _ Hev) as Hb.
  pose proof (evolves_world _ _ Hev) as Hworld.
  unfold lookup_entity in Hf, Hb. rewrite Hw in Hf, Hb, Hworld.
  destruct (world s') as [w'|]; [|done].
  exists w'. split; [done|]. apply Forall2_same_length_lookup. split.
  - apply Nat.le_antisymm.
    + destruct (decide (length (entities w) <= length (entities w')));
        [done|].
      destruct (lookup_lt_is_Some_2 (entities w) (length (entities w')))
        as [e He]; [lia|].
      destruct (Hf _ _ He) as (e' & He' & _).
      apply lookup_lt_Some in He'. lia.
    + destruct (decide (length (entities w') <= length (entities w)));
        [done|].
      destruct (lookup_lt_is_Some_2 (entities w') (length (entities w)))
        as [e' He']; [lia|].
      destruct (Hb _ _ He') as (e & He).
      apply lookup_lt_Some in He. lia.
  - intros j e e' He He'. destruct (Hf _ _ He) as (e1 & He1 & Hee).
    by simplify_eq.
Qed.

Lemma entities_filter_evolves p s s' w w' :
  (forall e e', entity_evolves e e' -> p e' = p e) ->
  evolves s s' -> world s = Some w -> world s' = Some w' ->
  entities_filter p w' = entities_filter p w.
Proof.
  intros Hp Hev Hw Hw'.
  destruct (evolves_Forall2 _ _ _ Hev Hw) as (w1 & Hw1 & HF). simplify_eq.
  by apply filter_from_evolves.
Qed.

Lemma first_entity_evolves p s s' :
  (forall e e', entity_evolves e e' -> p e' = p e) ->
  evolves s s' -> first_entity p s' = first_entity p s.
Proof.
  intros Hp Hev. unfold first_entity.
  pose proof (evolves_world _ _ Hev) as Hworld.
  destruct (world s) as [w|] eqn:Hw, (world s') as [w'|] eqn:Hw'; try done.
  by rewrite (entities_filter_evolves p s s' w w').
Qed.

(** ** One frame *)

Lemma processed_evolves entry object faulty i s0 s s' :
  (forall e e', entity_evolves e e' -> keeps (object e) (object e')) ->
  evolves s0 s -> processed entry object faulty i s0 s -> evolves s s' ->
  processed entry object faulty i s0 s'.
Proof.
  intros Hobj Hev0 (e1 & Hi & Hp) Hev.
  destruct (evolves_entities _ _ Hev i e1 Hi) as (e2 & Hi2 & Hee).
  exists e2. split; [done|].
  destruct Hp as [[r Hr]|(err & Herr & Hin)].
  - left. exists r. specialize (Hobj _ _ Hee). by rewrite Hr in Hobj.
  - right. exists err. split; [done|]. rewrite (ev_id _ _ Hee).
    destruct (evolves_console _ _ Hev0) as (log0 & Hlog0).
    destruct (evolves_console _ _ Hev) as (log & Hlog).
    rewrite Hlog, Hlog0, <- app_assoc, drop_app_length.
    rewrite Hlog0, drop_app_length in Hin. apply elem_of_app. by left.
Qed.

Lemma processed_earlier entry object faulty i s0 s1 s2 :
  evolves s0 s1 -> evolves s1 s2 ->
  processed entry object faulty i s1 s2 ->
  processed entry object faulty i s0 s2.
Proof.
  intros Hev0 Hev (e2 & Hi & Hp). exists e2. split; [done|].
  destruct Hp as [?|(err & Herr & Hin)]; [by left|right].
  exists err. split; [done|].
  destruct (evolves_console _ _ Hev0) as (log0 & Hlog0).
  destruct (evolves_console _ _ Hev) as (log & Hlog).
  rewrite Hlog, drop_app_length in Hin.
  rewrite Hlog, Hlog0, <- app_assoc, drop_app_length.
  apply elem_of_app. by right.
Qed.

Lemma evolves_set_frameCount n s : evolves s (set_frameCount n s).
Proof.
  constructor; try done.
  - intros j e Hj. eauto using entity_evolves_refl.
  - eauto.
  - intros r _. apply same_class_refl.
  - intros r o Hr. cbn in Hr. lia.
  - exists []. by rewrite app_nil_r; split_and!; constructor.
  - exists []. by rewrite app_nil_r.
  - exists []. by rewrite app_nil_r.
Qed.

Lemma evolves_set_console l s : evolves s (set_console (fun c => c ++ l) s).
Proof.
  constructor; try done.
  - intros j e Hj. eauto using entity_evolves_refl.
  - eauto.
  - intros r _. apply same_class_refl.
  - intros r o Hr. cbn in Hr. lia.
  - exists []. by rewrite app_nil_r; split_and!; constructor.
  - by exists l.
  - exists []. by rewrite app_nil_r.
Qed.

Lemma evolves_set_rendered f s : evolves s (set_rendered f s).
Proof.
  constructor; try done.
  - intros j e Hj. eauto using entity_evolves_refl.
  - eauto.
  - intros r _. apply same_class_refl.
  - intros r o Hr. cbn in Hr. lia.
  - exists []. by rewrite app_nil_r; split_and!; constructor.
  - exists []. by rewrite app_nil_r.
  - exists []. by rewrite app_nil_r.
Qed.

Lemma render_post F s : post (_render F) s (render_facts F s).
Proof.
  unfold _render. apply post_bind, post_read.
  destruct (sys_camera s) as [cam|] eqn:Hcam.
  - apply post_bind, post_read, post_three; intros HF.
    + constructor; try done; try congruence; [by right|apply evolves_refl].
    + constructor; try done; try congruence; try (by intros);
        [by left|apply evolves_set_rendered|].
      intros cam' _ ?. by simplify_eq.
  - apply post_write.
    constructor; try done; try (intros; congruence); try (by intros [? ?]).
    + by left.
    + apply evolves_set_console.
    + rewrite Hcam. by intros [? ?].
    + rewrite Hcam. by intros _ [? ?].
Qed.

Lemma keeps_mesh_of e e' : entity_evolves e e' -> keeps (mesh_of e) (mesh_of e').
Proof. by intros []. Qed.

Lemma keeps_light_of e e' :
  entity_evolves e e' -> keeps (light_of e) (light_of e').
Proof. by intros []. Qed.

Lemma keeps_camera_of e e' :
  entity_evolves e e' -> keeps (camera_of e) (camera_of e').
Proof. by intros []. Qed.

Lemma lookup_entity_Some_world i s e :
  lookup_entity i s = Some e ->
  exists w, world s = Some w /\ entities w !! i = Some e.
Proof. unfold lookup_entity. destruct (world s); [eauto|done]. Qed.

(** The frame up to rendering, from the state [s] the passes start in. *)
Lemma passes_post F s w :
  world s = Some w ->
  post (_processMeshEntities F ;; _processLightEntities F ;;
        _processCameraEntities F ;; _render F) s (update_facts F s).
Proof.
  intros Hw.
  apply post_bind.
  eapply post_mono; [apply (processMeshEntities_post F s w Hw)|].
  intros c s1 (-> & Hmesh).
  pose proof (pf_evolves _ _ _ _ _ _ _ _ _ _ Hmesh) as Hev1.
  destruct (evolves_Forall2 _ _ _ Hev1 Hw) as (w1 & Hw1 & HF1).
  apply post_bind.
  eapply post_mono; [apply (processLightEntities_post F s1 w1 Hw1)|].
  intros c s2 (-> & Hlight).
  pose proof (pf_evolves _ _ _ _ _ _ _ _ _ _ Hlight) as Hev2.
  pose proof (evolves_trans _ _ _ Hev1 Hev2) as Hev12.
  destruct (evolves_Forall2 _ _ _ Hev12 Hw) as (w2 & Hw2 & HF2).
  apply post_bind.
  eapply post_mono; [apply (processCameraEntities_post F s2 w2 Hw2)|].
  intros c s3 (-> & Hcam).
  pose proof (cp_evolves _ _ _ Hcam) as Hev3.
  pose proof (evolves_trans _ _ _ Hev12 Hev3) as Hev123.
  eapply post_mono; [apply render_post|].
  intros c s4 [Hc Hev4 Hent4 Hcam4 Hobj4 _ _ _ _ _ _].
  pose proof (evolves_trans _ _ _ Hev3 Hev4) as Hev34.
  pose proof (evolves_trans _ _ _ Hev2 Hev34) as Hev234.
  assert (Hfirst : first_entity is_camera_entity s2
                   = first_entity is_camera_entity s).
  { apply first_entity_evolves; [apply is_camera_entity_evolves|done]. }
  constructor.
  - destruct Hc as [?|(? & ? & _)]; [by left|by right].
  - by eapply evolves_trans.
  - intros i e Hi Hp.
    apply (processed_evolves _ _ _ _ s s1 s4);
      [apply keeps_mesh_of|done| |done].
    apply (pf_processed _ _ _ _ _ _ _ _ _ _ Hmesh).
    apply elem_of_entities_filter. exists e. split; [|done].
    unfold lookup_entity in Hi. by rewrite Hw in Hi.
  - intros i e Hi Hp.
    destruct (evolves_entities _ _ Hev1 i e Hi) as (e1 & Hi1 & Hee1).
    apply (processed_earlier _ _ _ _ s s1 s4); [done|done|].
    apply (processed_evolves _ _ _ _ s1 s2 s4);
      [apply keeps_light_of|done| |done].
    apply (pf_processed _ _ _ _ _ _ _ _ _ _ Hlight).
    apply elem_of_entities_filter. exists e1. split.
    + unfold lookup_entity in Hi1. by rewrite Hw1 in Hi1.
    + by rewrite (is_light_entity_evolves _ _ Hee1).
  - intros i Hi. rewrite <- Hfirst in Hi.
    apply (processed_earlier _ _ _ _ s s2 s4); [done|done|].
    apply (processed_evolves _ _ _ _ s2 s3 s4);
      [apply keeps_camera_of|done| |done].
    by apply (cp_processed _ _ _ Hcam).
  - intros j e Hj Hm Hl Hc'.
    rewrite Hent4, (cp_others _ _ _ Hcam) by congruence.
    assert (Hj1 : lookup_entity j s1 = Some e).
    { rewrite (pf_others _ _ _ _ _ _ _ _ _ _ Hmesh); [done|].
      rewrite elem_of_entities_filter. intros (e' & He' & Hp').
      unfold lookup_entity in Hj. rewrite Hw in Hj. congruence. }
    rewrite (pf_others _ _ _ _ _ _ _ _ _ _ Hlight); [done|].
    rewrite elem_of_entities_filter. intros (e' & He' & Hp').
    unfold lookup_entity in Hj1. rewrite Hw1 in Hj1. congruence.
  - intros j e Hj Hc'.
    destruct (pf_T _ _ _ _ _ _ _ _ _ _ Hmesh) as [_ Hk1].
    destruct (pf_T _ _ _ _ _ _ _ _ _ _ Hlight) as (_ & _ & _ & Hk2).
    destruct (Hk1 j e Hj) as (e1 & Hj1 & He1).
    destruct (Hk2 j e1 Hj1) as (e2 & Hj2 & He2).
    exists e2. split; [|congruence].
    rewrite Hent4, (cp_others _ _ _ Hcam) by congruence. done.
  - intros j e Hj Hm.
    assert (Hj1 : lookup_entity j s1 = Some e).
    { rewrite (pf_others _ _ _ _ _ _ _ _ _ _ Hmesh); [done|].
      rewrite elem_of_entities_filter. intros (e' & He' & Hp').
      unfold lookup_entity in Hj. rewrite Hw in Hj. congruence. }
    destruct (pf_T _ _ _ _ _ _ _ _ _ _ Hlight) as (Hk1 & Hk2 & Hk3 & _).
    destruct (cp_kept _ _ _ Hcam) as (Hc1 & Hc2 & Hc3 & _).
    destruct (Hk1 j e Hj1) as (e2 & Hj2 & He2).
    destruct (Hk2 j e Hj1) as (e2' & Hj2' & He2').
    destruct (Hk3 j e Hj1) as (e2'' & Hj2'' & He2'').
    destruct (Hc1 j e2 Hj2) as (e3 & Hj3 & He3).
    destruct (Hc2 j e2 Hj2) as (e3' & Hj3' & He3').
    destruct (Hc3 j e2 Hj2) as (e3'' & Hj3'' & He3'').
    simplify_eq. exists e3. rewrite Hent4. split_and!; congruence.
  - intros j e Hj Hl.
    destruct (pf_T _ _ _ _ _ _ _ _ _ _ Hmesh) as [Hk1 _].
    destruct (cp_kept _ _ _ Hcam) as (_ & _ & _ & Hc4).
    destruct (Hk1 j e Hj) as (e1 & Hj1 & He1).
    assert (Hj2 : lookup_entity j s2 = Some e1).
    { rewrite (pf_others _ _ _ _ _ _ _ _ _ _ Hlight); [done|].
      rewrite elem_of_entities_filter. intros (e' & He' & Hp').
      unfold lookup_entity in Hj1. rewrite Hw1 in Hj1. simplify_eq.
      destruct (evolves_entities _ _ Hev1 j e Hj) as (e1' & Hj1' & Hee1).
      unfold lookup_entity in Hj1'. rewrite Hw1 in Hj1'. simplify_eq.
      rewrite (is_light_entity_evolves _ _ Hee1) in Hp'. congruence. }
    destruct (Hc4 j e1 Hj2) as (e3 & Hj3 & He3).
    exists e3. rewrite Hent4. split; congruence.
  - rewrite Hcam4.
    destruct (cp_sys_camera _ _ _ Hcam)
      as [[Hsame Herr]|(i & e' & Hi & Hl & Hs & Heq)].
    + left. split.
      * rewrite Hsame, (pf_sys_camera _ _ _ _ _ _ _ _ _ _ Hlight).
        apply (pf_sys_camera _ _ _ _ _ _ _ _ _ _ Hmesh).
      * intros i Hi. apply Herr. congruence.
    + right. exists i, e'. split_and!; try done; [congruence|].
      by rewrite Hent4.
  - intros r Hr Hown.
    pose proof (evolves_next_ref _ _ Hev1) as Hn1.
    pose proof (evolves_next_ref _ _ Hev2) as Hn2.
    unfold lookup_mesh at 1. rewrite Hobj4. fold (lookup_mesh r s3).
    rewrite (cp_meshes _ _ _ Hcam) by lia.
    rewrite (pf_meshes _ _ _ _ _ _ _ _ _ _ Hlight) by (done || lia).
    apply (pf_meshes _ _ _ _ _ _ _ _ _ _ Hmesh); [done|].
    intros j e Hj He. apply (Hown j e He).
    apply elem_of_entities_filter in Hj as (e' & He' & Hp').
    unfold lookup_entity in He. rewrite Hw in He. congruence.
  - intros r Hr Hown.
    pose proof (evolves_next_ref _ _ Hev1) as Hn1.
    pose proof (evolves_next_ref _ _ Hev2) as Hn2.
    unfold lookup_light at 1. rewrite Hobj4. fold (lookup_light r s3).
    rewrite (cp_lights _ _ _ Hcam) by lia.
    rewrite <- (pf_lights _ _ _ _ _ _ _ _ _ _ Hmesh r) by done.
    apply (pf_lights _ _ _ _ _ _ _ _ _ _ Hlight); [lia|].
    intros j e1 Hj He1.
    destruct (evolves_entities_back _ _ Hev1 j e1 He1) as (e & He).
    destruct (evolves_entities _ _ Hev1 j e He) as (e1' & He1' & Hee1).
    destruct (pf_T _ _ _ _ _ _ _ _ _ _ Hmesh) as [Hk1 _].
    destruct (Hk1 j e He) as (e1'' & He1'' & Hlc).
    simplify_eq. unfold light_of. rewrite Hlc. apply (Hown j e He).
    apply elem_of_entities_filter in Hj as (e' & He' & Hp').
    unfold lookup_entity in He1. rewrite Hw1 in He1. simplify_eq.
    by rewrite <- (is_light_entity_evolves _ _ Hee1).
  - intros r Hr Hown.
    pose proof (evolves_next_ref _ _ Hev1) as Hn1.
    pose proof (evolves_next_ref _ _ Hev2) as Hn2.
    unfold lookup_camera at 1. rewrite Hobj4. fold (lookup_camera r s3).
    rewrite <- (pf_cameras _ _ _ _ _ _ _ _ _ _ Hmesh r) by done.
    rewrite <- (pf_cameras _ _ _ _ _ _ _ _ _ _ Hlight r) by (done || lia).
    apply (cp_cameras _ _ _ Hcam); [lia|].
    intros i e2 Hi He2. rewrite Hfirst in Hi.
    destruct (evolves_entities_back _ _ Hev12 i e2 He2) as (e & He).
    destruct (pf_T _ _ _ _ _ _ _ _ _ _ Hmesh) as [_ Hk1].
    destruct (pf_T _ _ _ _ _ _ _ _ _ _ Hlight) as (_ & _ & _ & Hk2).
    destruct (Hk1 i e He) as (e1 & Hi1 & Hc1).
    destruct (Hk2 i e1 Hi1) as (e2' & Hi2 & Hc2).
    simplify_eq. unfold camera_of. rewrite Hc2, Hc1. by apply (Hown i e).
Qed.

Lemma update_facts_set_frameCount F n s c s' :
  update_facts F (set_frameCount n s) c s' -> update_facts F s c s'.
Proof.
  intros [Hc Hev Hm Hl Hcam Hoth Hcc Hmc Hlc Hsc Hms Hls Hcs]. constructor; try done.
  eapply evolves_trans; [apply evolves_set_frameCount|done].
Qed.

Lemma update_facts_logged F s e s' :
  update_facts F s (Throw e) s' ->
  update_facts F s (Throw e)
    (set_console (fun c => c ++ [ErrorInUpdate e]) s').
Proof.
  intros [Hc Hev Hm Hl Hcam Hoth Hcc Hmc Hlc Hsc Hms Hls Hcs].
  pose proof (evolves_set_console [ErrorInUpdate e] s') as Hev'.
  constructor; try done.
  - by eapply evolves_trans.
  - intros i e' Hi Hp.
    apply (processed_evolves _ _ _ _ s s'); [apply keeps_mesh_of|done| |done].
    by eapply Hm.
  - intros i e' Hi Hp.
    apply (processed_evolves _ _ _ _ s s'); [apply keeps_light_of|done| |done].
    by eapply Hl.
  - intros i Hi.
    apply (processed_evolves _ _ _ _ s s'); [apply keeps_camera_of|done| |done].
    by eapply Hcam.
Qed.

Lemma update_post F s :
  _isInitialized s = true -> is_Some (world s) ->
  post (update F) s (update_facts F s).
Proof.
  intros Hinit [w Hw]. unfold update.
  apply post_bind, post_read, post_bind, post_read. rewrite Hinit, Hw. cbn.
  apply post_try_catch, post_bind, post_write.
  eapply post_mono;
    [apply (passes_post F (set_frameCount (_frameCount s + 1)%float s) w Hw)|].
  intros [[]|e] s' Hfacts.
  - by eapply update_facts_set_frameCount.
  - apply post_bind, post_write, post_throw.
    by eapply update_facts_logged, update_facts_set_frameCount.
Qed.

(** The frame as a function: its outcome and final state. *)
Lemma update_running F s :
  _isInitialized s = true -> is_Some (world s) ->
  update_facts F s (update F s).1 (update F s).2.
Proof. intros. by apply post_unseal, update_post. Qed.

Lemma update_not_running F s :
  _isInitialized s = false \/ world s = None -> update F s = (Normal tt, s).
Proof.
  intros H. unfold update, bind, read, ret.
  destruct H as [->| ->]; [done|]. by destruct (_isInitialized s).
Qed.

Lemma update_evolves F s : evolves s (update F s).2.
Proof.
  destruct (_isInitialized s) eqn:Hinit, (world s) as [w|] eqn:Hw.
  - by apply update_running.
  - rewrite update_not_running by auto. apply evolves_refl.
  - rewrite update_not_running by auto. apply evolves_refl.
  - rewrite update_not_running by auto. apply evolves_refl.
Qed.

Lemma frames_evolves Fs s : evolves s (frames Fs s).
Proof.
  revert s. induction Fs as [|F Fs IH]; intros s; cbn.
  - apply evolves_refl.
  - eapply evolves_trans; [apply update_evolves|apply IH].
Qed.

(** ** What processing an entity writes *)

(** Reading the object store of the state reached. *)
Ltac read_store :=
  unfold lookup_mesh, lookup_light, lookup_camera; red_state;
  repeat first
    [ rewrite (lookup_alter_eq (M:=gmap nat))
    | rewrite (lookup_insert_eq (M:=gmap nat))
    | rewrite (lookup_insert_ne (M:=gmap nat)) by lia
    | rewrite (lookup_alter_ne (M:=gmap nat)) by lia ].

(** A call assumed not to fail does not throw. *)
Ltac no_fault :=
  try match goal with
  | H1 : ?f ?c = true, H2 : ?f ?c = false |- _ =>
    exfalso; rewrite H2 in H1; discriminate H1
  | H1 : ?f ?c = true, H2 : forall c, ?f c = false |- _ =>
    exfalso; rewrite H2 in H1; discriminate H1
  | H1 : light _ = _ |- _ => discriminate H1
  | H1 : camera _ = _ |- _ => discriminate H1
  end.

Lemma as_mesh_Some o m : as_mesh o = Some m -> o = Some (OMesh m).
Proof. destruct o as [[]|]; cbn; congruence. Qed.

Lemma as_light_Some o l : as_light o = Some l -> o = Some (OLight l).
Proof. destruct o as [[]|]; cbn; congruence. Qed.





Ltac read_mesh Ho :=
  lazymatch goal with
  | |- post (match ?x with _ => _ end) ?s ?Q =>
    lazymatch x with
    | context [fmap] =>
      unfold lookup_mesh; red_state;
      repeat first
        [ rewrite (lookup_alter_eq (M:=gmap nat))
        | rewrite (lookup_insert_eq (M:=gmap nat))
        | rewrite (lookup_insert_ne (M:=gmap nat)) by lia
        | rewrite (lookup_alter_ne (M:=gmap nat)) by lia ];
      rewrite ?Ho;
      cbn [fmap option_fmap option_map as_mesh on_mesh mesh_material
           mesh_geometry Mesh_new];
      cbv beta iota
    | _ => idtac
    end
  | |- _ => idtac
  end.


Ltac mesh_fields :=
  cbn [fmap option_fmap option_map as_mesh on_mesh mesh_geometry
       mesh_material mesh_position mesh_rotation mesh_scale mesh_castShadow
       mesh_receiveShadow mesh_userData Mesh_new].




(** * The claims *)

(** ** The geometry switch *)

Lemma or_number_passes (p : gmap string number) name d :
  passes p name d (or_number (p !! name) d).
Proof.
  unfold passes, or_number. destruct (p !! name) as [v|]; [|done].
  destruct (truthy v); split; congruence.
Qed.

Lemma createGeometry_other c :
  geometryType c ∉ six_types -> _createGeometry_call (Some c) = unit_box.
Proof.
  unfold six_types. rewrite !not_elem_of_cons.
  intros (H1 & H2 & H3 & H4 & H5 & H6 & _).
  unfold _createGeometry_call.
  by rewrite (proj2 (String.eqb_neq _ _) H1), (proj2 (String.eqb_neq _ _) H2),
    (proj2 (String.eqb_neq _ _) H3), (proj2 (String.eqb_neq _ _) H4),
    (proj2 (String.eqb_neq _ _) H5), (proj2 (String.eqb_neq _ _) H6).
Qed.

(** C4 (amended): [_createGeometry] maps each of the six types of its switch
    to the matching Three.js constructor; every argument is the
    configuration's parameter when that is present and truthy, and the
    parameter's default when it is absent or falsy ([0], [-0], [NaN]).
    A type outside the switch, ['custom'] included, and a missing geometry
    component give [BoxGeometry(1, 1, 1)]. *)
Theorem createGeometry_binding (c : ThreeGeometryComponent) :
  (geometryType c = "box" -> exists w h d,
     _createGeometry_call (Some c) = mkGeometry BoxGeometry [w; h; d] /\
     passes (parameters c) "width" 1 w /\
     passes (parameters c) "height" 1 h /\
     passes (parameters c) "depth" 1 d) /\
  (geometryType c = "sphere" -> exists r ws hs,
     _createGeometry_call (Some c) = mkGeometry SphereGeometry [r; ws; hs] /\
     passes (parameters c) "radius" 0.5 r /\
     passes (parameters c) "widthSegments" 16 ws /\
     passes (parameters c) "heightSegments" 12 hs) /\
  (geometryType c = "plane" -> exists w h,
     _createGeometry_call (Some c) = mkGeometry PlaneGeometry [w; h] /\
     passes (parameters c) "width" 1 w /\
     passes (parameters c) "height" 1 h) /\
  (geometryType c = "cylinder" -> exists rt rb h rs,
     _createGeometry_call (Some c) =
       mkGeometry CylinderGeometry [rt; rb; h; rs] /\
     passes (parameters c) "radiusTop" 0.5 rt /\
     passes (parameters c) "radiusBottom" 0.5 rb /\
     passes (parameters c) "height" 1 h /\
     passes (parameters c) "radialSegments" 8 rs) /\
  (geometryType c = "cone" -> exists r h rs,
     _createGeometry_call (Some c) = mkGeometry ConeGeometry [r; h; rs] /\
     passes (parameters c) "radius" 0.5 r /\
     passes (parameters c) "height" 1 h /\
     passes (parameters c) "radialSegments" 8 rs) /\
  (geometryType c = "torus" -> exists r tb rs ts,
     _createGeometry_call (Some c) = mkGeometry TorusGeometry [r; tb; rs; ts] /\
     passes (parameters c) "radius" 0.4 r /\
     passes (parameters c) "tube" 0.2 tb /\
     passes (parameters c) "radialSegments" 8 rs /\
     passes (parameters c) "tubularSegments" 6 ts) /\
  (geometryType c ∉ six_types -> _createGeometry_call (Some c) = unit_box) /\
  (geometryType c = "custom" -> _createGeometry_call (Some c) = unit_box) /\
  _createGeometry_call None = unit_box.
Proof.
  split_and!.
  1-6: intros Ht; unfold _createGeometry_call; rewrite Ht; cbn;
    repeat eexists; apply or_number_passes.
  - apply createGeometry_other.
  - intros Ht. apply createGeometry_other. rewrite Ht. unfold six_types.
    rewrite !not_elem_of_cons. split_and!; try discriminate.
    apply not_elem_of_nil.
  - reflexivity.
Qed.

(** C4, as stated, fails: a box whose [width] is present and [0] is built
    with width [1], not with the configuration's parameter. *)
Lemma createGeometry_zero_width :
  parameters flat_box !! "width" = Some 0%float /\
  _createGeometry_call (Some flat_box) = mkGeometry BoxGeometry [1; 1; 1]%float /\
  _createGeometry_call (Some flat_box) <>
    mkGeometry BoxGeometry
      [spec_argument (parameters flat_box) "width" 1;
       spec_argument (parameters flat_box) "height" 1;
       spec_argument (parameters flat_box) "depth" 1].
Proof.
  split_and!; [by vm_compute..|]. intros Heq.
  apply (f_equal (fun g =>
    match geometry_args g with
    | x :: _ => PrimFloat.eqb x 0
    | [] => false
    end)) in Heq.
  vm_compute in Heq. discriminate Heq.
Qed.

(** ** The component classes *)

(** C7 (amended): the five Three.js components have a boolean [needsUpdate]
    field and [TransformComponent] has none; every component declares data
    fields only, except [ThreeMeshComponent], which also has the method
    [dispose]. *)
Theorem component_members (c : ComponentName) :
  has_dirty_flag c = match c with Transform => false | _ => true end /\
  only_data_fields c = match c with ThreeMesh => false | _ => true end.
Proof. by destruct c. Qed.

(** C7, as stated, fails for [TransformComponent] (no dirty flag) and for
    [ThreeMeshComponent] (a method besides its data). *)
Lemma transform_has_no_dirty_flag :
  has_dirty_flag Transform = false /\ only_data_fields ThreeMesh = false.
Proof. done. Qed.

(** ** The component constructors *)



(** ** The frame *)

Lemma onRemovedFromWorld_isInitialized faulty s s' :
  onRemovedFromWorld faulty s = (Normal tt, s') -> _isInitialized s' = false.
Proof.
  unfold onRemovedFromWorld, bind, write.
  destruct (_cleanup faulty s) as [[[]|err] s1]; [|discriminate].
  by intros [= <-].
Qed.

(** C10: [update] on a system that is not initialised, or has no world,
    returns at once and leaves the state as it is: no entity is processed,
    nothing is rendered, the frame counter stays.  A new system is not
    initialised, and neither is one whose [onRemovedFromWorld] has
    returned. *)
Theorem update_before_initialization (F : Faults) :
  (forall s, _isInitialized s = false \/ world s = None ->
     update F s = (Normal tt, s)) /\
  (forall shadows Fs,
     frames Fs (ThreeRenderSystem_new shadows) = ThreeRenderSystem_new shadows) /\
  (forall faulty s s',
     onRemovedFromWorld faulty s = (Normal tt, s') ->
     update F s' = (Normal tt, s')).
Proof.
  split_and!.
  - apply update_not_running.
  - intros shadows Fs. induction Fs as [|F' Fs IH]; [done|].
    cbn [frames]. by rewrite update_not_running by (by left).
  - intros faulty s s' Hs. apply update_not_running. left.
    by eapply onRemovedFromWorld_isInitialized.
Qed.



(** ** Errors of one entity *)






(** ** Which entities a frame processes *)




(** ** The camera *)



(** ** What processing writes to the objects *)




(** ** Dirty flags *)



(** * Further properties of the render system *)

(** ** Rendering *)

(** The passes leave the frame counter and the render calls alone; the
    frame ends with [_render] from the state [s3] they reach. *)
Lemma passes_render F s w :
  world s = Some w ->
  post (_processMeshEntities F ;; _processLightEntities F ;;
        _processCameraEntities F ;; _render F) s (fun c s' =>
    exists s3, _frameCount s3 = _frameCount s /\ rendered s3 = rendered s /\
      (exists log, console s3 = console s ++ log) /\
      render_facts F s3 c s').
Proof.
  intros Hw.
  apply post_bind.
  eapply post_mono; [apply (processMeshEntities_post F s w Hw)|].
  intros c s1 (-> & Hmesh).
  pose proof (pf_evolves _ _ _ _ _ _ _ _ _ _ Hmesh) as Hev1.
  destruct (evolves_Forall2 _ _ _ Hev1 Hw) as (w1 & Hw1 & _).
  apply post_bind.
  eapply post_mono; [apply (processLightEntities_post F s1 w1 Hw1)|].
  intros c s2 (-> & Hlight).
  pose proof (pf_evolves _ _ _ _ _ _ _ _ _ _ Hlight) as Hev2.
  destruct (evolves_Forall2 _ _ _ Hev2 Hw1) as (w2 & Hw2 & _).
  apply post_bind.
  eapply post_mono; [apply (processCameraEntities_post F s2 w2 Hw2)|].
  intros c s3 (-> & Hcam).
  eapply post_mono; [apply render_post|].
  intros c s4 Hrender. exists s3. split_and!; [| | |done].
  - rewrite (cp_frameCount _ _ _ Hcam),
      (pf_frameCount _ _ _ _ _ _ _ _ _ _ Hlight).
    apply (pf_frameCount _ _ _ _ _ _ _ _ _ _ Hmesh).
  - rewrite (cp_rendered _ _ _ Hcam),
      (pf_rendered _ _ _ _ _ _ _ _ _ _ Hlight).
    apply (pf_rendered _ _ _ _ _ _ _ _ _ _ Hmesh).
  - apply evolves_console.
    eapply evolves_trans; [|apply (cp_evolves _ _ _ Hcam)].
    by eapply evolves_trans.
Qed.

(** What the end of a frame leaves, by outcome. *)
Lemma update_render F s :
  _isInitialized s = true -> is_Some (world s) ->
  post (update F) s (fun c s' =>
    _frameCount s' = (_frameCount s + 1)%float /\
    match c with
    | Normal _ =>
      match sys_camera s' with
      | Some cam =>
        render_fault F = false /\
        rendered s' = rendered s ++ [(scene s', cam)]
      | None =>
        rendered s' = rendered s /\
        last (console s') = Some WarnMissingRenderer
      end
    | Throw e =>
      e = RendererRender /\ render_fault F = true /\
      is_Some (sys_camera s') /\ rendered s' = rendered s /\
      last (console s') = Some (ErrorInUpdate RendererRender)
    end).
Proof.
  intros Hinit [w Hw]. unfold update.
  apply post_bind, post_read, post_bind, post_read. rewrite Hinit, Hw. cbn.
  apply post_try_catch, post_bind, post_write.
  eapply post_mono;
    [apply (passes_render F (set_frameCount (_frameCount s + 1)%float s) w Hw)|].
  intros c s' (s3 & Hfc & Hrend & Hlog & Hr).
  destruct Hr as [Hc _ _ Hsys _ Hrendered Hwarned _ Hnf Hscene Hfc'].
  cbn in Hfc, Hrend.
  destruct Hc as [->|(-> & HF & ->)].
  - split; [congruence|].
    destruct (sys_camera s3) as [cam|] eqn:Hcam3; rewrite Hsys.
    + split; [by apply Hnf|].
      rewrite (Hrendered cam eq_refl eq_refl), Hscene. congruence.
    + destruct (Hwarned eq_refl) as (_ & Hr' & Hcons).
      split; [congruence|]. rewrite Hcons. apply last_snoc.
  - apply post_bind, post_write, post_throw. cbn.
    split; [done|]. split_and!; try done.
    + destruct (sys_camera s3) as [cam|] eqn:Hcam3; [by eexists|].
      by destruct (Hwarned eq_refl).
    + apply last_snoc.
Qed.

(** X1: a frame of an initialised, attached system adds one to the frame
    counter and, when it completes normally, makes exactly one
    [renderer.render] call, after all entities were processed: with the
    scene and the camera of the state the frame ends in.  Without a camera
    nothing is rendered and a warning is logged. *)
Theorem frame_renders_once (F : Faults) (s : State) :
  _isInitialized s = true -> is_Some (world s) ->
  (update F s).1 = Normal tt ->
  _frameCount (update F s).2 = (_frameCount s + 1)%float /\
  match sys_camera (update F s).2 with
  | Some cam =>
    rendered (update F s).2 = rendered s ++ [(scene (update F s).2, cam)]
  | None =>
    rendered (update F s).2 = rendered s /\
    last (console (update F s).2) = Some WarnMissingRenderer
  end.
Proof.
  intros Hinit Hw Hc.
  assert (Hpost := update_render F s Hinit Hw).
  apply post_unseal in Hpost as [Hfc Hr]. rewrite Hc in Hr.
  split; [done|]. destruct (sys_camera (update F s).2); [by destruct Hr|done].
Qed.

Lemma frame_renders_once_witness :
  _frameCount (update no_faults sample).2 = 1%float /\
  rendered (update no_faults sample).2 = [([3; 4], 5)].
Proof.
  assert (Hn : (update no_faults sample).1 = Normal tt)
    by (vm_compute; reflexivity).
  destruct (frame_renders_once no_faults sample eq_refl
              (mk_is_Some _ _ eq_refl) Hn) as [Hfc Hr].
  split; [rewrite Hfc; vm_compute; reflexivity|].
  vm_compute. reflexivity.
Defined.

(** X2: [update] throws only when [renderer.render] throws.  It does so
    after the entities were processed and the frame counted; the error is
    logged by [update] and thrown again, and no render call is recorded.
    When [renderer.render] throws and the system has a camera, [update]
    does throw. *)
Theorem render_failure_rethrown (F : Faults) (s : State) :
  _isInitialized s = true -> is_Some (world s) ->
  (forall e, (update F s).1 = Throw e ->
     e = RendererRender /\ render_fault F = true /\
     _frameCount (update F s).2 = (_frameCount s + 1)%float /\
     rendered (update F s).2 = rendered s /\
     last (console (update F s).2) = Some (ErrorInUpdate RendererRender)) /\
  (render_fault F = true -> is_Some (sys_camera (update F s).2) ->
     (update F s).1 = Throw RendererRender).
Proof.
  intros Hinit Hw.
  assert (Hpost := update_render F s Hinit Hw).
  apply post_unseal in Hpost as [Hfc Hr]. split.
  - intros e He. rewrite He in Hr. by destruct Hr as (? & ? & ? & ? & ?).
  - intros HF [cam Hcam].
    destruct (update F s).1 as [[]|e].
    + rewrite Hcam in Hr. destruct Hr as [Hnf _]. congruence.
    + by destruct Hr as (-> & _).
Qed.

Lemma render_failure_rethrown_witness :
  (update (mkFaults (fun _ _ => false) true) sample).1 = Throw RendererRender.
Proof.
  destruct (render_failure_rethrown (mkFaults (fun _ _ => false) true) sample
              eq_refl (mk_is_Some _ _ eq_refl)) as [_ Hthrows].
  apply Hthrows; [reflexivity|]. vm_compute. eexists. reflexivity.
Defined.

(** ** The material switch *)

Lemma createMaterial_other c :
  materialType c ∉ five_material_types ->
  _createMaterial_call (Some c) =
    mkMaterial MeshStandardMaterial
      (mkMaterialParameters (Some (ColorString (color c)))
         (Some (transparent c)) (Some (opacity c)) (Some (wireframe c))
         None None None None None).
Proof.
  unfold five_material_types. rewrite !not_elem_of_cons.
  intros (H1 & H2 & H3 & H4 & H5 & _).
  unfold _createMaterial_call.
  by rewrite (proj2 (String.eqb_neq _ _) H1), (proj2 (String.eqb_neq _ _) H2),
    (proj2 (String.eqb_neq _ _) H3), (proj2 (String.eqb_neq _ _) H4),
    (proj2 (String.eqb_neq _ _) H5).
Qed.

(** X3: what [_createMaterial] hands to Three.js.  The colour, the
    transparency and the opacity of the component always reach the
    material; metalness, roughness and the emissive colour only for the
    types ['standard'] and ['physical']; ['phong'] gets a shininess of
    [(1 - roughness) * 100]; ['wireframe'] forces [wireframe: true]; a type
    outside the switch gives a [MeshStandardMaterial] without metalness
    and roughness; the component's texture is never used. *)
Theorem createMaterial_binding (c : ThreeMaterialComponent) :
  (p_color (material_parameters (_createMaterial_call (Some c)))
     = Some (ColorString (color c)) /\
   p_transparent (material_parameters (_createMaterial_call (Some c)))
     = Some (transparent c) /\
   p_opacity (material_parameters (_createMaterial_call (Some c)))
     = Some (opacity c)) /\
  (materialType c = "standard" \/ materialType c = "physical" ->
   material_class (_createMaterial_call (Some c)) =
     (if String.eqb (materialType c) "standard" then MeshStandardMaterial
      else MeshPhysicalMaterial) /\
   material_parameters (_createMaterial_call (Some c)) =
     mkMaterialParameters (Some (ColorString (color c)))
       (Some (transparent c)) (Some (opacity c)) (Some (wireframe c))
       (Some (metalness c)) (Some (roughness c))
       (Some (ColorString (emissive c))) (Some (emissiveIntensity c)) None) /\
  (materialType c <> "standard" -> materialType c <> "physical" ->
   p_metalness (material_parameters (_createMaterial_call (Some c))) = None /\
   p_roughness (material_parameters (_createMaterial_call (Some c))) = None /\
   p_emissive (material_parameters (_createMaterial_call (Some c))) = None) /\
  (materialType c = "phong" ->
   material_class (_createMaterial_call (Some c)) = MeshPhongMaterial /\
   p_shininess (material_parameters (_createMaterial_call (Some c))) =
     Some ((1 - roughness c) * 100)%float) /\
  (materialType c = "basic" \/ materialType c = "wireframe" ->
   material_class (_createMaterial_call (Some c)) = MeshBasicMaterial) /\
  (p_wireframe (material_parameters (_createMaterial_call (Some c))) =
     Some (if String.eqb (materialType c) "wireframe" then true
           else wireframe c)) /\
  (materialType c ∉ five_material_types ->
   material_class (_createMaterial_call (Some c)) = MeshStandardMaterial) /\
  (forall tx,
     _createMaterial_call
       (Some (mkMaterialComp (materialType c) (color c) (metalness c)
                (roughness c) (emissive c) (emissiveIntensity c)
                (transparent c) (opacity c) (wireframe c) tx
                (material_needsUpdate c))) =
     _createMaterial_call (Some c)).
Proof.
  split_and!.
  - unfold _createMaterial_call.
    by repeat destruct (String.eqb (materialType c) _).
  - unfold _createMaterial_call.
    by repeat destruct (String.eqb (materialType c) _).
  - unfold _createMaterial_call.
    by repeat destruct (String.eqb (materialType c) _).
  - intros [Ht|Ht]; unfold _createMaterial_call; by rewrite Ht.
  - intros H1%String.eqb_neq H2%String.eqb_neq. unfold _createMaterial_call.
    rewrite H1, H2. by repeat destruct (String.eqb (materialType c) _).
  - intros Ht; unfold _createMaterial_call; by rewrite Ht.
  - intros [Ht|Ht]; unfold _createMaterial_call; by rewrite Ht.
  - unfold _createMaterial_call.
    destruct (String.eqb (materialType c) "standard") eqn:H1.
    { apply String.eqb_eq in H1. by rewrite H1. }
    destruct (String.eqb (materialType c) "basic") eqn:H2.
    { apply String.eqb_eq in H2. by rewrite H2. }
    destruct (String.eqb (materialType c) "phong") eqn:H3.
    { apply String.eqb_eq in H3. by rewrite H3. }
    destruct (String.eqb (materialType c) "physical") eqn:H4.
    { apply String.eqb_eq in H4. by rewrite H4. }
    by destruct (String.eqb (materialType c) "wireframe").
  - intros Hother. by rewrite createMaterial_other.
  - intros tx. by destruct c.
Qed.

(** ** Lights and cameras *)

(** States a goal about the final state of [m] run from [s] as a
    postcondition. *)
Ltac to_post m s :=
  lazymatch goal with
  | |- ?G =>
    let P := eval pattern ((m s).2) in G in
    lazymatch P with
    | ?Q _ => apply (proj1 (post_unseal m s (fun _ => Q)))
    end
  end.

(** Branches of a switch over a string that is known. *)
Ltac known_case :=
  try match goal with
  | H1 : String.eqb _ _ = _ |- _ => vm_compute in H1; discriminate H1
  end.







(** X5: processing a light entity whose component is marked dirty, when
    nothing fails, copies the component's colour (as the number
    [parseInt] reads from it with ['#'] replaced by ['0x']), intensity and
    [castShadow] to the light, whatever the light's class and whether or
    not shadows are enabled, and resets the flag. *)
Theorem dirty_light_update i faulty s e t lc l o0 :
  lookup_entity i s = Some e ->
  transformComp e = Some t -> lightComp e = Some lc ->
  light lc = Some l -> lookup_light l s = Some o0 ->
  light_needsUpdate lc = true ->
  (forall c, faulty c = false) ->
  lookup_entity i (_processLightEntity i faulty s).2 = Some (with_light_needsUpdate false e) /\
  lookup_light l (_processLightEntity i faulty s).2 =
    Some (mkLight (light_class o0)
            (ColorParseInt (replace_hash (light_color lc)))
            (light_groundColor o0) (intensity lc) (castShadow lc)
            (position t)) /\
  scene (_processLightEntity i faulty s).2 = scene s /\ next_ref (_processLightEntity i faulty s).2 = next_ref s.
Proof.
  intros H Ht Hlc Hl Ho0 Hnu Hf.
  to_post (_processLightEntity i faulty) s.
  destruct s as [sc cam sh ini fc [[ents]|] objs n disp rend cons]; [|done].
  cbn [lookup_entity world entities] in H.
  destruct e as [eid act tr mc matc geoc lc' cc]. cbn in Ht, Hlc. subst tr lc'.
  destruct lc as [lt lcol lint lcs l' lnu]. cbn in Hl, Hnu. subst l' lnu.
  apply as_light_Some in Ho0. cbn [objects] in Ho0.
  unfold _processLightEntity. repeat (wp_step H; no_fault).
  all: split_and!;
    [ red_state; autorewrite with state; rewrite ?H; reflexivity
    | read_store; rewrite Ho0; reflexivity
    | reflexivity | reflexivity ].
Qed.

(** X6: processing a camera entity that has no camera yet, when nothing
    fails, makes a [PerspectiveCamera] from the component if its type is
    ['perspective'] and otherwise an [OrthographicCamera] of half-height
    10, puts it at the transform's position and rotation, and makes it the
    rendering camera.  The camera is not added to the scene, and no object
    that existed is written to. *)
Theorem camera_creation i faulty s e t cc :
  lookup_entity i s = Some e ->
  transformComp e = Some t -> cameraComp e = Some cc ->
  camera cc = None ->
  (forall c, faulty c = false) ->
  lookup_entity i (_processCameraEntity i faulty s).2 = Some (with_camera (Some (next_ref s)) e) /\
  sys_camera (_processCameraEntity i faulty s).2 = Some (next_ref s) /\
  scene (_processCameraEntity i faulty s).2 = scene s /\
  next_ref (_processCameraEntity i faulty s).2 = S (next_ref s) /\
  (forall r, r < next_ref s -> objects (_processCameraEntity i faulty s).2 !! r = objects s !! r) /\
  lookup_camera (next_ref s) (_processCameraEntity i faulty s).2 =
    Some (mkCamera
            (if String.eqb (cameraType cc) "perspective" then
               PerspectiveCamera (fov cc) (aspect cc) (near cc) (far cc)
             else
               OrthographicCamera (-10 * aspect cc) (10 * aspect cc)
                 10 (-10) (near cc) (far cc))%float
            (position t) (Euler (radians (rotation t)))).
Proof.
  intros H Ht Hcc Hc Hf.
  to_post (_processCameraEntity i faulty) s.
  destruct s as [sc cam sh ini fc [[ents]|] objs n disp rend cons]; [|done].
  cbn [lookup_entity world entities] in H.
  destruct e as [eid act tr mc matc geoc lc cc']. cbn in Ht, Hcc. subst tr cc'.
  destruct cc as [ct cfov casp cnear cfar c' cnu]. cbn in Hc. subst c'.
  unfold _processCameraEntity. repeat (wp_step H; no_fault).
  all: split_and!;
    [ red_state; autorewrite with state; rewrite ?H; reflexivity
    | reflexivity | reflexivity | reflexivity
    | let Hr := fresh in
      intros r Hr; cbn [next_ref] in Hr; red_state;
      repeat first
        [ rewrite (lookup_insert_ne (M:=gmap nat)) by lia
        | rewrite (lookup_alter_ne (M:=gmap nat)) by lia ];
      reflexivity
    | read_store; reflexivity ].
Qed.


Lemma dirty_light_update_witness :
  lookup_entity 1 (_processLightEntity 1 (fun _ => false) relit).2 =
    Some (with_light (Some 4) lamp).
Proof.
  assert (Hi : lookup_entity 1 relit =
                 Some (with_light_needsUpdate true (with_light (Some 4) lamp)))
    by (vm_compute; reflexivity).
  assert (Ho : exists o0, lookup_light 4 relit = Some o0)
    by (vm_compute; eexists; reflexivity).
  destruct Ho as [o0 Ho].
  destruct (dirty_light_update 1 (fun _ => false) relit _
              (TransformComponent_new (Some (mkVec3 0 10 0)) None None)
              _ 4 o0 Hi eq_refl eq_refl eq_refl Ho eq_refl (fun _ => eq_refl))
    as (He & _).
  exact He.
Defined.

Lemma camera_creation_witness :
  sys_camera (_processCameraEntity 2 (fun _ => false) sample).2 = Some 1 /\
  scene (_processCameraEntity 2 (fun _ => false) sample).2 = [].
Proof.
  destruct (camera_creation 2 (fun _ => false) sample main_camera
              (TransformComponent_new (Some (mkVec3 0 0 5)) None None)
              (ThreeCameraComponent_new CameraConfig_empty)
              eq_refl eq_refl eq_refl eq_refl (fun _ => eq_refl))
    as (_ & Hsys & Hscene & _).
  split; [exact Hsys|exact Hscene].
Defined.

(** ** A disposal that fails *)

Ltac to_post_outcome m s :=
  lazymatch goal with
  | |- ?G =>
    let P := eval pattern ((m s).1), ((m s).2) in G in
    lazymatch P with
    | ?Q _ _ => apply (proj1 (post_unseal m s Q))
    end
  end.

(** Only the disposal of [r0] throws. *)
Ltac only_fault Hd Hf :=
  try match goal with
  | H1 : _ = true |- _ => rewrite Hf in H1 by discriminate; discriminate H1
  | H1 : _ = false |- _ => rewrite Hd in H1; discriminate H1
  end.

(** X7: when disposing of the old material throws, the update of the
    material is abandoned: the error is caught and logged for the entity,
    the mesh keeps the material it had, the component's flag stays set, so
    that the next frame tries again, and the material built for the update
    is left attached to nothing.  The geometry is not looked at in that
    frame. *)
Theorem failed_disposal_keeps_material i faulty s e t m o r0 mc :
  lookup_entity i s = Some e ->
  transformComp e = Some t -> mesh_of e = Some m ->
  m < next_ref s -> lookup_mesh m s = Some o ->
  mesh_material o = OneMaterial r0 ->
  materialComp e = Some mc -> material_needsUpdate mc = true ->
  faulty (Dispose r0) = true ->
  (forall c, c <> Dispose r0 -> faulty c = false) ->
  (_processMeshEntity i faulty s).1 = Normal tt /\
  lookup_entity i (_processMeshEntity i faulty s).2 = Some e /\
  (exists o', lookup_mesh m (_processMeshEntity i faulty s).2 = Some o' /\
     mesh_material o' = OneMaterial r0 /\
     mesh_geometry o' = mesh_geometry o) /\
  disposed (_processMeshEntity i faulty s).2 = disposed s /\
  console (_processMeshEntity i faulty s).2 =
    console s ++ [ErrorProcessingMesh (id e) (Dispose r0)] /\
  next_ref (_processMeshEntity i faulty s).2 = S (next_ref s) /\
  objects (_processMeshEntity i faulty s).2 !! next_ref s =
    Some (OMaterial (_createMaterial_call (Some mc))).
Proof.
  intros H Ht Hm Hlt Ho Hmat Hmc Hnu Hd Hf.
  to_post_outcome (_processMeshEntity i faulty) s.
  destruct s as [sc cam sh ini fc [[ents]|] objs n disp rend cons]; [|done].
  cbn [lookup_entity world entities] in H.
  destruct e as [eid act tr [[m' nu]|] matc geoc lc cc]; [|done].
  cbn in Ht, Hm, Hmc, Hlt. subst tr m' matc.
  apply as_mesh_Some in Ho. cbn [objects] in Ho.
  destruct o as [g0 mat0 p0 rot0 sc0 cs0 rcs0 ud0]. cbn in Hmat. subst mat0.
  unfold _processMeshEntity.
  repeat (wp_step H; only_fault Hd Hf; read_mesh Ho).
  all: try (rewrite Hnu in *; discriminate).
  all: split_and!;
    [ reflexivity
    | red_state; autorewrite with state; rewrite ?H; reflexivity
    | eexists; split; [read_store; rewrite ?Ho; mesh_fields; reflexivity|];
      by mesh_fields
    | reflexivity | reflexivity | reflexivity
    | read_store; reflexivity ].
Qed.

Lemma failed_disposal_keeps_material_witness :
  lookup_entity 0 (_processMeshEntity 0 sticky_material repainted).2 =
    Some (with_material_needsUpdate true (with_mesh (Some 3) cube)) /\
  console (_processMeshEntity 0 sticky_material repainted).2 =
    console repainted ++ [ErrorProcessingMesh 7 (Dispose 2)].
Proof.
  assert (Hi : lookup_entity 0 repainted =
                 Some (with_material_needsUpdate true (with_mesh (Some 3) cube)))
    by (vm_compute; reflexivity).
  assert (Ho : exists o, lookup_mesh 3 repainted = Some o /\
                         mesh_material o = OneMaterial 2)
    by (vm_compute; eexists; split; reflexivity).
  destruct Ho as (o & Ho & Hmat).
  assert (Hlt : 3 < next_ref repainted) by (vm_compute; lia).
  assert (Hf : forall c, c <> Dispose 2 -> sticky_material c = false).
  { intros c Hc. destruct c as [| | | | | | |r| | | | |]; try reflexivity.
    destruct r as [|[|[|r]]]; try reflexivity. by destruct Hc. }
  destruct (failed_disposal_keeps_material 0 sticky_material repainted _
              (mkTransform (mkVec3 1 2 3) (mkVec3 90 0 180) (mkVec3 2 2 2))
              3 o 2 _ Hi eq_refl eq_refl Hlt Ho Hmat eq_refl eq_refl eq_refl Hf)
    as (_ & He & _ & _ & Hlog & _).
  split; [exact He|exact Hlog].
Defined.

(** ** Disposal *)

Lemma disposed_of_mono faulty l l' s c s' :
  disposed_of faulty l s c s' -> c <> Normal tt -> l `prefix_of` l' ->
  disposed_of faulty l' s c s'.
Proof.
  destruct c as [[]|e]; [done|]. intros (He & done & Hp & ->) _ Hl.
  split; [done|]. exists done. split; [by etrans|done].
Qed.

Lemma dispose_list_post faulty l s :
  post (for_of l (dispose faulty)) s (disposed_of faulty l s).
Proof.
  apply post_dispose_all.
  - intros k r Hk Hr. split; [done|]. exists (take k l). split; [|done].
    apply prefix_take.
  - done.
Qed.

Lemma dispose_one_post faulty r s :
  post (dispose faulty r) s (disposed_of faulty [r] s).
Proof.
  apply post_three; intros Hr.
  - split; [done|]. exists []. split; [apply prefix_nil|].
    by rewrite set_disposed_nil.
  - done.
Qed.

(** Disposing of [l1], then of [l2]. *)
Lemma disposed_of_app faulty l1 l2 (m1 m2 : JS unit) s :
  post m1 s (disposed_of faulty l1 s) ->
  post m2 (set_disposed (fun d => d ++ l1) s)
    (disposed_of faulty l2 (set_disposed (fun d => d ++ l1) s)) ->
  post (m1 ;; m2) s (disposed_of faulty (l1 ++ l2) s).
Proof.
  intros H1 H2. apply post_bind. eapply post_mono; [exact H1|].
  intros [[]|e] s1 Hs1.
  - cbn in Hs1. subst s1. eapply post_mono; [apply H2|].
    intros [[]|e] s2 Hs2.
    + cbn in Hs2. subst s2. cbn. by rewrite set_disposed_app.
    + destruct Hs2 as (He & done & Hp & ->). split; [done|].
      exists (l1 ++ done). split; [by apply prefix_app|].
      by rewrite set_disposed_app.
  - eapply disposed_of_mono; [done|done|]. by apply prefix_app_r.
Qed.

Lemma disposed_of_nil faulty s : post (ret tt) s (disposed_of faulty [] s).
Proof. apply post_ret. cbn. by rewrite set_disposed_nil. Qed.

(** The geometry, then the materials, of one mesh. *)
Lemma dispose_mesh_post faulty o s :
  post (dispose faulty (mesh_geometry o) ;;
        match mesh_material o with
        | OneMaterial m => dispose faulty m
        | MaterialArray ms => for_of ms (dispose faulty)
        | NoMaterial => ret tt
        end) s (disposed_of faulty (mesh_resources o) s).
Proof.
  apply (disposed_of_app faulty [mesh_geometry o]);
    [apply dispose_one_post|].
  destruct (mesh_material o); cbn [materials_of].
  - apply disposed_of_nil.
  - apply dispose_one_post.
  - apply dispose_list_post.
Qed.

Lemma lookup_mesh_set_disposed r f s :
  lookup_mesh r (set_disposed f s) = lookup_mesh r s.
Proof. done. Qed.

(** The traversal of [_cleanup] over the children [l]. *)
Lemma cleanup_loop_post faulty l s0 s :
  (forall r, lookup_mesh r s = lookup_mesh r s0) ->
  post (for_of l (fun r =>
          let* o := read (lookup_mesh r) in
          match o with
          | Some o =>
            dispose faulty (mesh_geometry o) ;;
            match mesh_material o with
            | OneMaterial m => dispose faulty m
            | MaterialArray ms => for_of ms (dispose faulty)
            | NoMaterial => ret tt
            end
          | None => ret tt
          end)) s (disposed_of faulty (resources_of s0 l) s).
Proof.
  revert s. induction l as [|r l IH]; intros s Hs.
  { apply disposed_of_nil. }
  cbn [for_of]. unfold resources_of. cbn [flat_map].
  apply (disposed_of_app faulty
           (from_option mesh_resources [] (lookup_mesh r s0))).
  - apply post_bind, post_read. rewrite Hs.
    destruct (lookup_mesh r s0) as [o|]; cbn [from_option].
    + apply dispose_mesh_post.
    + apply disposed_of_nil.
  - apply IH. intros r'. by rewrite lookup_mesh_set_disposed.
Qed.

Lemma cleanup_post faulty s :
  post (_cleanup faulty) s (fun c s' =>
    match c with
    | Normal _ =>
      s' = set_scene (fun _ => [])
             (set_disposed (fun d => d ++ resources_of s (scene s)) s)
    | Throw error =>
      faulty error = true /\
      exists done, done `prefix_of` resources_of s (scene s) /\
        (s' = set_disposed (fun d => d ++ done) s \/
         error = RendererDispose /\
         s' = set_scene (fun _ => []) (set_disposed (fun d => d ++ done) s))
    end).
Proof.
  unfold _cleanup. apply post_bind, post_read, post_bind.
  eapply post_mono; [by apply (cleanup_loop_post faulty (scene s) s s)|].
  intros [[]|e] s1 Hs1.
  - cbn in Hs1. subst s1. apply post_bind, post_write, post_three; intros Hr.
    + split; [done|]. exists (resources_of s (scene s)). split; [done|].
      by right.
    + done.
  - destruct Hs1 as (He & done & Hp & ->). split; [done|].
    exists done. split; [done|]. by left.
Qed.

(** X8: [_cleanup], which is also the public [dispose()], disposes of the
    geometry and then the materials of every mesh of the scene, in scene
    order, empties the scene and disposes of the renderer; it changes
    nothing else, so entities keep their references to the meshes.  When
    a disposal throws it stops there, with the scene as it was; when only
    the renderer's disposal throws the scene is already empty.
    [onRemovedFromWorld] marks the system uninitialised only if
    [_cleanup] returned: if it threw, the system stays initialised and
    attached. *)
Theorem cleanup_outcome (faulty : Site -> bool) (s : State) :
  match (_cleanup faulty s).1 with
  | Normal _ =>
    (_cleanup faulty s).2 =
      set_scene (fun _ => [])
        (set_disposed (fun d => d ++ resources_of s (scene s)) s) /\
    (onRemovedFromWorld faulty s).1 = Normal tt /\
    _isInitialized (onRemovedFromWorld faulty s).2 = false
  | Throw error =>
    faulty error = true /\
    (exists done, done `prefix_of` resources_of s (scene s) /\
       ((_cleanup faulty s).2 = set_disposed (fun d => d ++ done) s \/
        error = RendererDispose /\
        (_cleanup faulty s).2 =
          set_scene (fun _ => []) (set_disposed (fun d => d ++ done) s))) /\
    onRemovedFromWorld faulty s = (Throw error, (_cleanup faulty s).2) /\
    _isInitialized (onRemovedFromWorld faulty s).2 = _isInitialized s /\
    world (onRemovedFromWorld faulty s).2 = world s
  end.
Proof.
  assert (Hpost := cleanup_post faulty s). apply post_unseal in Hpost.
  unfold onRemovedFromWorld, bind, write.
  destruct (_cleanup faulty s) as [[[]|error] s'] eqn:Hc; cbn in Hpost |- *.
  - done.
  - destruct Hpost as (He & done & Hp & Hs'). split_and!; try done.
    + by exists done.
    + by destruct Hs' as [->|[_ ->]].
    + by destruct Hs' as [->|[_ ->]].
Qed.

(** X9: after the system was removed from a world and added to a world
    again, no object made before the removal is ever in the scene again,
    in any number of frames: an entity that kept its mesh from before has
    it updated, but never shown. *)
Theorem reattached_scene_is_fresh (faulty : Site -> bool) (s s1 : State)
    (w : World) (Fs : list Faults) (r : ref) :
  onRemovedFromWorld faulty s = (Normal tt, s1) ->
  r < next_ref s ->
  r ∉ scene (frames Fs (onAddedToWorld w s1).2).
Proof.
  intros Hremoved Hr.
  pose proof (cleanup_outcome faulty s) as Hc.
  unfold onRemovedFromWorld, bind, write in Hremoved.
  destruct (_cleanup faulty s) as [[[]|error] s'] eqn:Hcleanup;
    [|discriminate Hremoved].
  cbn in Hc. destruct Hc as (-> & _). injection Hremoved as <-.
  destruct (evolves_scene _ _
              (frames_evolves Fs
                 (onAddedToWorld w
                    (set_console (fun c => c ++ [LogRemovedFromWorld])
                       (set_world None
                          (set_isInitialized false
                             (set_scene (fun _ => [])
                                (set_disposed
                                   (fun d => d ++ resources_of s (scene s))
                                   s)))))).2))
    as (added & -> & _ & Hadded).
  cbn. intros Hin. rewrite Forall_forall in Hadded.
  apply Hadded in Hin. cbn in Hin. lia.
Qed.

Lemma reattached_scene_is_fresh_witness :
  3 ∈ scene (update no_faults sample).2 /\
  3 ∉ scene (frames [no_faults; no_faults]
               (onAddedToWorld
                  (default sample_world (world (update no_faults sample).2))
                  (onRemovedFromWorld (fun _ => false)
                     (update no_faults sample).2).2).2).
Proof.
  split; [vm_compute; constructor|].
  apply (reattached_scene_is_fresh (fun _ => false) (update no_faults sample).2).
  - vm_compute. reflexivity.
  - vm_compute. lia.
Defined.

(** ** [ThreeMeshComponent.dispose] *)

Lemma disposed_of_no_fault faulty l s c s' :
  (forall e, faulty e = false) -> disposed_of faulty l s c s' ->
  c = Normal tt /\ s' = set_disposed (fun d => d ++ l) s.
Proof.
  intros Hf. destruct c as [[]|e]; [done|]. intros [He _].
  by rewrite Hf in He.
Qed.

(** X10: [ThreeMeshComponent.dispose], when nothing fails, disposes of the
    geometry and the materials of the component's mesh and sets the
    reference to [null], so that a second call does nothing; the mesh is
    not taken out of the scene.  On a component without a mesh it does
    nothing. *)
Theorem mesh_component_dispose (i : nat) (faulty : Site -> bool) (s : State)
    (e : Entity) :
  lookup_entity i s = Some e ->
  (forall c, faulty c = false) ->
  match mesh_of e with
  | Some m =>
    forall o, lookup_mesh m s = Some o ->
      ThreeMeshComponent_dispose i faulty s =
        (Normal tt,
         modify_entity i (with_mesh None)
           (set_disposed (fun d => d ++ mesh_resources o) s)) /\
      scene (ThreeMeshComponent_dispose i faulty s).2 = scene s /\
      ThreeMeshComponent_dispose i faulty
        (ThreeMeshComponent_dispose i faulty s).2 =
        (Normal tt, (ThreeMeshComponent_dispose i faulty s).2)
  | None => ThreeMeshComponent_dispose i faulty s = (Normal tt, s)
  end.
Proof.
  intros Hi Hf.
  assert (Hnone : forall s1 e1, lookup_entity i s1 = Some e1 ->
            mesh_of e1 = None ->
            ThreeMeshComponent_dispose i faulty s1 = (Normal tt, s1)).
  { intros s1 e1 H1 Hm1.
    unfold ThreeMeshComponent_dispose, getComponent, bind, read.
    rewrite H1. cbn [mbind option_bind]. unfold mesh_of in Hm1.
    by rewrite Hm1. }
  destruct (mesh_of e) as [m|] eqn:Hm; [|by eapply Hnone].
  intros o Ho.
  assert (Hfirst : ThreeMeshComponent_dispose i faulty s =
            (Normal tt,
             modify_entity i (with_mesh None)
               (set_disposed (fun d => d ++ mesh_resources o) s))).
  { assert (Hpost := dispose_mesh_post faulty o s).
    apply post_unseal in Hpost.
    apply (disposed_of_no_fault _ _ _ _ _ Hf) in Hpost as [Hc Hs'].
    unfold ThreeMeshComponent_dispose, getComponent, bind, read, write.
    rewrite Hi. cbn [mbind option_bind]. unfold mesh_of in Hm.
    rewrite Hm, Ho. unfold bind in Hc, Hs'.
    destruct (dispose faulty (mesh_geometry o) s) as [[[]|err] s1];
      cbn in Hc, Hs' |- *.
    - destruct (match mesh_material o with
                | NoMaterial => ret ()
                | OneMaterial m0 => dispose faulty m0
                | MaterialArray ms => for_of ms (dispose faulty)
                end s1) as [c2 s2]; cbn in Hc, Hs'. by subst.
    - discriminate Hc. }
  rewrite Hfirst. cbn [snd]. split_and!; [done| |].
  - unfold modify_entity. cbn. by destruct (world s).
  - apply (Hnone _ (with_mesh None e)).
    + by rewrite lookup_entity_modify_eq, lookup_entity_set_disposed, Hi.
    + unfold mesh_of in *. cbn. by destruct (meshComp e).
Qed.

Lemma mesh_component_dispose_witness :
  scene (ThreeMeshComponent_dispose 0 (fun _ => false)
           (update no_faults sample).2).2 = [3; 4] /\
  disposed (ThreeMeshComponent_dispose 0 (fun _ => false)
              (update no_faults sample).2).2 = [1; 2].
Proof.
  assert (Hi : lookup_entity 0 (update no_faults sample).2 =
                 Some (with_mesh (Some 3) cube))
    by (vm_compute; reflexivity).
  assert (Ho : exists o, lookup_mesh 3 (update no_faults sample).2 = Some o)
    by (vm_compute; eexists; reflexivity).
  destruct Ho as [o Ho].
  destruct (mesh_component_dispose 0 (fun _ => false)
              (update no_faults sample).2 _ Hi (fun _ => eq_refl) o Ho)
    as (_ & Hscene & _).
  split; [rewrite Hscene; vm_compute; reflexivity|].
  vm_compute. reflexivity.
Defined.

(** ** Statistics *)

Lemma length_filter_iff {A} (P Q : A -> Prop) `{!forall x, Decision (P x)}
    `{!forall x, Decision (Q x)} (l : list A) :
  Forall (fun x => P x <-> Q x) l ->
  length (filter P l) = length (filter Q l).
Proof.
  induction 1 as [|x l Hx _ IH]; [done|].
  rewrite !filter_cons.
  destruct (decide (P x)), (decide (Q x)); cbn; tauto || lia.
Qed.

Lemma length_filter_disjoint {A} (P Q : A -> Prop)
    `{!forall x, Decision (P x)} `{!forall x, Decision (Q x)} (l : list A) :
  (forall x, P x -> Q x -> False) ->
  length (filter P l) + length (filter Q l) <= length l.
Proof.
  intros Hd. induction l as [|x l IH]; [done|].
  rewrite !filter_cons.
  destruct (decide (P x)), (decide (Q x)); cbn; try lia. by destruct (Hd x).
Qed.

Lemma same_class_mesh o o' :
  same_class o o' -> is_Some (as_mesh o) <-> is_Some (as_mesh o').
Proof.
  destruct o as [[]|], o' as [[]|]; cbn; try done;
    split; intros [? ?]; done || by eexists.
Qed.

Lemma same_class_light o o' :
  same_class o o' -> is_Some (as_light o) <-> is_Some (as_light o').
Proof.
  destruct o as [[]|], o' as [[]|]; cbn; try done;
    split; intros [? ?]; done || by eexists.
Qed.

Lemma update_frameCount F s :
  _isInitialized s = true -> is_Some (world s) ->
  _frameCount (update F s).2 = (_frameCount s + 1)%float.
Proof.
  intros Hinit Hw. assert (Hpost := update_render F s Hinit Hw).
  by apply post_unseal in Hpost as [Hfc _].
Qed.

Lemma frames_frameCount Fs s :
  _isInitialized s = true -> is_Some (world s) ->
  _frameCount (frames Fs s) =
    Nat.iter (length Fs) (fun x => (x + 1)%float) (_frameCount s).
Proof.
  revert s. induction Fs as [|F Fs IH]; intros s Hinit Hw; [done|].
  cbn [frames length]. rewrite Nat.iter_succ_r.
  pose proof (update_evolves F s) as Hev.
  rewrite IH.
  - by rewrite update_frameCount.
  - by rewrite (evolves_isInitialized _ _ Hev).
  - pose proof (evolves_world _ _ Hev) as Hworld.
    destruct Hw as [w Hw]. rewrite Hw in Hworld.
    by destruct (world (update F s).2).
Qed.

(** X11: over any number of frames of an initialised, attached system,
    whatever fails in them, the frame counter of [getStatistics] goes up
    by one per frame and its mesh and light counts never go down; they
    count objects of the scene only, each at most once. *)
Theorem statistics_over_frames (Fs : list Faults) (s : State) :
  _isInitialized s = true -> is_Some (world s) -> scene_ok s ->
  frameCount (getStatistics (frames Fs s)) =
    Nat.iter (length Fs) (fun x => (x + 1)%float)
      (frameCount (getStatistics s)) /\
  meshCount (getStatistics s) <= meshCount (getStatistics (frames Fs s)) /\
  lightCount (getStatistics s) <= lightCount (getStatistics (frames Fs s)) /\
  meshCount (getStatistics (frames Fs s)) +
    lightCount (getStatistics (frames Fs s)) <= length (scene (frames Fs s)).
Proof.
  intros Hinit Hw [_ Hlt]. pose proof (frames_evolves Fs s) as Hev.
  destruct (evolves_scene _ _ Hev) as (added & Hscene & _ & _).
  unfold getStatistics. cbn [frameCount meshCount lightCount].
  split_and!.
  - by apply frames_frameCount.
  - rewrite Hscene, filter_app, length_app.
    rewrite (length_filter_iff
               (fun r => is_Some (lookup_mesh r (frames Fs s)))
               (fun r => is_Some (lookup_mesh r s)) (scene s)); [lia|].
    eapply Forall_impl; [exact Hlt|]. intros r Hr. cbn beta. symmetry.
    apply same_class_mesh, (evolves_objects _ _ Hev r Hr).
  - rewrite Hscene, filter_app, length_app.
    rewrite (length_filter_iff
               (fun r => is_Some (lookup_light r (frames Fs s)))
               (fun r => is_Some (lookup_light r s)) (scene s)); [lia|].
    eapply Forall_impl; [exact Hlt|]. intros r Hr. cbn beta. symmetry.
    apply same_class_light, (evolves_objects _ _ Hev r Hr).
  - apply length_filter_disjoint. intros r [m Hm] [l Hl].
    unfold lookup_mesh, lookup_light in Hm, Hl.
    by destruct (objects (frames Fs s) !! r) as [[]|].
Qed.

Lemma statistics_over_frames_witness :
  getStatistics (frames [no_faults; broken_cube; no_faults] sample) =
    mkStatistics 3 1 1.
Proof.
  destruct (statistics_over_frames [no_faults; broken_cube; no_faults] sample
              eq_refl (mk_is_Some _ _ eq_refl)
              (conj (@NoDup_nil_2 ref) (Forall_nil_2 _)))
    as (Hfc & _).
  vm_compute. reflexivity.
Defined.

(** * The editor bridge *)

Lemma get_property_Own {A} (table : list (string * A)) key a :
  get_property table key = Own a -> (key, a) ∈ table.
Proof.
  unfold get_property.
  destruct (list_to_map table !! key) as [a'|] eqn:Hk.
  - intros [= <-]. by apply elem_of_list_to_map_2 in Hk.
  - by destruct (bool_decide _).
Qed.

Lemma get_property_other {A} (table : list (string * A)) key :
  key ∉ table.*1 -> get_property table key <> Inherited ->
  get_property table key = Absent.
Proof.
  unfold get_property. intros Hk%not_elem_of_list_to_map_1.
  rewrite Hk. by destruct (bool_decide _).
Qed.

(** X12: whatever name it is given, [createGeometryFromType] makes a
    component for which the render system builds the geometry it builds
    for that type name without any parameters: the adapter's parameter
    tables are the system's defaults, and a name outside the table gives
    the unit box.  The component is of the named type when that is one of
    the six, and a box otherwise. *)
Theorem adapter_geometry_is_default (ty : string) :
  _createGeometry_call (Some (createGeometryFromType ty)) =
    _createGeometry_call (Some (ThreeGeometryComponent_new (Some ty) None)) /\
  geometryType (createGeometryFromType ty) =
    (if bool_decide (ty ∈ six_types) then ty else "box") /\
  geometry_needsUpdate (createGeometryFromType ty) = false.
Proof.
  destruct (decide (ty ∈ six_types)) as [Hin|Hout].
  - rewrite bool_decide_true by done. unfold six_types in Hin.
    rewrite !elem_of_cons, elem_of_nil in Hin.
    destruct Hin as [->|[->|[->|[->|[->|[->|[]]]]]]];
      by vm_compute.
  - rewrite bool_decide_false by done.
    rewrite (createGeometry_other (ThreeGeometryComponent_new (Some ty) None))
      by done.
    unfold createGeometryFromType.
    destruct (get_property geometryConfigs ty) as [config| |] eqn:Hp.
    + apply get_property_Own in Hp. exfalso. apply Hout.
      unfold geometryConfigs in Hp. unfold six_types.
      rewrite !elem_of_cons, elem_of_nil in Hp.
      rewrite !elem_of_cons.
      destruct Hp as [Hp|[Hp|[Hp|[Hp|[Hp|[Hp|[]]]]]]];
        injection Hp as -> _; tauto.
    + by vm_compute.
    + by vm_compute.
Qed.

(** X13: for every name of its table, [createMaterialFromName] makes a
    component that has the type, the colour and each number the table
    gives for it, with one exception: the roughness [0] of
    ['GlassMaterial'] is replaced by the constructor's default [1], and
    that is what the render system hands to [MeshPhysicalMaterial].  A
    name that is neither in the table nor inherited from
    [Object.prototype] gives the component of ['DefaultMaterial']. *)
Theorem adapter_material_from_name (name : string) :
  (forall cfg, (name, cfg) ∈ materialConfigs ->
     cfg_materialType cfg = Some (materialType (createMaterialFromName name)) /\
     cfg_color cfg = Some (color (createMaterialFromName name)) /\
     (forall v, cfg_metalness cfg = Some v ->
        metalness (createMaterialFromName name) = v) /\
     (forall v, cfg_roughness cfg = Some v ->
        if bool_decide (name = "GlassMaterial")
        then v = 0%float /\ roughness (createMaterialFromName name) = 1%float
        else roughness (createMaterialFromName name) = v) /\
     (forall v, cfg_emissiveIntensity cfg = Some v ->
        emissiveIntensity (createMaterialFromName name) = v) /\
     (forall v, cfg_opacity cfg = Some v ->
        opacity (createMaterialFromName name) = v)) /\
  (name = "GlassMaterial" ->
   p_roughness (material_parameters
                  (_createMaterial_call (Some (createMaterialFromName name))))
     = Some 1%float) /\
  (name ∉ materialConfigs.*1 -> name ∉ Object_prototype_names ->
   createMaterialFromName name = createMaterialFromName "DefaultMaterial").
Proof.
  split_and!.
  - intros cfg Hin. unfold materialConfigs in Hin.
    rewrite !elem_of_cons, elem_of_nil in Hin.
    destruct Hin as [Hin|[Hin|[Hin|[Hin|[Hin|[Hin|[Hin|[Hin|[]]]]]]]]];
      injection Hin as -> ->;
      (split_and!; [by vm_compute|by vm_compute|..];
       intros v [= <-]; by vm_compute).
  - intros ->. by vm_compute.
  - intros Hk Hp. unfold createMaterialFromName at 1.
    rewrite get_property_other; [by vm_compute|done|].
    unfold get_property. rewrite (not_elem_of_list_to_map_1 _ _ Hk).
    by rewrite bool_decide_false.
Qed.

(** * The material factory *)

(** ** The texture cache *)

Lemma Map_get_None {A} (m : list (string * A)) key :
  Map_get m key = None <-> key ∉ m.*1.
Proof.
  induction m as [|[k v] m IH]; cbn.
  - split; [intros _; apply not_elem_of_nil|done].
  - rewrite not_elem_of_cons. destruct (String.eqb k key) eqn:Hk.
    + apply String.eqb_eq in Hk. split; [done|]. by intros [? _].
    + apply String.eqb_neq in Hk. rewrite IH. split; [by split|tauto].
Qed.

Lemma Map_get_Some {A} (m : list (string * A)) key v :
  Map_get m key = Some v -> (key, v) ∈ m.
Proof.
  induction m as [|[k v'] m IH]; cbn; [done|].
  destruct (String.eqb k key) eqn:Hk.
  - apply String.eqb_eq in Hk. intros [= ->]. subst. apply elem_of_cons. by left.
  - intros H. apply elem_of_cons. right. by apply IH.
Qed.

Lemma Map_get_app {A} (m : list (string * A)) key v :
  key ∉ m.*1 -> Map_get (m ++ [(key, v)]) key = Some v.
Proof.
  induction m as [|[k v'] m IH]; cbn.
  - by rewrite String.eqb_refl.
  - rewrite not_elem_of_cons. intros [Hk Hm].
    by rewrite (proj2 (String.eqb_neq _ _)), IH by done.
Qed.

Lemma Map_get_app_ne {A} (m : list (string * A)) key key' v :
  key <> key' -> Map_get (m ++ [(key, v)]) key' = Map_get m key'.
Proof.
  intros Hk. induction m as [|[k v'] m IH]; cbn.
  - by rewrite (proj2 (String.eqb_neq _ _)).
  - by rewrite IH.
Qed.

Lemma cache_ok_new : cache_ok Textures_new.
Proof. split; cbn; constructor. Qed.

Lemma loadTexture_ok url t :
  cache_ok t -> cache_ok (loadTexture url t).2.
Proof.
  intros [Hu Hx Hm]. unfold loadTexture.
  destruct (Map_get (textureCache t) url) as [x|] eqn:Hg; [done|].
  apply Map_get_None in Hg. constructor; cbn.
  - rewrite fmap_app. apply NoDup_app. split_and!; [done| |apply NoDup_singleton].
    intros u Hin Hin'. apply list_elem_of_singleton in Hin'. by subst.
  - rewrite fmap_app. apply NoDup_app. split_and!; [done| |apply NoDup_singleton].
    intros x Hin Hin'. apply list_elem_of_singleton in Hin'. subst.
    rewrite Forall_forall in Hm. specialize (Hm _ Hin). cbn in Hm. lia.
  - rewrite fmap_app. apply Forall_app. split.
    + eapply Forall_impl; [done|]. cbn. lia.
    + repeat constructor.
Qed.

Lemma loadTexture_cached url t x :
  Map_get (textureCache t) url = Some x -> loadTexture url t = (x, t).
Proof. unfold loadTexture. by intros ->. Qed.

Lemma Map_get_app_l {A} (m ext : list (string * A)) key x :
  Map_get m key = Some x -> Map_get (m ++ ext) key = Some x.
Proof.
  induction m as [|[k v] m IH]; cbn; [done|].
  by destruct (String.eqb k key).
Qed.

(** One call: the cache grows by at most the URL asked for, which is then
    cached with the texture returned. *)
Lemma loadTexture_facts url t :
  exists ext,
    textureCache (loadTexture url t).2 = textureCache t ++ ext /\
    texture_loads (loadTexture url t).2 = texture_loads t ++ ext.*1 /\
    texture_disposals (loadTexture url t).2 = texture_disposals t /\
    ext.*1 ⊆ [url] /\
    Map_get (textureCache (loadTexture url t).2) url =
      Some (loadTexture url t).1.
Proof.
  unfold loadTexture.
  destruct (Map_get (textureCache t) url) as [x|] eqn:Hg; cbn [fst snd].
  - exists []. rewrite !app_nil_r. split_and!; try done. apply list_subseteq_nil.
  - exists [(url, next_texture t)]. cbn. split_and!; try done.
    apply Map_get_app. by apply Map_get_None.
Qed.

Lemma loadTextures_facts urls t :
  cache_ok t ->
  cache_ok (loadTextures urls t).2 /\
  exists ext,
    textureCache (loadTextures urls t).2 = textureCache t ++ ext /\
    texture_loads (loadTextures urls t).2 = texture_loads t ++ ext.*1 /\
    texture_disposals (loadTextures urls t).2 = texture_disposals t /\
    ext.*1 ⊆ urls /\
    Forall2 (fun u x =>
               Map_get (textureCache (loadTextures urls t).2) u = Some x)
      urls (loadTextures urls t).1.
Proof.
  revert t. induction urls as [|u urls IH]; intros t Hok.
  { split; [done|]. exists []. cbn. rewrite !app_nil_r.
    by split_and!. }
  cbn [loadTextures].
  pose proof (loadTexture_ok u t Hok) as Hok1.
  destruct (loadTexture_facts u t) as (ext1 & Hc1 & Hl1 & Hd1 & Hs1 & Hg1).
  destruct (loadTexture u t) as [x t1]. cbn [fst snd] in *.
  destruct (IH t1 Hok1) as (Hok2 & ext2 & Hc2 & Hl2 & Hd2 & Hs2 & Hf2).
  destruct (loadTextures urls t1) as [xs t2]. cbn [fst snd] in *.
  split; [done|]. exists (ext1 ++ ext2). split_and!.
  - by rewrite Hc2, Hc1, app_assoc.
  - by rewrite Hl2, Hl1, fmap_app, app_assoc.
  - congruence.
  - rewrite fmap_app. intros v [Hv|Hv]%elem_of_app.
    + apply Hs1 in Hv. apply list_elem_of_singleton in Hv. subst.
      apply elem_of_cons. by left.
    + apply elem_of_cons. right. by apply Hs2.
  - constructor; [|done]. rewrite Hc2. by apply Map_get_app_l.
Qed.

(** Distinct URLs of the cache have distinct textures. *)
Lemma cache_ok_inj t u v x :
  cache_ok t -> Map_get (textureCache t) u = Some x ->
  Map_get (textureCache t) v = Some x -> u = v.
Proof.
  intros [_ Hx _] Hu%Map_get_Some Hv%Map_get_Some.
  apply list_elem_of_lookup in Hu as [i Hi], Hv as [j Hj].
  assert (i = j).
  { apply (NoDup_lookup _ i j x Hx); rewrite list_lookup_fmap.
    - by rewrite Hi.
    - by rewrite Hj. }
  subst. congruence.
Qed.

(** X14: [loadTexture] called for any URLs in turn, from a cache in order
    (the initial, empty one is), returns the same texture for the same URL
    and different textures for different URLs, and has the loader load
    each URL that was not cached exactly once, whatever the number of
    requests for it; nothing is disposed of. *)
Theorem texture_cache (urls : list string) (t : Textures) :
  cache_ok t ->
  (forall i j u v x y,
     urls !! i = Some u -> urls !! j = Some v ->
     (loadTextures urls t).1 !! i = Some x ->
     (loadTextures urls t).1 !! j = Some y ->
     x = y <-> u = v) /\
  (exists new,
     texture_loads (loadTextures urls t).2 = texture_loads t ++ new /\
     NoDup new /\
     forall u, u ∈ new <-> u ∈ urls /\ u ∉ (textureCache t).*1) /\
  texture_disposals (loadTextures urls t).2 = texture_disposals t /\
  cache_ok (loadTextures urls t).2.
Proof.
  intros Hok.
  destruct (loadTextures_facts urls t Hok)
    as (Hok' & ext & Hc & Hl & Hd & Hs & Hf).
  split_and!; [| |done|done].
  - intros i j u v x y Hi Hj Hx Hy.
    pose proof (Forall2_lookup_lr _ _ _ _ _ _ Hf Hi Hx) as Hu.
    pose proof (Forall2_lookup_lr _ _ _ _ _ _ Hf Hj Hy) as Hv.
    cbn in Hu, Hv. split.
    + intros <-. by eapply cache_ok_inj.
    + intros <-. congruence.
  - exists ext.*1. split; [done|].
    pose proof (ok_urls _ Hok') as Hnd. rewrite Hc, fmap_app in Hnd.
    apply NoDup_app in Hnd as (_ & Hdisj & Hnew). split; [done|].
    intros u. split.
    + intros Hu. split; [by apply Hs|]. intros Hin. by apply (Hdisj u).
    + intros [Hu Hnot].
      apply list_elem_of_lookup in Hu as [i Hi].
      destruct (Forall2_lookup_l _ _ _ _ _ Hf Hi) as (x & _ & Hx).
      cbn in Hx. apply Map_get_Some in Hx. rewrite Hc in Hx.
      apply elem_of_app in Hx as [Hx|Hx].
      * exfalso. apply Hnot. apply list_elem_of_fmap. by exists (u, x).
      * apply list_elem_of_fmap. by exists (u, x).
Qed.

Lemma texture_cache_witness :
  loadTextures ["a.png"; "b.png"; "a.png"] Textures_new =
    ([0; 1; 0],
     mkTextures [("a.png", 0); ("b.png", 1)] ["a.png"; "b.png"] [] 2) /\
  cache_ok (loadTextures ["a.png"; "b.png"; "a.png"] Textures_new).2.
Proof.
  split; [vm_compute; reflexivity|].
  apply (texture_cache ["a.png"; "b.png"; "a.png"] Textures_new).
  split; cbn; constructor.
Defined.

(** X15: [disposeCachedTextures] disposes of every cached texture once,
    in the order they were cached, and empties the cache; a URL requested
    afterwards is loaded again, as a texture that is none of the disposed
    ones. *)
Theorem dispose_cached_textures (t : Textures) (url : string) :
  cache_ok t ->
  textureCache (disposeCachedTextures t) = [] /\
  texture_disposals (disposeCachedTextures t) =
    texture_disposals t ++ (textureCache t).*2 /\
  NoDup (textureCache t).*2 /\
  texture_loads (loadTexture url (disposeCachedTextures t)).2 =
    texture_loads t ++ [url] /\
  ((loadTexture url (disposeCachedTextures t)).1 ∉ (textureCache t).*2) /\
  cache_ok (loadTexture url (disposeCachedTextures t)).2.
Proof.
  intros [Hu Hx Hm]. split_and!; try done.
  - cbn. intros Hin. rewrite Forall_forall in Hm.
    specialize (Hm _ Hin). cbn in Hm. lia.
  - apply loadTexture_ok. split; cbn; constructor.
Qed.

Lemma dispose_cached_textures_witness :
  texture_disposals
    (disposeCachedTextures
       (loadTextures ["a.png"; "b.png"; "a.png"] Textures_new).2) = [0; 1] /\
  ((loadTexture "a.png"
      (disposeCachedTextures
         (loadTextures ["a.png"; "b.png"; "a.png"] Textures_new).2)).1
     ∉ [0; 1]).
Proof.
  destruct (dispose_cached_textures
              (loadTextures ["a.png"; "b.png"; "a.png"] Textures_new).2
              "a.png")
    as (_ & Hd & _ & _ & Hfresh & _).
  - apply loadTextures_facts, cache_ok_new.
  - split; [exact Hd|exact Hfresh].
Defined.

(** ** Materials made by the factory *)

Lemma cache_grows_refl t : cache_grows t t.
Proof. by intros url x. Qed.

Lemma cache_grows_trans t1 t2 t3 :
  cache_grows t1 t2 -> cache_grows t2 t3 -> cache_grows t1 t3.
Proof. intros H12 H23 url x Hx. by apply H23, H12. Qed.

Lemma loadTexture_grows url t x t' :
  loadTexture url t = (x, t') ->
  cache_grows t t' /\ Map_get (textureCache t') url = Some x.
Proof.
  intros Heq. destruct (loadTexture_facts url t) as (ext & Hc & _ & _ & _ & Hg).
  rewrite Heq in Hc, Hg. cbn [fst snd] in Hc, Hg. split; [|done].
  intros u y Hy. rewrite Hc. by apply Map_get_app_l.
Qed.

(** A texture loaded once is returned again, without a load, by any later
    state of the cache. *)
Lemma loadTexture_again url t x t' t'' :
  loadTexture url t = (x, t') -> cache_grows t' t'' ->
  loadTexture url t'' = (x, t'').
Proof.
  intros [_ Hg]%loadTexture_grows Hgrow. by apply loadTexture_cached, Hgrow.
Qed.

Lemma load_if_grows url t v t' :
  load_if url t = (v, t') -> cache_grows t t'.
Proof.
  unfold load_if. destruct (truthy_string url) as [u|].
  - destruct (loadTexture u t) as [x t1] eqn:Hl. intros [= <- <-].
    by apply loadTexture_grows in Hl as [? _].
  - intros [= <- <-]. apply cache_grows_refl.
Qed.

Lemma load_if_again url t v t' t'' :
  load_if url t = (v, t') -> cache_grows t' t'' ->
  load_if url t'' = (v, t'').
Proof.
  unfold load_if. destruct (truthy_string url) as [u|]; [|by intros [= <- <-]].
  destruct (loadTexture u t) as [x t1] eqn:Hl. intros [= <- <-] Hgrow.
  by rewrite (loadTexture_again _ _ _ _ _ Hl Hgrow).
Qed.

(** The state [createMaterial] leaves is the one [loadTexture] leaves when
    called for some non-empty URLs that texture fields of the
    configuration hold. *)
Lemma createMaterial_loads config t :
  exists urls,
    (MaterialFactory_createMaterial config t).2 = (loadTextures urls t).2 /\
    Forall (fun u => u <> "" /\
              exists field, field ∈ texture_fields /\
                            get_string config field = Some u) urls.
Proof.
  assert (Htruthy : forall field u,
            field ∈ texture_fields ->
            truthy_string (get_string config field) = Some u ->
            u <> "" /\ exists f, f ∈ texture_fields /\
                                 get_string config f = Some u).
  { intros field u Hin Hu. unfold truthy_string in Hu.
    destruct (get_string config field) as [v|] eqn:Hv; [|done].
    destruct (String.eqb v "") eqn:He; [done|]. injection Hu as ->.
    apply String.eqb_neq in He. split; [done|]. by exists field. }
  assert (Hf : forall f, bool_decide (f ∈ texture_fields) = true ->
                         f ∈ texture_fields).
  { intros f. apply bool_decide_eq_true_1. }
  unfold MaterialFactory_createMaterial, load_if.
  destruct (truthy_string (get_string config "texture")) as [u0|] eqn:E0;
    [destruct (loadTexture u0 t) as [x0 t0] eqn:L0|];
    repeat lazymatch goal with
    | |- context [if String.eqb ?a ?b then _ else _] =>
      destruct (String.eqb a b)
    end;
    repeat lazymatch goal with
    | |- context [match truthy_string ?x with _ => _ end] =>
      let E := fresh "E" in
      destruct (truthy_string x) as [?u|] eqn:E
    end;
    repeat lazymatch goal with
    | |- context [loadTexture ?u ?s] =>
      let L := fresh "L" in
      let x := fresh "x" in
      let s' := fresh "t" in
      destruct (loadTexture u s) as [x s'] eqn:L
    end;
    cbn [fst snd].
  all: lazymatch goal with
       | |- exists urls, ?s = _ /\ _ =>
         let rec urls_of s :=
           lazymatch goal with
           | L : loadTexture ?u ?s0 = (_, s) |- _ =>
             let r := urls_of s0 in constr:(r ++ [u])
           | _ => constr:(@nil string)
           end in
         let r := urls_of s in
         exists r
       end.
  all: split;
    [cbn [app loadTextures];
     repeat match goal with L : loadTexture _ _ = _ |- _ => rewrite L; clear L end;
     reflexivity
    |repeat (apply Forall_app_2 || apply Forall_cons_2 || apply Forall_nil_2);
     try (eapply Htruthy; [|eassumption]; apply Hf; vm_compute; reflexivity)].
Qed.

(** A second [createMaterial] of the same configuration finds every
    texture in the cache. *)
Lemma createMaterial_again config t :
  MaterialFactory_createMaterial config
    (MaterialFactory_createMaterial config t).2 =
  MaterialFactory_createMaterial config t.
Proof.
  unfold MaterialFactory_createMaterial at 2 3.
  destruct (truthy_string (get_string config "texture")) as [u0|] eqn:E0;
    [destruct (loadTexture u0 t) as [x0 t0] eqn:L0|];
    repeat lazymatch goal with
    | |- context [if String.eqb ?a ?b then _ else _] =>
      let E := fresh "T" in destruct (String.eqb a b) eqn:E
    end;
    repeat lazymatch goal with
    | |- context [load_if ?u ?s] =>
      let L := fresh "L" in
      let v := fresh "v" in
      let s' := fresh "t" in
      destruct (load_if u s) as [v s'] eqn:L
    end;
    cbn [fst snd];
    unfold MaterialFactory_createMaterial; rewrite E0;
    repeat match goal with T : String.eqb _ _ = _ |- _ => rewrite T; clear T end.
  all: repeat match goal with
       | L : load_if ?u ?s = (_, ?s') |- _ =>
         lazymatch goal with
         | _ : cache_grows s s' |- _ => fail
         | _ => assert (cache_grows s s') by (by eapply load_if_grows)
         end
       end.
  all: try match goal with
       | L : loadTexture ?u ?s = (_, ?s') |- context [loadTexture ?u ?s''] =>
         rewrite (loadTexture_again u s _ s' s'' L)
           by eauto using cache_grows_refl, cache_grows_trans
       end.
  all: repeat match goal with
       | L : load_if ?u ?s = (_, ?s') |- context [load_if ?u ?s''] =>
         rewrite (load_if_again u s _ s' s'' L)
           by eauto using cache_grows_refl, cache_grows_trans
       end.
  all: reflexivity.
Qed.

(** X16: [MaterialFactory.createMaterial], from a cache in order, has the
    loader load only URLs that a texture field of the configuration
    holds, non-empty and not yet cached, and each of them once; it
    disposes of nothing. Creating the material of the same configuration
    again loads nothing and gives the same parameters: the two materials
    share their textures. *)
Theorem factory_material_textures (config : JSObject) (t : Textures) :
  cache_ok t ->
  (exists new,
     texture_loads (MaterialFactory_createMaterial config t).2 =
       texture_loads t ++ new /\
     NoDup new /\
     forall u, u ∈ new ->
       (u ∉ (textureCache t).*1) /\ u <> "" /\
       exists field, field ∈ texture_fields /\
                     get_string config field = Some u) /\
  texture_disposals (MaterialFactory_createMaterial config t).2 =
    texture_disposals t /\
  cache_ok (MaterialFactory_createMaterial config t).2 /\
  MaterialFactory_createMaterial config
    (MaterialFactory_createMaterial config t).2 =
  MaterialFactory_createMaterial config t.
Proof.
  intros Hok. split_and!; [| | |apply createMaterial_again];
    destruct (createMaterial_loads config t) as (urls & -> & Hurls);
    destruct (loadTextures_facts urls t Hok)
      as (Hok' & ext & Hc & Hl & Hd & Hs & _); [|done|done].
  - exists ext.*1. split; [done|].
    pose proof (ok_urls _ Hok') as Hnd. rewrite Hc, fmap_app in Hnd.
    apply NoDup_app in Hnd as (_ & Hdisj & Hnew). split; [done|].
    intros u Hu. split; [intros Hin; by apply (Hdisj u)|].
    by apply (proj1 (Forall_forall _ _) Hurls), Hs.
Qed.

Lemma factory_material_textures_witness :
  let config :=
    [ ("type", VString "standard"); ("color", VString "#8D6E63");
      ("texture", VString "wood.png"); ("normalMap", VString "wood.png");
      ("roughnessMap", VString "") ] in
  (texture_loads (MaterialFactory_createMaterial config Textures_new).2 =
     ["wood.png"]) /\
  (get (fm_parameters (MaterialFactory_createMaterial config Textures_new).1)
     "normalMap" = Some (VTexture 0)) /\
  (MaterialFactory_createMaterial config
     (MaterialFactory_createMaterial config Textures_new).2 =
   MaterialFactory_createMaterial config Textures_new).
Proof.
  intros config.
  split; [vm_compute; reflexivity|]. split; [vm_compute; reflexivity|].
  apply (factory_material_textures config Textures_new).
  split; cbn; constructor.
Defined.

(** Case analysis on the entries of a literal object. *)
Ltac each_entry Hk :=
  repeat (apply elem_of_cons in Hk as [Hk|Hk];
          [first [discriminate Hk
                 |injection Hk as -> ->;
                  first [done|vm_compute; reflexivity]]|]);
  by apply elem_of_nil in Hk.

(** X17: for each of the presets of [MaterialPresets], [createMaterial]
    loads no texture and makes a material of the class of the preset's
    type whose parameters hold the preset's colour, its booleans and its
    numbers, with one exception: a roughness of [0], which the two glass
    presets have, becomes [1]. An opacity of [0] is kept. *)
Theorem preset_materials (name : string) (config : JSObject) (t : Textures) :
  (name, config) ∈ MaterialPresets ->
  (MaterialFactory_createMaterial config t).2 = t /\
  (forall type, get_string config "type" = Some type ->
     fm_class (MaterialFactory_createMaterial config t).1 =
       if String.eqb type "standard" then MeshStandardMaterial
       else if String.eqb type "physical" then MeshPhysicalMaterial
       else if String.eqb type "toon" then MeshToonMaterial
       else MeshBasicMaterial) /\
  (forall key v, (key, VNumber v) ∈ config ->
     get (fm_parameters (MaterialFactory_createMaterial config t).1) key =
       Some (VNumber (if String.eqb key "roughness" && negb (truthy v)
                      then 1 else v))) /\
  (forall key b, (key, VBoolean b) ∈ config ->
     get (fm_parameters (MaterialFactory_createMaterial config t).1) key =
       Some (VBoolean b)) /\
  (forall key c, (key, VString c) ∈ config -> key <> "type" ->
     get (fm_parameters (MaterialFactory_createMaterial config t).1) key =
       Some (VColor (ColorString c))) /\
  (name ∈ ["Glass"; "TintedGlass"] <->
   get_number config "roughness" = Some 0%float).
Proof.
  intros Hin. unfold MaterialPresets in Hin.
  repeat (apply elem_of_cons in Hin as [[= -> ->]|Hin]);
    [..|by apply elem_of_nil in Hin].
  all: split; [reflexivity|].
  all: split; [by intros type [= <-]|].
  all: split; [intros key v Hk; each_entry Hk|].
  all: split; [intros key v Hk; each_entry Hk|].
  all: split; [intros key v Hk Hne; each_entry Hk|].
  all: split;
    [intros Hn;
     repeat (apply elem_of_cons in Hn as [Hn|Hn];
             [first [discriminate Hn|vm_compute; reflexivity]|]);
     by apply elem_of_nil in Hn
    |intros Hr; vm_compute in Hr;
     first [discriminate Hr
           |solve [repeat constructor]
           |injection Hr as Hr;
            apply (f_equal (fun x => PrimFloat.eqb x 0)) in Hr;
            vm_compute in Hr; discriminate Hr]].
Qed.

Lemma preset_materials_witness :
  let glass :=
    [ ("type", VString "physical"); ("color", VString "#FFFFFF");
      ("metalness", VNumber 0.0); ("roughness", VNumber 0.0);
      ("transparent", VBoolean true); ("opacity", VNumber 0.1);
      ("transmission", VNumber 0.9); ("thickness", VNumber 0.5);
      ("ior", VNumber 1.5) ]%float in
  (("Glass", glass) ∈ MaterialPresets) /\
  (get (fm_parameters (MaterialFactory_createMaterial glass Textures_new).1)
     "roughness" = Some (VNumber 1)) /\
  (get (fm_parameters (MaterialFactory_createMaterial glass Textures_new).1)
     "opacity" = Some (VNumber 0.1)).
Proof.
  intros glass.
  assert (Hin : ("Glass", glass) ∈ MaterialPresets).
  { unfold MaterialPresets. do 9 apply list_elem_of_further.
    apply list_elem_of_here. }
  destruct (preset_materials "Glass" glass Textures_new Hin)
    as (_ & _ & Hnum & _).
  split; [done|]. split.
  - apply (Hnum "roughness" 0%float). subst glass.
    do 3 apply list_elem_of_further. apply list_elem_of_here.
  - apply (Hnum "opacity" 0.1%float). subst glass.
    do 5 apply list_elem_of_further. apply list_elem_of_here.
Defined.

(** * The geometry factory *)

Lemma Map_set_new {A} (m : list (string * A)) key v :
  Map_get m key = None -> Map_set key v m = m ++ [(key, v)].
Proof.
  induction m as [|[k v'] m IH]; cbn; [done|].
  destruct (String.eqb k key); [done|]. intros H. by rewrite IH.
Qed.

Section GeometryFactory_facts.

Variable getCacheKey : JSObject -> string.

(** One call of [createGeometry]. [new] is the configuration the
    constructor was called for, if it was. *)
Lemma createGeometry_facts config s :
  geometries_ok s -> cache_describes getCacheKey s ->
  geometries_ok (GeometryFactory_createGeometry getCacheKey config s).2 /\
  cache_describes getCacheKey (GeometryFactory_createGeometry getCacheKey config s).2 /\
  (GeometryFactory_createGeometry getCacheKey config s).1 = next_geometry s /\
  geometry_disposals (GeometryFactory_createGeometry getCacheKey config s).2 = geometry_disposals s /\
  geometries s ⊆ geometries (GeometryFactory_createGeometry getCacheKey config s).2 /\
  (exists config0,
     getCacheKey config0 = getCacheKey config /\
     geometries (GeometryFactory_createGeometry getCacheKey config s).2 !! (GeometryFactory_createGeometry getCacheKey config s).1 =
       Some (createGeometry_switch config0)) /\
  exists new ext,
    new `sublist_of` [config] /\
    geometryCache (GeometryFactory_createGeometry getCacheKey config s).2 = geometryCache s ++ ext /\
    ext.*1 = getCacheKey <$> new /\
    Forall (fun x => next_geometry s < x) ext.*2 /\
    getCacheKey config ∈ (geometryCache (GeometryFactory_createGeometry getCacheKey config s).2).*1 /\
    geometry_constructions (GeometryFactory_createGeometry getCacheKey config s).2 =
      geometry_constructions s ++ (createGeometry_switch <$> new) /\
    length (geometry_clones (GeometryFactory_createGeometry getCacheKey config s).2) =
      S (length (geometry_clones s)) /\
    next_geometry (GeometryFactory_createGeometry getCacheKey config s).2 =
      next_geometry s + 1 + length new.
Proof.
  intros [Hk Hc Hm Ho] Hd. unfold GeometryFactory_createGeometry.
  destruct (Map_get (geometryCache s) (getCacheKey config)) as [x|] eqn:Hg.
  - (* a hit: a clone of the cached geometry *)
    destruct (Hd _ _ Hg) as (config0 & Hkey & Hx).
    assert (Hfresh : geometries s !! next_geometry s = None).
    { apply eq_None_not_Some. intros Hs%Ho. lia. }
    cbn. split_and!.
    + constructor; cbn; [done|done| |].
      * eapply Forall_impl; [exact Hm|]. cbn. lia.
      * intros y. destruct (decide (y = next_geometry s)) as [->|Hne]; [lia|].
        rewrite lookup_partial_alter_ne by done. intros Hs%Ho. lia.
    + intros key y Hy. cbn in Hy. destruct (Hd _ _ Hy) as (c & Hc1 & Hc2).
      exists c. split; [done|]. cbn.
      rewrite lookup_partial_alter_ne; [done|].
      intros <-. rewrite Hfresh in Hc2. done.
    + done.
    + done.
    + by apply partial_alter_subseteq.
    + exists config0. split; [done|]. by rewrite lookup_partial_alter_eq.
    + exists [], []. cbn. rewrite !app_nil_r. split_and!; try done.
      * apply sublist_nil_l.
      * apply Map_get_Some in Hg. apply list_elem_of_fmap.
        by exists (getCacheKey config, x).
      * rewrite length_app. cbn. lia.
      * lia.
  - (* a miss: the constructor, then a clone for the cache *)
    assert (Hfresh : geometries s !! next_geometry s = None).
    { apply eq_None_not_Some. intros Hs%Ho. lia. }
    assert (Hfresh' : geometries s !! S (next_geometry s) = None).
    { apply eq_None_not_Some. intros Hs%Ho. lia. }
    cbn. rewrite Map_set_new by done. rewrite lookup_insert_eq.
    split_and!.
    + constructor; cbn.
      * rewrite fmap_app. apply NoDup_app. split_and!; [done| |apply NoDup_singleton].
        intros k Hin ->%list_elem_of_singleton. by apply Map_get_None in Hg.
      * rewrite fmap_app. apply NoDup_app. split_and!; [done| |apply NoDup_singleton].
        intros y Hin ->%list_elem_of_singleton.
        apply (proj1 (Forall_forall _ _) Hm) in Hin. cbn in Hin. lia.
      * rewrite fmap_app. apply Forall_app. split.
        -- eapply Forall_impl; [exact Hm|]. cbn. lia.
        -- repeat constructor.
      * intros y.
        destruct (decide (y = S (next_geometry s))) as [->|Hne]; [lia|].
        rewrite lookup_partial_alter_ne by done.
        destruct (decide (y = next_geometry s)) as [->|Hne']; [lia|].
        rewrite lookup_insert_ne by done. intros Hs%Ho. lia.
    + intros key y Hy. cbn in Hy. cbn.
      destruct (decide (key = getCacheKey config)) as [->|Hne].
      * rewrite Map_get_app in Hy by (by apply Map_get_None).
        injection Hy as <-. exists config. split; [done|].
        by rewrite lookup_partial_alter_eq.
      * rewrite Map_get_app_ne in Hy by done.
        destruct (Hd _ _ Hy) as (c & Hc1 & Hc2). exists c. split; [done|].
        rewrite lookup_partial_alter_ne, lookup_insert_ne; [done| |].
        -- intros <-. by rewrite Hfresh in Hc2.
        -- intros <-. by rewrite Hfresh' in Hc2.
    + done.
    + done.
    + etrans; [apply (insert_subseteq _ (next_geometry s)); done|].
      apply partial_alter_subseteq. by rewrite lookup_insert_ne by lia.
    + exists config. split; [done|].
      by rewrite lookup_partial_alter_ne, lookup_insert_eq by lia.
    + exists [config], [(getCacheKey config, S (next_geometry s))]. cbn.
      split_and!; try done.
      * repeat constructor.
      * rewrite fmap_app. apply elem_of_app. right. by apply list_elem_of_singleton.
      * rewrite length_app. cbn. lia.
      * lia.
Qed.

Lemma createGeometries_facts configs s :
  geometries_ok s -> cache_describes getCacheKey s ->
  geometries_ok (createGeometries getCacheKey configs s).2 /\
  cache_describes getCacheKey (createGeometries getCacheKey configs s).2 /\
  geometry_disposals (createGeometries getCacheKey configs s).2 =
    geometry_disposals s /\
  geometries s ⊆ geometries (createGeometries getCacheKey configs s).2 /\
  Forall (fun r => next_geometry s <= r) (createGeometries getCacheKey configs s).1 /\
  Forall (fun r => r < next_geometry (createGeometries getCacheKey configs s).2)
    (createGeometries getCacheKey configs s).1 /\
  NoDup (createGeometries getCacheKey configs s).1 /\
  (forall x, x ∈ (geometryCache (createGeometries getCacheKey configs s).2).*2 ->
     x ∈ (geometryCache s).*2 \/
     (next_geometry s <= x /\ x ∉ (createGeometries getCacheKey configs s).1)) /\
  Forall2 (fun config r =>
             exists config0,
               getCacheKey config0 = getCacheKey config /\
               geometries (createGeometries getCacheKey configs s).2 !! r =
                 Some (createGeometry_switch config0))
    configs (createGeometries getCacheKey configs s).1 /\
  exists new ext,
    new `sublist_of` configs /\
    geometryCache (createGeometries getCacheKey configs s).2 =
      geometryCache s ++ ext /\
    ext.*1 = getCacheKey <$> new /\
    (getCacheKey <$> configs) ⊆
      (geometryCache (createGeometries getCacheKey configs s).2).*1 /\
    geometry_constructions (createGeometries getCacheKey configs s).2 =
      geometry_constructions s ++ (createGeometry_switch <$> new) /\
    length (geometry_clones (createGeometries getCacheKey configs s).2) =
      length (geometry_clones s) + length configs /\
    next_geometry (createGeometries getCacheKey configs s).2 =
      next_geometry s + length configs + length new.
Proof.
  revert s. induction configs as [|config configs IH]; intros s Hok Hd.
  { cbn. split_and!; try done.
    - apply NoDup_nil_2.
    - intros x Hx. by left.
    - exists [], []. cbn. rewrite !app_nil_r. split_and!; try done.
      + apply list_subseteq_nil.
      + lia. }
  cbn [createGeometries].
  destruct (createGeometry_facts config s Hok Hd)
    as (Hok1 & Hd1 & Hr1 & Hdis1 & Hsub1 & Hshape1 & new1 & ext1 & Hn1 & Hc1
        & He1 & Hv1 & Hin1 & Hcon1 & Hcl1 & Hnx1).
  destruct (GeometryFactory_createGeometry getCacheKey config s) as [r s1].
  cbn [fst snd] in *.
  destruct (IH s1 Hok1 Hd1)
    as (Hok2 & Hd2 & Hdis2 & Hsub2 & Hge2 & Hlt2 & Hnd2 & Hvals2 & Hshape2
        & new2 & ext2 & Hn2 & Hc2 & He2 & Hin2 & Hcon2 & Hcl2 & Hnx2).
  destruct (createGeometries getCacheKey configs s1) as [rs s2].
  cbn [fst snd] in *.
  assert (Hrs : r ∉ rs).
  { intros Hin. apply (proj1 (Forall_forall _ _) Hge2) in Hin. lia. }
  split_and!; try done.
  - congruence.
  - by etrans.
  - constructor; [lia|]. eapply Forall_impl; [exact Hge2|]. cbn. lia.
  - constructor; [lia|done].
  - by constructor.
  - intros x Hx. destruct (Hvals2 x Hx) as [Hx1|[Hx1 Hx2]].
    + assert (x < next_geometry s1) as Hlt
        by apply (proj1 (Forall_forall _ _) (gok_made _ Hok1)), Hx1.
      rewrite Hc1, fmap_app in Hx1. apply elem_of_app in Hx1 as [Hx1|Hx1].
      * by left.
      * right. apply (proj1 (Forall_forall _ _) Hv1) in Hx1.
        split; [lia|]. intros [->|Hin]%elem_of_cons; [lia|].
        apply (proj1 (Forall_forall _ _) Hge2) in Hin. lia.
    + right. split; [lia|]. intros [->|Hin]%elem_of_cons; [lia|done].
  - constructor; [|done]. destruct Hshape1 as (config0 & Hkey & Hlook).
    exists config0. split; [done|]. by eapply lookup_weaken.
  - exists (new1 ++ new2), (ext1 ++ ext2). split_and!.
    + by apply (sublist_app new1 [config] new2 configs).
    + by rewrite Hc2, Hc1, app_assoc.
    + by rewrite !fmap_app, He1, He2.
    + intros k [->|Hk]%elem_of_cons.
      * rewrite Hc2, fmap_app. apply elem_of_app. by left.
      * by apply Hin2.
    + by rewrite Hcon2, Hcon1, fmap_app, app_assoc.
    + rewrite Hcl2, Hcl1. cbn. lia.
    + rewrite Hnx2, Hnx1, length_app. cbn. lia.
Qed.

End GeometryFactory_facts.

Lemma geometries_ok_new : geometries_ok Geometries_new.
Proof.
  split; cbn; try constructor. intros x [g Hg]. by rewrite lookup_empty in Hg.
Qed.

Lemma cache_describes_new getCacheKey :
  cache_describes getCacheKey Geometries_new.
Proof. by intros key x Hx. Qed.

(** X18: [GeometryFactory.createGeometry] called for any configurations
    in turn, from a cache in order (the initial, empty one is), with any
    key function: every geometry returned is a new object, different from
    all others returned, described by the constructor call that the switch
    makes for a configuration with the same cache key (for the
    configuration itself when equal keys imply equal calls). The
    constructor is called once for each key that was not cached, in the
    order of the first requests; each request makes one clone, so a
    missed request makes two objects and a served one a single one.
    Nothing is disposed of. *)
Theorem geometry_cache (getCacheKey : JSObject -> string)
    (configs : list JSObject) (s : Geometries) :
  geometries_ok s -> cache_describes getCacheKey s ->
  NoDup (createGeometries getCacheKey configs s).1 /\
  Forall (fun r => geometries s !! r = None)
    (createGeometries getCacheKey configs s).1 /\
  Forall2 (fun config r =>
             (exists config0,
                getCacheKey config0 = getCacheKey config /\
                geometries (createGeometries getCacheKey configs s).2 !! r =
                  Some (createGeometry_switch config0)) /\
             ((forall c c', getCacheKey c = getCacheKey c' ->
                 createGeometry_switch c = createGeometry_switch c') ->
              geometries (createGeometries getCacheKey configs s).2 !! r =
                Some (createGeometry_switch config)))
    configs (createGeometries getCacheKey configs s).1 /\
  (exists new,
     geometry_constructions (createGeometries getCacheKey configs s).2 =
       geometry_constructions s ++ (createGeometry_switch <$> new) /\
     new `sublist_of` configs /\
     NoDup (getCacheKey <$> new) /\
     (forall key, key ∈ getCacheKey <$> new <->
        key ∈ getCacheKey <$> configs /\ key ∉ (geometryCache s).*1) /\
     next_geometry (createGeometries getCacheKey configs s).2 =
       next_geometry s + length configs + length new) /\
  length (geometry_clones (createGeometries getCacheKey configs s).2) =
    length (geometry_clones s) + length configs /\
  geometry_disposals (createGeometries getCacheKey configs s).2 =
    geometry_disposals s /\
  geometries_ok (createGeometries getCacheKey configs s).2 /\
  cache_describes getCacheKey (createGeometries getCacheKey configs s).2.
Proof.
  intros Hok Hd.
  destruct (createGeometries_facts getCacheKey configs s Hok Hd)
    as (Hok' & Hd' & Hdis & Hsub & Hge & Hlt & Hnd & Hvals & Hshape
        & new & ext & Hn & Hc & He & Hin & Hcon & Hcl & Hnx).
  split_and!; try done.
  - eapply Forall_impl; [exact Hge|]. intros r Hr. cbn in Hr.
    apply eq_None_not_Some. intros Hs%(gok_objects _ Hok). lia.
  - eapply Forall2_impl; [exact Hshape|].
    intros config r (config0 & Hkey & Hlook). split.
    + by exists config0.
    + intros Hinj. by rewrite Hlook, (Hinj _ _ Hkey).
  - exists new. split; [done|]. split; [done|].
    pose proof (gok_keys _ Hok') as Hkeys.
    rewrite Hc, fmap_app, He in Hkeys.
    apply NoDup_app in Hkeys as (_ & Hdisj & Hnew).
    split; [done|]. split; [|done]. intros key. split.
    + intros Hk. split.
      * apply list_elem_of_fmap in Hk as (c & -> & Hcin).
        apply list_elem_of_fmap. exists c. split; [done|].
        by eapply elem_of_sublist.
      * intros Hk'. by apply (Hdisj key).
    + intros [Hk Hnot]. apply Hin in Hk.
      rewrite Hc, fmap_app, He in Hk. by apply elem_of_app in Hk as [Hk|Hk].
Qed.

Lemma geometry_cache_witness :
  let getCacheKey config := default "" (get_string config "type") in
  let box := [("type", VString "box"); ("width", VNumber 2)] in
  let sphere := [("type", VString "sphere")] in
  ((createGeometries getCacheKey [box; sphere; box] Geometries_new).1 =
     [0; 2; 4]) /\
  (geometry_constructions
     (createGeometries getCacheKey [box; sphere; box] Geometries_new).2 =
     [createGeometry_switch box; createGeometry_switch sphere]) /\
  NoDup (createGeometries getCacheKey [box; sphere; box] Geometries_new).1.
Proof.
  intros getCacheKey box sphere.
  split; [vm_compute; reflexivity|]. split; [vm_compute; reflexivity|].
  apply (geometry_cache getCacheKey [box; sphere; box] Geometries_new).
  - apply geometries_ok_new.
  - apply cache_describes_new.
Defined.

(** X19: [GeometryFactory.clearCache], after any requests from a cache in
    order, disposes of every cached clone once, in the order they were
    cached, and of no geometry that [createGeometry] returned; it empties
    the cache, so that the next request, whatever its configuration,
    calls the constructor again. *)
Theorem clear_geometry_cache (getCacheKey : JSObject -> string)
    (configs : list JSObject) (config : JSObject) (s : Geometries) :
  geometries_ok s -> cache_describes getCacheKey s ->
  geometryCache (clearCache (createGeometries getCacheKey configs s).2) = [] /\
  geometry_disposals (clearCache (createGeometries getCacheKey configs s).2) =
    geometry_disposals s ++
    (geometryCache (createGeometries getCacheKey configs s).2).*2 /\
  NoDup (geometryCache (createGeometries getCacheKey configs s).2).*2 /\
  (forall r, r ∈ (createGeometries getCacheKey configs s).1 ->
     r ∉ (geometryCache (createGeometries getCacheKey configs s).2).*2) /\
  geometry_constructions
    (GeometryFactory_createGeometry getCacheKey config
       (clearCache (createGeometries getCacheKey configs s).2)).2 =
    geometry_constructions (createGeometries getCacheKey configs s).2 ++
    [createGeometry_switch config] /\
  geometries_ok (clearCache (createGeometries getCacheKey configs s).2) /\
  cache_describes getCacheKey
    (clearCache (createGeometries getCacheKey configs s).2).
Proof.
  intros Hok Hd.
  destruct (createGeometries_facts getCacheKey configs s Hok Hd)
    as (Hok' & Hd' & Hdis & Hsub & Hge & Hlt & Hnd & Hvals & Hshape & _).
  split_and!.
  - done.
  - cbn. by rewrite Hdis.
  - apply (gok_cached _ Hok').
  - intros r Hr Hin. destruct (Hvals r Hin) as [Hold|[_ Hnot]]; [|done].
    apply (proj1 (Forall_forall _ _) (gok_made _ Hok)) in Hold.
    apply (proj1 (Forall_forall _ _) Hge) in Hr. lia.
  - done.
  - destruct Hok' as [H1 H2 H3 H4]. split; cbn; try constructor. done.
  - by intros key x Hx.
Qed.

Lemma clear_geometry_cache_witness :
  let getCacheKey config := default "" (get_string config "type") in
  let box := [("type", VString "box"); ("width", VNumber 2)] in
  let sphere := [("type", VString "sphere")] in
  (geometry_disposals
     (clearCache
        (createGeometries getCacheKey [box; sphere; box] Geometries_new).2) =
     [1; 3]) /\
  (forall r,
     r ∈ (createGeometries getCacheKey [box; sphere; box] Geometries_new).1 ->
     r ∉ (geometryCache
            (createGeometries getCacheKey [box; sphere; box]
               Geometries_new).2).*2).
Proof.
  intros getCacheKey box sphere.
  split; [vm_compute; reflexivity|].
  apply (clear_geometry_cache getCacheKey [box; sphere; box] box
           Geometries_new).
  - apply geometries_ok_new.
  - apply cache_describes_new.
Defined.
